(** * Rendering-graph pipeline of the React component visualiser

    A shallow embedding of

    - [libs/analyzeReactComponent.ts]: export resolution, primary
      component selection, hook classification, effect / callback fact
      extraction and the JSX tree walk;
    - [libs/graphModel.ts] ([buildGraphFromAnalysis]) and
      [shared/libs/buildGraph/buildGraph.ts]
      ([buildGraphFromMappingResult]): the two graph assemblers.

    Conventions.  A JS [number] is a [Z]; a JS string is a [string]
    (a sequence of 8-bit characters, case mapping on the ASCII letters);
    [T | null] and optional fields are [option T]; an array is a [list];
    a template literal is a concatenation with [+:+].  A [Map] whose
    iteration order is observed is an association list in insertion
    order, one that is only looked up is a [gmap]. *)

From Stdlib Require Import ZArith String Ascii List Lia.
From Stdlib Require Import DecimalString DecimalZ DecimalPos Sorted Permutation.
From stdpp Require Import base list strings gmap.

Set Warnings "-register-all".

Local Open Scope string_scope.
Local Open Scope list_scope.
Local Open Scope Z_scope.

(** ** Strings as the source uses them *)

Module Js.

(** Truthiness of a string: only the empty string is falsy. *)
Definition truthy (s : string) : bool := negb (s =? EmptyString)%string.

(** Truthiness of [string | null | undefined]. *)
Definition truthyOpt (o : option string) : bool :=
  match o with
  | Some s => truthy s
  | None => false
  end.

(** [s.startsWith(p)] *)
Definition startsWith (s p : string) : bool := String.prefix p s.

(** [s.endsWith(p)]: some suffix of [s] is [p]. *)
Fixpoint endsWith (s p : string) : bool :=
  (s =? p)%string ||
  match s with
  | EmptyString => false
  | String _ rest => endsWith rest p
  end.

(** [s.includes(p)]: [p] starts at some position of [s]. *)
Fixpoint includes (s p : string) : bool :=
  String.prefix p s ||
  match s with
  | EmptyString => false
  | String _ rest => includes rest p
  end.

(** The character class [[A-Z]]. *)
Definition isUpper (c : ascii) : bool :=
  let n := nat_of_ascii c in
  (Nat.leb 65 n && Nat.leb n 90)%bool.

Definition lowerChar (c : ascii) : ascii :=
  if isUpper c then ascii_of_nat (nat_of_ascii c + 32) else c.

(** [s.toLowerCase()] *)
Fixpoint toLowerCase (s : string) : string :=
  match s with
  | EmptyString => EmptyString
  | String c rest => String (lowerChar c) (toLowerCase rest)
  end.

(** A line terminator, which the regular expression atom [.] refuses:
    line feed and carriage return (the two Unicode separators are not
    8-bit characters). *)
Definition isLineTerminator (c : ascii) : bool :=
  let n := nat_of_ascii c in
  (Nat.eqb n 10 || Nat.eqb n 13)%bool.

(** What [.*] consumes: the longest prefix without a line terminator. *)
Fixpoint dotStar (s : string) : string :=
  match s with
  | EmptyString => EmptyString
  | String c rest =>
      if isLineTerminator c then EmptyString else String c (dotStar rest)
  end.

(** [forallb] over the characters of a string. *)
Fixpoint allChars (p : ascii -> bool) (s : string) : bool :=
  match s with
  | EmptyString => true
  | String c rest => (p c && allChars p rest)%bool
  end.

(** Decimal rendering of an integer inside a template literal. *)
Definition numToString (z : Z) : string :=
  NilZero.string_of_int (Z.to_int z).

(** [Array.from(new Set(xs))]: duplicates dropped, first occurrences
    kept in their order. *)
Definition uniq (xs : list string) : list string :=
  fold_left
    (fun seen x => if existsb (String.eqb x) seen then seen else seen ++ [x])
    xs [].

End Js.

(** ** Facts produced by the analysis ([analyzeReactComponent.ts]) *)

Inductive HookKind : Type :=
| useState
| useRef
| useReducer
| useEffect
| useLayoutEffect
| useCallback
| useMemo
| zustand
| react_query
| custom.

Definition HookKind_eqb (a b : HookKind) : bool :=
  match a, b with
  | useState, useState | useRef, useRef | useReducer, useReducer
  | useEffect, useEffect | useLayoutEffect, useLayoutEffect
  | useCallback, useCallback | useMemo, useMemo
  | zustand, zustand | react_query, react_query | custom, custom => true
  | _, _ => false
  end.

(** The string a [HookKind] is at run time. *)
Definition HookKind_str (k : HookKind) : string :=
  match k with
  | useState => "useState"
  | useRef => "useRef"
  | useReducer => "useReducer"
  | useEffect => "useEffect"
  | useLayoutEffect => "useLayoutEffect"
  | useCallback => "useCallback"
  | useMemo => "useMemo"
  | zustand => "zustand"
  | react_query => "react-query"
  | custom => "custom"
  end.

Inductive StateScope : Type := local | global | external.

Definition StateScope_eqb (a b : StateScope) : bool :=
  match a, b with
  | local, local | global, global | external, external => true
  | _, _ => false
  end.

Record Loc : Type := { line : Z; column : Z }.

Record AnalyzedHook : Type := {
  hook_id : string;
  hook_name : string;
  hook_hookKind : HookKind;
  hook_scope : StateScope;
  hook_definedAt : option Loc;
  hook_importSource : option string   (* meta: { importSource } *)
}.

Record EffectDependency : Type := {
  dep_name : string;
  dep_isGlobal : bool
}.

Record AnalyzedEffect : Type := {
  eff_id : string;
  eff_hookKind : HookKind;   (* "useEffect" | "useLayoutEffect" *)
  eff_dependencies : list EffectDependency;
  eff_setters : list string;
  eff_refs : list string;
  eff_definedAt : option Loc
}.

Record AnalyzedCallback : Type := {
  cb_id : string;
  cb_name : option string;
  cb_dependencies : list string;
  cb_setters : list string;
  cb_definedAt : option Loc
}.

(** The element fact of [analyzeReactComponent.ts]: no parent identity. *)
Record AnalyzedJsxNode : Type := {
  jsx_id : string;
  jsx_component : string;
  jsx_depth : Z;
  jsx_props : list string;
  jsx_definedAt : option Loc
}.

Record ExportInfo : Type := {
  defaultExport : option string;
  namedExports : list string
}.

Record ComponentAnalysis : Type := {
  source : string;
  fileName : option string;
  componentName : option string;
  hooks : list AnalyzedHook;
  effects : list AnalyzedEffect;
  callbacks : list AnalyzedCallback;
  jsxNodes : list AnalyzedJsxNode;
  meta : ExportInfo;   (* { exportedComponents; defaultExport } *)
  errors : list string
}.

(** ** Primary component selection *)

(** [fileName.replace] with the extension pattern: the leftmost dot
    that is followed, up to the end of the string, by one or more
    characters none of which is a slash or a dot, is cut off together
    with what follows it. *)
Definition extChar (c : ascii) : bool :=
  negb (Ascii.eqb c "/" || Ascii.eqb c ".")%bool.

Fixpoint stripExtension (s : string) : string :=
  match s with
  | EmptyString => EmptyString
  | String c rest =>
      if (Ascii.eqb c "." && negb (rest =? EmptyString)%string
          && Js.allChars extChar rest)%bool
      then EmptyString
      else String c (stripExtension rest)
  end.

Definition pickPrimaryComponent
    (exportInfo : ExportInfo) (fileName : option string) : option string :=
  if Js.truthyOpt (defaultExport exportInfo) then defaultExport exportInfo
  else if Nat.eqb (length (namedExports exportInfo)) 1
  then namedExports exportInfo !! 0%nat
  else
    let matched :=
      match fileName with
      | Some f =>
          if Js.truthy f then
            let base := stripExtension f in
            find (fun name => (name =? base)%string) (namedExports exportInfo)
          else None
      | None => None
      end in
    if Js.truthyOpt matched then matched
    else namedExports exportInfo !! 0%nat.

(** ** Hook classification *)

Definition classifyHookKind
    (calleeName : string) (importSource : option string) : HookKind :=
  if (calleeName =? "useState")%string then useState
  else if (calleeName =? "useRef")%string then useRef
  else if (calleeName =? "useReducer")%string then useReducer
  else if (calleeName =? "useEffect")%string then useEffect
  else if (calleeName =? "useLayoutEffect")%string then useLayoutEffect
  else if (calleeName =? "useCallback")%string then useCallback
  else if (calleeName =? "useMemo")%string then useMemo
  else if (Js.startsWith calleeName "use"
           && Js.endsWith calleeName "Store"
           && match importSource with
              | Some src => Js.truthy src && Js.includes src "zustand"
              | None => false
              end)%bool
  then zustand
  else
    match importSource with
    | Some src =>
        if (Js.truthy src
            && (Js.includes src "reactQuery"
                || Js.includes src "@tanstack/react-query"))%bool
        then
          let lower := Js.toLowerCase calleeName in
          if Js.includes lower "mutation" then react_query
          else if Js.includes lower "query" then react_query
          else custom
        else custom
    | None => custom
    end.

(** The binding of a [VariableDeclarator]: [id] is an identifier, an
    array pattern or an object pattern; an element or property value that
    is not an identifier is [None]. *)
Inductive Pattern : Type :=
| PIdentifier (name : string)
| ArrayPattern (elements : list (option string))
| ObjectPattern (properties : list (option string))
| OtherPattern.

Definition boundNames (id : Pattern) : list string :=
  match id with
  | PIdentifier name => [name]
  | ArrayPattern elements => omap (fun el => el) elements
  | ObjectPattern properties => omap (fun prop => prop) properties
  | OtherPattern => []
  end.

(** State of the body walk of [analyzeComponentBody] that the
    [VariableDeclarator] visitor updates. *)
Record HookState : Type := {
  st_hooks : list AnalyzedHook;
  st_globalStateNames : list string   (* a Set, in insertion order *)
}.

Definition scopeOfKind (hookKind : HookKind) : StateScope :=
  if (HookKind_eqb hookKind zustand || HookKind_eqb hookKind react_query)%bool
  then global else local.

(** One [names.forEach] step: push the hook, record a global name. *)
Definition pushHook
    (hookKind : HookKind) (scope : StateScope) (loc : option Loc)
    (src : option string) (st : HookState) (name : string) : HookState :=
  let hook := {|
    hook_id := "hook-" +:+ Js.numToString (Z.of_nat (length (st_hooks st)) + 1);
    hook_name := name;
    hook_hookKind := hookKind;
    hook_scope := scope;
    hook_definedAt := loc;
    hook_importSource := src |} in
  {| st_hooks := st_hooks st ++ [hook];
     st_globalStateNames :=
       if StateScope_eqb scope global
       then (if existsb (String.eqb name) (st_globalStateNames st)
             then st_globalStateNames st
             else st_globalStateNames st ++ [name])
       else st_globalStateNames st |}.

(** The property names every plain object inherits.  [importMap] is an
    object literal, so reading one of these names from it gives the
    inherited value, which is neither a string nor [undefined], unless
    an import has stored a source under that name. *)
Definition objectPrototypeNames : list string :=
  [ "constructor"; "hasOwnProperty"; "isPrototypeOf";
    "propertyIsEnumerable"; "toLocaleString"; "toString"; "valueOf";
    "__proto__"; "__defineGetter__"; "__defineSetter__";
    "__lookupGetter__"; "__lookupSetter__" ].

(** [importMap[localName] ?? null] *)
Inductive ImportValue : Type :=
| ImportSource (src : string)
| InheritedValue
| NoImport.

Definition importLookup
    (importMap : gmap string string) (localName : string) : ImportValue :=
  match importMap !! localName with
  | Some src => ImportSource src
  | None =>
      if bool_decide (localName ∈ objectPrototypeNames)
      then InheritedValue else NoImport
  end.

(** The [VariableDeclarator] visitor, for a declarator whose initialiser
    is a call of the identifier [localName].  None of the inherited
    names is a hook name, so with an inherited value [classifyHookKind]
    reaches [importSource.includes], which is not a function: the
    visitor throws ([None]) and records nothing. *)
Definition visitVariableDeclarator
    (importMap : gmap string string)
    (localName : string) (id : Pattern) (loc : option Loc)
    (st : HookState) : option HookState :=
  match importLookup importMap localName with
  | InheritedValue => None
  | _ =>
      let src := importMap !! localName in
      let hookKind := classifyHookKind localName src in
      let names := boundNames id in
      let scope := scopeOfKind hookKind in
      Some (fold_left (pushHook hookKind scope loc src) names st)
  end.

(** ** The syntax tree, as far as the analysis reads it

    [@babel/parser] and [@babel/traverse] are external.  The tree is
    reduced to the node types the analysis inspects; every other node is
    an [OtherNode] carrying its sub-nodes in visiting order.
    [path.traverse(visitor)] enters every node below [path], at any
    depth, parents before children and siblings left to right; it does
    not enter [path] itself. *)

Inductive Expression : Type :=
| Identifier (name : string)
| MemberExpression (object property : Expression)
| CallExpression (callee : Expression) (arguments : list Expression)
| ArrayExpression (elements : list Expression)
| ArrowFunctionExpression (body : Expression)
| FunctionExpression (body : Expression)
| OtherNode (children : list Expression).

(** A node followed by all nodes below it, in visiting order. *)
Fixpoint subtree (e : Expression) : list Expression :=
  e ::
  match e with
  | Identifier _ => []
  | MemberExpression object property => subtree object ++ subtree property
  | CallExpression callee arguments =>
      subtree callee ++ flat_map subtree arguments
  | ArrayExpression elements => flat_map subtree elements
  | ArrowFunctionExpression body => subtree body
  | FunctionExpression body => subtree body
  | OtherNode children => flat_map subtree children
  end.

(** The nodes [path.traverse] enters. *)
Definition traversed (path : Expression) : list Expression :=
  drop 1 (subtree path).

(** [/^set[A-Z]/.test(name)] *)
Definition isSetterName (name : string) : bool :=
  match name with
  | String "s" (String "e" (String "t" (String c _))) => Js.isUpper c
  | _ => false
  end.

(** Dependency array of an effect: identifier elements only, in order,
    duplicates kept. *)
Definition effectDependencies
    (depsArg : option Expression) (globalStateNames : list string)
    : list EffectDependency :=
  match depsArg with
  | Some (ArrayExpression elements) =>
      omap (fun el =>
              match el with
              | Identifier name =>
                  Some {| dep_name := name;
                          dep_isGlobal :=
                            existsb (String.eqb name) globalStateNames |}
              | _ => None
              end) elements
  | _ => []
  end.

(** The [CallExpression] visitor of [analyzeEffectCall]: what one call
    pushes on [setters]. *)
Definition effectSettersOfCall (node : Expression) : list string :=
  match node with
  | CallExpression innerCallee _ =>
      match innerCallee with
      | Identifier name => if isSetterName name then [name] else []
      | MemberExpression obj (Identifier prop) =>
          if ((prop =? "mutate") || (prop =? "mutateAsync"))%string then
            match obj with
            | Identifier objName => [objName +:+ "." +:+ prop]
            | _ => []
            end
          else []
      | _ => []
      end
  | _ => []
  end.

(** The [MemberExpression] visitor of [analyzeEffectCall]. *)
Definition refsOfMember (node : Expression) : list string :=
  match node with
  | MemberExpression (Identifier objName) _ =>
      if Js.endsWith objName "Ref" then [objName] else []
  | _ => []
  end.

(** The body of the callback argument, when that argument is an arrow
    function or a function expression. *)
Definition callbackBody (cbArg : option Expression) : option Expression :=
  match cbArg with
  | Some (ArrowFunctionExpression body) => Some body
  | Some (FunctionExpression body) => Some body
  | _ => None
  end.

Definition analyzeEffectCall
    (arguments : list Expression) (loc : option Loc)
    (effectId : string) (hookKind : HookKind)
    (globalStateNames : list string) : AnalyzedEffect :=
  let cbArgPath := arguments !! 0%nat in
  let depsArgPath := arguments !! 1%nat in
  let dependencies := effectDependencies depsArgPath globalStateNames in
  let visited :=
    match callbackBody cbArgPath with
    | Some bodyPathNode => traversed bodyPathNode
    | None => []
    end in
  let setters := flat_map effectSettersOfCall visited in
  let refs := flat_map refsOfMember visited in
  {| eff_id := effectId;
     eff_hookKind := hookKind;
     eff_dependencies := dependencies;
     eff_setters := Js.uniq setters;
     eff_refs := Js.uniq refs;
     eff_definedAt := loc |}.

(** The [CallExpression] visitor of [analyzeUseCallbackCall]. *)
Definition callbackSettersOfCall (node : Expression) : list string :=
  match node with
  | CallExpression (Identifier name) _ =>
      if isSetterName name then [name] else []
  | _ => []
  end.

Definition callbackDependencies (depsArg : option Expression) : list string :=
  match depsArg with
  | Some (ArrayExpression elements) =>
      omap (fun el =>
              match el with
              | Identifier name => Some name
              | _ => None
              end) elements
  | _ => []
  end.

(** [parentName]: the identifier the call is bound to when its parent is
    a [VariableDeclarator] with an identifier on the left. *)
Definition analyzeUseCallbackCall
    (arguments : list Expression) (loc : option Loc)
    (parentName : option string) (callbackId : string) : AnalyzedCallback :=
  let cbArgPath := arguments !! 0%nat in
  let depsArgPath := arguments !! 1%nat in
  let dependencies := callbackDependencies depsArgPath in
  let visited :=
    match callbackBody cbArgPath with
    | Some bodyPathNode => traversed bodyPathNode
    | None => []
    end in
  let setters := flat_map callbackSettersOfCall visited in
  {| cb_id := callbackId;
     cb_name := parentName;
     cb_dependencies := Js.uniq dependencies;
     cb_setters := Js.uniq setters;
     cb_definedAt := loc |}.

(** ** The JSX tree *)

Inductive JSXName : Type :=
| JSXIdentifier (name : string)
| JSXMemberExpression (object : JSXName) (property : string)
| JSXNamespacedName (namespace name : string).

(** An attribute of an opening element: [JSXAttribute] with its value
    ([Some name] when the value is an expression container holding the
    identifier [name]), or a spread attribute. *)
Inductive JSXAttributeItem : Type :=
| JSXAttribute (valueIdentifier : option string)
| JSXSpreadAttribute.

(** An element with the elements that are its direct children.  Markup
    in which an element sits inside an attribute value or an expression
    container of another element is outside this model. *)
Inductive JSXElement : Type :=
| JSXElem (name : JSXName) (attributes : list JSXAttributeItem)
          (loc : option Loc) (children : list JSXElement).

Definition jsxChildren (e : JSXElement) : list JSXElement :=
  match e with JSXElem _ _ _ children => children end.

(** The [while] loop of [getJsxName] over a member expression. *)
Fixpoint memberParts (current : JSXName) (parts : list string) : list string :=
  match current with
  | JSXMemberExpression object property =>
      let parts := property :: parts in
      match object with
      | JSXIdentifier name => name :: parts
      | _ => memberParts object parts
      end
  | _ => parts
  end.

(** [parts.join(".")] *)
Fixpoint joinDot (parts : list string) : string :=
  match parts with
  | [] => EmptyString
  | [p] => p
  | p :: rest => p +:+ "." +:+ joinDot rest
  end.

Definition getJsxName (name : JSXName) : string :=
  match name with
  | JSXIdentifier n => n
  | JSXMemberExpression _ _ => joinDot (memberParts name [])
  | JSXNamespacedName ns id => ns +:+ ":" +:+ id
  end.

Definition propIdentifiers (attributes : list JSXAttributeItem) : list string :=
  omap (fun attr =>
          match attr with
          | JSXAttribute (Some name) => Some name
          | _ => None
          end) attributes.

(** The fact [traverseJsx] pushes for [path] when [result] holds the
    facts pushed so far. *)
Definition jsxFact
    (path : JSXElement) (depth : Z) (result : list AnalyzedJsxNode)
    : AnalyzedJsxNode :=
  match path with
  | JSXElem name attributes loc _ =>
      {| jsx_id := "jsx-" +:+ Js.numToString (Z.of_nat (length result) + 1);
         jsx_component := getJsxName name;
         jsx_depth := depth;
         jsx_props := Js.uniq (propIdentifiers attributes);
         jsx_definedAt := loc |}
  end.

(** [path.traverse({ JSXElement(childPath) { traverseJsx(childPath,
    depth + 1) } })]: the traversal enters each element below [path];
    entering runs the visitor, that is [traverseJsx] on it, and then the
    same traversal goes on below the element it has entered. *)
Fixpoint traverseBelow
    (path : JSXElement) (depth : Z) (result : list AnalyzedJsxNode)
    {struct path} : list AnalyzedJsxNode :=
  match path with
  | JSXElem _ _ _ children =>
      (fix each (paths : list JSXElement) (result : list AnalyzedJsxNode) :=
         match paths with
         | [] => result
         | childPath :: rest =>
             let result :=
               traverseBelow childPath (depth + 1)
                 (result ++ [jsxFact childPath (depth + 1) result]) in
             let result := traverseBelow childPath depth result in
             each rest result
         end) children result
  end.

Definition traverseJsx
    (path : JSXElement) (depth : Z) (result : list AnalyzedJsxNode)
    : list AnalyzedJsxNode :=
  traverseBelow path depth (result ++ [jsxFact path depth result]).

(** [rootPath.traverse]: [roots] are the elements below [rootPath] whose
    parent is not an element; the elements nested in them are entered
    too and skipped by the guard. *)
Definition analyzeJsxTree
    (roots : list JSXElement) (result : list AnalyzedJsxNode)
    : list AnalyzedJsxNode :=
  fold_left (fun result path => traverseJsx path 0 result) roots result.

(** The elements [path.traverse] enters: every element below [path],
    in document order. *)
Fixpoint enteredBelow (path : JSXElement) : list JSXElement :=
  match path with
  | JSXElem _ _ _ children =>
      flat_map (fun childPath => childPath :: enteredBelow childPath) children
  end.

(** ** The graph model ([libs/graphModel.ts]) *)

Inductive GraphNodeKind : Type :=
| NIndependent | NState | NEffect | NVariable | NJsx | NExternal.

(** The string a [GraphNodeKind] is at run time. *)
Definition GraphNodeKind_str (k : GraphNodeKind) : string :=
  match k with
  | NIndependent => "independent"
  | NState => "state"
  | NEffect => "effect"
  | NVariable => "variable"
  | NJsx => "jsx"
  | NExternal => "external"
  end.

Inductive GraphEdgeKind : Type :=
| EFlow | EStateDependency | EStateMutation | EExternal.

(** [meta?: Record<string, unknown>]: the four shapes the assemblers
    build. *)
Inductive NodeMeta : Type :=
| MetaHook (hookKind : HookKind) (scope : StateScope)
| MetaEffect (e : AnalyzedEffect)        (* { type: "effect", ...e } *)
| MetaCallback (cb : AnalyzedCallback)   (* { type: "callback", ...cb } *)
| MetaJsx (depth : Z) (props : list string).

Record GraphNode : Type := {
  node_id : string;
  node_label : string;
  node_kind : GraphNodeKind;
  node_x : Z;
  node_y : Z;
  node_width : Z;
  node_height : Z;
  node_meta : option NodeMeta
}.

Record EdgeEndpoint : Type := {
  nodeId : string;
  ep_x : Z;
  ep_y : Z
}.

Record GraphEdge : Type := {
  edge_id : string;
  edge_from : EdgeEndpoint;
  edge_to : EdgeEndpoint;
  edge_kind : GraphEdgeKind;
  edge_label : option string
}.

Record ColX : Type := {
  independent : Z;
  state : Z;
  variable : Z;
  effect : Z;
  jsx : Z
}.

Record GraphLayout : Type := {
  nodes : list GraphNode;
  edges : list GraphEdge;
  width : Z;
  height : Z;
  colX : ColX
}.

Definition buildColumnX : ColX :=
  let base := 80 in
  let gap := 220 in
  {| independent := base;
     state := base + gap;
     variable := base + gap * 2;
     effect := base + gap * 3;
     jsx := base + gap * 4 |}.

(** The [{ id, label, meta }] items handed to [layoutColumnNodes]. *)
Record LayoutItem : Type := {
  item_id : string;
  item_label : string;
  item_meta : option NodeMeta
}.

Definition layoutColumnNodes
    (items : list LayoutItem) (kind : GraphNodeKind)
    (x startY gapY : Z) : list GraphNode :=
  imap (fun index item =>
          let y := startY + Z.of_nat index * gapY in
          {| node_id := GraphNodeKind_str kind +:+ "-" +:+ item_id item;
             node_label := item_label item;
             node_kind := kind;
             node_x := x;
             node_y := y;
             node_width := 120;
             node_height := 32;
             node_meta := item_meta item |}) items.

(** *** The parts the two assemblers share word for word *)

Definition independentItems (hooks : list AnalyzedHook) : list LayoutItem :=
  map (fun h =>
         {| item_id := hook_id h;
            item_label := hook_name h;
            item_meta := Some (MetaHook (hook_hookKind h) (hook_scope h)) |})
      (filter (fun h => HookKind_eqb (hook_hookKind h) useRef = true) hooks).

Definition isStateKind (k : HookKind) : bool :=
  existsb (HookKind_eqb k) [useState; zustand; react_query].

Definition stateItems (hooks : list AnalyzedHook) : list LayoutItem :=
  map (fun h =>
         {| item_id := hook_id h;
            item_label :=
              if StateScope_eqb (hook_scope h) global
              then hook_name h +:+ " (global)"
              else hook_name h;
            item_meta := Some (MetaHook (hook_hookKind h) (hook_scope h)) |})
      (filter (fun h => isStateKind (hook_hookKind h) = true) hooks).

Definition effectItems
    (effects : list AnalyzedEffect) (callbacks : list AnalyzedCallback)
    : list LayoutItem :=
  map (fun e =>
         {| item_id := eff_id e;
            item_label := HookKind_str (eff_hookKind e);
            item_meta := Some (MetaEffect e) |}) effects
  ++
  map (fun cb =>
         {| item_id := cb_id cb;
            item_label := default "callback" (cb_name cb);
            item_meta := Some (MetaCallback cb) |}) callbacks.

(** Start point of an edge: right side of the source node. *)
Definition fromPoint (n : GraphNode) : EdgeEndpoint :=
  {| nodeId := node_id n;
     ep_x := node_x n + node_width n / 2;
     ep_y := node_y n |}.

(** End point of an edge: left side of the destination node. *)
Definition toPoint (n : GraphNode) : EdgeEndpoint :=
  {| nodeId := node_id n;
     ep_x := node_x n - node_width n / 2;
     ep_y := node_y n |}.

Definition flowEdge (from to : GraphNode) (label : option string) : GraphEdge :=
  {| edge_id := "flow-" +:+ node_id from +:+ "-" +:+ node_id to;
     edge_from := fromPoint from;
     edge_to := toPoint to;
     edge_kind := EFlow;
     edge_label := label |}.

(** The edges [connectSequential] pushes: for each source node, the
    destination at the same index, else the last destination, else
    nothing. *)
Definition connectSequential
    (fromNodes toNodes : list GraphNode) (label : option string)
    : list GraphEdge :=
  mjoin
    (imap (fun index from =>
             let to :=
               match toNodes !! index with
               | Some n => Some n
               | None => last toNodes
               end in
             match to with
             | None => []
             | Some to => [flowEdge from to label]
             end) fromNodes).

(** The state name derived from a setter.  The regular expression of
    [setter.match] asks for the prefix [set] and a letter of [[A-Z]], and
    captures that letter with the rest of its line; the state name is
    the captured group with its first letter in lower case, or the
    setter itself without a match. *)
Definition stateNameOf (setter : string) : string :=
  match setter with
  | String "s" (String "e" (String "t" (String c rest))) =>
      if Js.isUpper c
      then String (Js.lowerChar c) (Js.dotStar rest)
      else setter
  | _ => setter
  end.

(** [stateNodes.find((n) => n.label.startsWith(name))] *)
Definition findByLabelPrefix
    (stateNodes : list GraphNode) (name : string) : option GraphNode :=
  find (fun n => Js.startsWith (node_label n) name) stateNodes.

Definition depEdge (stateNode effectNode : GraphNode) (name : string) : GraphEdge :=
  {| edge_id :=
       "dep-" +:+ node_id stateNode +:+ "-" +:+ node_id effectNode
       +:+ "-" +:+ name;
     edge_from := fromPoint stateNode;
     edge_to := toPoint effectNode;
     edge_kind := EStateDependency;
     edge_label := Some name |}.

Definition mutEdge
    (tag : string) (effectNode stateNode : GraphNode) (setter : string)
    : GraphEdge :=
  {| edge_id :=
       tag +:+ node_id effectNode +:+ "-" +:+ node_id stateNode
       +:+ "-" +:+ setter;
     edge_from := fromPoint effectNode;
     edge_to := toPoint stateNode;
     edge_kind := EStateMutation;
     edge_label := Some setter |}.

(** The [setters.forEach] loop of an effect ([tag] is ["mut-"]) or of a
    callback ([tag] is ["cb-mut-"]). *)
Definition setterEdges
    (tag : string) (stateNodes : list GraphNode) (effectNode : GraphNode)
    (setters : list string) : list GraphEdge :=
  flat_map (fun setter =>
              let stateName := stateNameOf setter in
              match findByLabelPrefix stateNodes stateName with
              | None => []
              | Some stateNode => [mutEdge tag effectNode stateNode setter]
              end) setters.

(** [effectNodes.find((n) => n.id === `effect-${id}`)] *)
Definition findEffectNode
    (effectNodes : list GraphNode) (id : string) : option GraphNode :=
  find (fun n => (node_id n =? "effect-" +:+ id)%string) effectNodes.

(** [effects.forEach]: dependency edges, then mutation edges. *)
Definition effectEdges
    (stateNodes effectNodes : list GraphNode) (effects : list AnalyzedEffect)
    : list GraphEdge :=
  flat_map (fun effect =>
              match findEffectNode effectNodes (eff_id effect) with
              | None => []
              | Some effectNode =>
                  flat_map (fun dep =>
                              match findByLabelPrefix stateNodes (dep_name dep) with
                              | None => []
                              | Some stateNode =>
                                  [depEdge stateNode effectNode (dep_name dep)]
                              end) (eff_dependencies effect)
                  ++ setterEdges "mut-" stateNodes effectNode (eff_setters effect)
              end) effects.

(** [callbacks.forEach]: mutation edges only. *)
Definition callbackEdges
    (stateNodes effectNodes : list GraphNode)
    (callbacks : list AnalyzedCallback) : list GraphEdge :=
  flat_map (fun cb =>
              match findEffectNode effectNodes (cb_id cb) with
              | None => []
              | Some cbNode =>
                  setterEdges "cb-mut-" stateNodes cbNode (cb_setters cb)
              end) callbacks.

(** [(jsxNode.meta ?? {}).props ?? []] *)
Definition metaProps (m : option NodeMeta) : list string :=
  match m with
  | Some (MetaJsx _ props) => props
  | _ => []
  end.

Definition jsxPropEdge (fromStateNode jsxNode : GraphNode) (name : string)
    : GraphEdge :=
  {| edge_id :=
       "jsx-prop-" +:+ node_id fromStateNode +:+ "-" +:+ node_id jsxNode
       +:+ "-" +:+ name;
     edge_from := fromPoint fromStateNode;
     edge_to := toPoint jsxNode;
     edge_kind := EStateDependency;
     edge_label := Some name |}.

(** [jsxNodes.forEach]: state / ref to JSX prop. *)
Definition jsxPropEdges
    (independentNodes stateNodes jsxNodes : list GraphNode) : list GraphEdge :=
  flat_map (fun jsxNode =>
              flat_map (fun name =>
                          let fromStateNode :=
                            match findByLabelPrefix stateNodes name with
                            | Some n => Some n
                            | None =>
                                find (fun n => (node_label n =? name)%string)
                                     independentNodes
                            end in
                          match fromStateNode with
                          | None => []
                          | Some fromStateNode =>
                              [jsxPropEdge fromStateNode jsxNode name]
                          end) (metaProps (node_meta jsxNode))) jsxNodes.

(** [independent → state], guarded by both lists being non-empty. *)
Definition flowEdges (independentNodes stateNodes : list GraphNode)
    : list GraphEdge :=
  if (Nat.ltb 0 (length independentNodes)
      && Nat.ltb 0 (length stateNodes))%bool
  then connectSequential independentNodes stateNodes None
  else [].

(** [jsxNodes.length ? jsxNodes[jsxNodes.length - 1].y : 600] *)
Definition lastJsxY (jsxNodes : list GraphNode) : Z :=
  match last jsxNodes with
  | Some n => node_y n
  | None => 600
  end.

Definition emptyLayout : GraphLayout :=
  let colX := buildColumnX in
  {| nodes := [];
     edges := [];
     width := jsx colX + 200;
     height := 800;
     colX := colX |}.

(** *** [buildGraphFromAnalysis] ([libs/graphModel.ts]) *)

Definition buildGraphFromAnalysis
    (analysis : option ComponentAnalysis) : GraphLayout :=
  match analysis with
  | None => emptyLayout
  | Some analysis =>
      let colX := buildColumnX in
      let independentNodes :=
        layoutColumnNodes (independentItems (hooks analysis))
          NIndependent (independent colX) 80 50 in
      let stateNodes :=
        layoutColumnNodes (stateItems (hooks analysis))
          NState (state colX) 80 40 in
      let effectNodes :=
        layoutColumnNodes (effectItems (effects analysis) (callbacks analysis))
          NEffect (effect colX) 80 40 in
      let jsxItems :=
        map (fun j =>
               {| item_id := jsx_id j;
                  item_label := jsx_component j;
                  item_meta := Some (MetaJsx (jsx_depth j) (jsx_props j)) |})
            (jsxNodes analysis) in
      let jsxNodes := layoutColumnNodes jsxItems NJsx (jsx colX) 80 32 in
      let nodes := independentNodes ++ stateNodes ++ effectNodes ++ jsxNodes in
      let edges :=
        flowEdges independentNodes stateNodes
        ++ effectEdges stateNodes effectNodes (effects analysis)
        ++ callbackEdges stateNodes effectNodes (callbacks analysis)
        ++ jsxPropEdges independentNodes stateNodes jsxNodes in
      let width := jsx colX + 200 in
      let height := lastJsxY jsxNodes + 120 in
      {| nodes := nodes;
         edges := edges;
         width := width;
         height := height;
         colX := colX |}
  end.

(** *** [buildGraphFromMappingResult] ([shared/libs/buildGraph]) *)

Module Mapping.

(** The element fact of the [Mapping] namespace: with [parentId]. *)
Record AnalyzedJsxNode : Type := {
  id : string;
  component : string;
  depth : Z;
  parentId : option string;
  props : list string;
  definedAt : option Loc
}.

Record MappingResult : Type := {
  source : string;
  fileName : option string;
  componentName : option string;
  hooks : list AnalyzedHook;
  effects : list AnalyzedEffect;
  callbacks : list AnalyzedCallback;
  jsxNodes : list AnalyzedJsxNode;
  meta : ExportInfo;
  errors : list string;
  calledVariableNames : list string
}.

End Mapping.

Record JsxLayoutItem : Type := {
  jli_id : string;
  jli_label : string;
  jli_depth : Z;
  jli_meta : option NodeMeta
}.

Definition jsxLayoutItems (jsxNodes : list Mapping.AnalyzedJsxNode)
    : list JsxLayoutItem :=
  map (fun j =>
         {| jli_id := Mapping.id j;
            jli_label := Mapping.component j;
            jli_meta := Some (MetaJsx (Mapping.depth j) (Mapping.props j));
            jli_depth := Mapping.depth j |}) jsxNodes.

(** One [forEach] step on [jsxByDepth], a [Map] in insertion order:
    the item joins the array of its depth, a new depth is added last. *)
Fixpoint groupPush
    (item : JsxLayoutItem) (jsxByDepth : list (Z * list JsxLayoutItem))
    : list (Z * list JsxLayoutItem) :=
  match jsxByDepth with
  | [] => [(jli_depth item, [item])]
  | (d, arr) :: rest =>
      if d =? jli_depth item
      then (d, arr ++ [item]) :: rest
      else (d, arr) :: groupPush item rest
  end.

Definition groupByDepth (items : list JsxLayoutItem)
    : list (Z * list JsxLayoutItem) :=
  fold_left (fun jsxByDepth item => groupPush item jsxByDepth) items [].

(** [entries.sort((a, b) => a[0] - b[0])]: a stable sort on the depth. *)
Fixpoint insertEntry
    (e : Z * list JsxLayoutItem) (sorted : list (Z * list JsxLayoutItem))
    : list (Z * list JsxLayoutItem) :=
  match sorted with
  | [] => [e]
  | h :: t =>
      if fst e <=? fst h then e :: h :: t else h :: insertEntry e t
  end.

Definition sortEntries (entries : list (Z * list JsxLayoutItem))
    : list (Z * list JsxLayoutItem) :=
  fold_right insertEntry [] entries.

Definition depthBandNodes (colX : ColX) (entry : Z * list JsxLayoutItem)
    : list GraphNode :=
  let '(depth, items) := entry in
  let jsxBaseY := 80 in
  let depthGapY := 80 in
  let intraGapY := 32 in
  imap (fun index item =>
          let y := jsxBaseY + depth * depthGapY + Z.of_nat index * intraGapY in
          {| node_id := "jsx-" +:+ jli_id item;
             node_label := jli_label item;
             node_kind := NJsx;
             node_x := jsx colX;
             node_y := y;
             node_width := 120;
             node_height := 32;
             node_meta := jli_meta item |}) items.

Definition layoutJsxByDepth (colX : ColX) (items : list JsxLayoutItem)
    : list GraphNode :=
  flat_map (depthBandNodes colX) (sortEntries (groupByDepth items)).

(** [node.id.replace] with the pattern for a leading [jsx-]. *)
Definition logicalIdOf (nodeId : string) : string :=
  match nodeId with
  | String "j" (String "s" (String "x" (String "-" rest))) => rest
  | _ => nodeId
  end.

Definition buildJsxNodeMap (jsxNodes : list GraphNode) : gmap string GraphNode :=
  fold_left (fun jsxNodeMap node => <[logicalIdOf (node_id node) := node]> jsxNodeMap)
            jsxNodes ∅.

Definition jsxTreeEdge (parentNode childNode : GraphNode) : GraphEdge :=
  {| edge_id :=
       "jsx-tree-" +:+ node_id parentNode +:+ "-" +:+ node_id childNode;
     edge_from := fromPoint parentNode;
     edge_to := toPoint childNode;
     edge_kind := EFlow;
     edge_label := None |}.

(** The parent-child edges: one per fact with a truthy [parentId] whose
    parent and own nodes are both in the map. *)
Definition jsxTreeEdges
    (jsxNodeMap : gmap string GraphNode)
    (jsxNodes : list Mapping.AnalyzedJsxNode) : list GraphEdge :=
  flat_map (fun j =>
              if Js.truthyOpt (Mapping.parentId j) then
                match Mapping.parentId j ≫= (fun p => jsxNodeMap !! p),
                      jsxNodeMap !! Mapping.id j with
                | Some parentNode, Some childNode =>
                    [jsxTreeEdge parentNode childNode]
                | _, _ => []
                end
              else []) jsxNodes.

Definition buildGraphFromMappingResult
    (mappingResult : option Mapping.MappingResult) : GraphLayout :=
  match mappingResult with
  | None => emptyLayout
  | Some mappingResult =>
      let colX := buildColumnX in
      let independentNodes :=
        layoutColumnNodes (independentItems (Mapping.hooks mappingResult))
          NIndependent (independent colX) 80 50 in
      let stateNodes :=
        layoutColumnNodes (stateItems (Mapping.hooks mappingResult))
          NState (state colX) 80 40 in
      let effectNodes :=
        layoutColumnNodes
          (effectItems (Mapping.effects mappingResult)
                       (Mapping.callbacks mappingResult))
          NEffect (effect colX) 80 40 in
      let jsxNodes :=
        layoutJsxByDepth colX
          (jsxLayoutItems (Mapping.jsxNodes mappingResult)) in
      let nodes := independentNodes ++ stateNodes ++ effectNodes ++ jsxNodes in
      let width := jsx colX + 200 in
      let height := lastJsxY jsxNodes + 120 in
      let jsxNodeMap := buildJsxNodeMap jsxNodes in
      let edges :=
        flowEdges independentNodes stateNodes
        ++ effectEdges stateNodes effectNodes (Mapping.effects mappingResult)
        ++ callbackEdges stateNodes effectNodes
             (Mapping.callbacks mappingResult)
        ++ jsxPropEdges independentNodes stateNodes jsxNodes
        ++ jsxTreeEdges jsxNodeMap (Mapping.jsxNodes mappingResult) in
      {| nodes := nodes;
         edges := edges;
         width := width;
         height := height;
         colX := colX |}
  end.

(** ** Vocabulary of the statements *)

Global Instance GraphNodeKind_eq_dec : EqDecision GraphNodeKind.
Proof. solve_decision. Defined.

Global Instance GraphEdgeKind_eq_dec : EqDecision GraphEdgeKind.
Proof. solve_decision. Defined.

(** The four node columns of an assembled layout. *)
Definition independentNodesOf (hooks : list AnalyzedHook) : list GraphNode :=
  layoutColumnNodes (independentItems hooks)
    NIndependent (independent buildColumnX) 80 50.

Definition stateNodesOf (hooks : list AnalyzedHook) : list GraphNode :=
  layoutColumnNodes (stateItems hooks) NState (state buildColumnX) 80 40.

Definition effectNodesOf
    (effects : list AnalyzedEffect) (callbacks : list AnalyzedCallback)
    : list GraphNode :=
  layoutColumnNodes (effectItems effects callbacks)
    NEffect (effect buildColumnX) 80 40.

Definition flatJsxNodesOf (jsxNodes : list AnalyzedJsxNode) : list GraphNode :=
  layoutColumnNodes
    (map (fun j =>
            {| item_id := jsx_id j;
               item_label := jsx_component j;
               item_meta := Some (MetaJsx (jsx_depth j) (jsx_props j)) |})
         jsxNodes)
    NJsx (jsx buildColumnX) 80 32.

Definition depthJsxNodesOf (jsxNodes : list Mapping.AnalyzedJsxNode)
    : list GraphNode :=
  layoutJsxByDepth buildColumnX (jsxLayoutItems jsxNodes).

(** The nodes of one kind, in the order of the layout's node list. *)
Definition nodesOfKind (k : GraphNodeKind) (g : GraphLayout) : list GraphNode :=
  filter (fun n => node_kind n = k) (nodes g).

(** The flow edges that leave the independent column. *)
Definition columnFlowEdges (g : GraphLayout) : list GraphEdge :=
  filter (fun e =>
            edge_kind e = EFlow
            ∧ nodeId (edge_from e) ∈ map node_id (nodesOfKind NIndependent g))
         (edges g).



(** Names in an export set are identifiers: none is empty. *)
Definition validExports (info : ExportInfo) : Prop :=
  (∀ d, defaultExport info = Some d → d ≠ EmptyString)
  ∧ Forall (fun n => n ≠ EmptyString) (namedExports info).

(** An extension: not empty, and without slash or dot. *)
Definition isExtension (ext : string) : Prop :=
  ext ≠ EmptyString
  ∧ ∀ c, c ∈ list_ascii_of_string ext → c ≠ "/"%char ∧ c ≠ "."%char.

(** [stem] is the file name [f] without its last extension: [f] is
    [stem], a dot and an extension, or [f] ends in no extension and
    [stem] is [f] itself. *)
Definition withoutExtension (f stem : string) : Prop :=
  (∃ ext, isExtension ext ∧ f = stem +:+ "." +:+ ext)
  ∨ (stem = f ∧ ∀ base ext, isExtension ext → f ≠ base +:+ "." +:+ ext).

(** The part of a file name after its last slash. *)
Fixpoint afterLastSlash (f : string) : string :=
  match f with
  | EmptyString => EmptyString
  | String c rest =>
      if Js.includes rest "/" then afterLastSlash rest
      else if Ascii.eqb c "/" then rest
      else f
  end.

(** The base name of a file in the usual sense: what follows the last
    slash, without its last extension. *)
Definition baseNameOf (f stem : string) : Prop :=
  withoutExtension (afterLastSlash f) stem.

(** The third preference as worded for base names: without a default
    export and with other than one named export, a named export that
    equals the base name of the supplied file is chosen. *)
Definition picksByBaseName
    (exportInfo : ExportInfo) (fileName : option string) : Prop :=
  defaultExport exportInfo = None →
  length (namedExports exportInfo) ≠ 1%nat →
  ∀ f stem,
    fileName = Some f → baseNameOf f stem →
    stem ∈ namedExports exportInfo →
    pickPrimaryComponent exportInfo fileName = Some stem.

(** The callee names of the fixed builtin categories. *)
Definition builtinHookNames : list string :=
  ["useState"; "useRef"; "useReducer"; "useEffect"; "useLayoutEffect";
   "useCallback"; "useMemo"].

(** A name with the [use] prefix and the [Store] suffix, imported from a
    package whose specifier mentions [zustand]. *)
Definition externalStoreCall (calleeName : string) (src : option string) : Prop :=
  Js.startsWith calleeName "use" = true
  ∧ Js.endsWith calleeName "Store" = true
  ∧ ∃ s, src = Some s ∧ Js.includes s "zustand" = true.

(** A call imported from a data-fetching package, whose name in lower
    case contains [mutation] or [query]. *)
Definition serverQueryCall (calleeName : string) (src : option string) : Prop :=
  (∃ s, src = Some s
        ∧ (Js.includes s "reactQuery" = true
           ∨ Js.includes s "@tanstack/react-query" = true))
  ∧ (Js.includes (Js.toLowerCase calleeName) "mutation" = true
     ∨ Js.includes (Js.toLowerCase calleeName) "query" = true).

(** Where an edge of an assembled layout comes from: the five loops of
    the assemblers, over the four node columns. *)
Inductive EdgeOrigin (ind st eff jsxN : list GraphNode) : GraphEdge → Prop :=
| FromFlow from to :
    from ∈ ind → to ∈ st →
    EdgeOrigin ind st eff jsxN (flowEdge from to None)
| FromDependency stateNode effectNode name :
    findByLabelPrefix st name = Some stateNode → effectNode ∈ eff →
    EdgeOrigin ind st eff jsxN (depEdge stateNode effectNode name)
| FromMutation tag effectNode stateNode setter :
    effectNode ∈ eff →
    findByLabelPrefix st (stateNameOf setter) = Some stateNode →
    EdgeOrigin ind st eff jsxN (mutEdge tag effectNode stateNode setter)
| FromProp fromNode jsxNode name :
    fromNode ∈ st ∨ fromNode ∈ ind → jsxNode ∈ jsxN →
    EdgeOrigin ind st eff jsxN (jsxPropEdge fromNode jsxNode name)
| FromTree parentNode childNode :
    parentNode ∈ jsxN → childNode ∈ jsxN →
    EdgeOrigin ind st eff jsxN (jsxTreeEdge parentNode childNode).

(** What the two assemblers have in common: the node list is the four
    columns in order, the edge list is the four shared loops followed by
    the parent-child edges [treeE] over the element nodes [jsxN]. *)
Definition Assembled
    (hooks : list AnalyzedHook) (effects : list AnalyzedEffect)
    (callbacks : list AnalyzedCallback)
    (jsxN : list GraphNode) (treeE : list GraphEdge) (g : GraphLayout) : Prop :=
  nodes g
  = independentNodesOf hooks ++ stateNodesOf hooks
    ++ effectNodesOf effects callbacks ++ jsxN
  ∧ edges g
    = flowEdges (independentNodesOf hooks) (stateNodesOf hooks)
      ++ effectEdges (stateNodesOf hooks) (effectNodesOf effects callbacks) effects
      ++ callbackEdges (stateNodesOf hooks) (effectNodesOf effects callbacks)
           callbacks
      ++ jsxPropEdges (independentNodesOf hooks) (stateNodesOf hooks) jsxN
      ++ treeE
  ∧ Forall (fun n => node_kind n = NJsx
                     ∧ Js.startsWith (node_id n) "jsx-" = true) jsxN
  ∧ Forall (fun e => ∃ parentNode childNode,
                       parentNode ∈ jsxN ∧ childNode ∈ jsxN
                       ∧ e = jsxTreeEdge parentNode childNode) treeE.




(** The canvas height taken from the lowest node of the whole layout:
    width is the element column plus 200, and whenever [lowest] is a
    node of the layout below which there is no other, the height is its
    [y] plus 120. *)
Definition canvasFitsLowestNode (g : GraphLayout) : Prop :=
  width g = jsx (colX g) + 200
  ∧ ∀ lowest,
      lowest ∈ nodes g →
      (∀ n, n ∈ nodes g → node_y n ≤ node_y lowest) →
      height g = node_y lowest + 120.

(** Every element fact with a parent identity has an edge from the
    parent's node to its own node, and the kind or the label of that
    edge sets it apart from every sequential flow edge of the layout. *)
Definition structuralEdgesTagged (mappingResult : Mapping.MappingResult) : Prop :=
  let g := buildGraphFromMappingResult (Some mappingResult) in
  ∀ j p,
    j ∈ Mapping.jsxNodes mappingResult → Mapping.parentId j = Some p →
    ∃ e, e ∈ edges g
         ∧ nodeId (edge_from e) = "jsx-" +:+ p
         ∧ nodeId (edge_to e) = "jsx-" +:+ Mapping.id j
         ∧ ∀ f, f ∈ columnFlowEdges g →
                edge_kind e ≠ edge_kind f ∨ edge_label e ≠ edge_label f.

(** *** Sample inputs *)

Definition sampleHook (n : Z) (name : string) (kind : HookKind) : AnalyzedHook :=
  {| hook_id := "hook-" +:+ Js.numToString n;
     hook_name := name;
     hook_hookKind := kind;
     hook_scope := scopeOfKind kind;
     hook_definedAt := None;
     hook_importSource := Some "react" |}.

Definition sampleAnalysis
    (hooks : list AnalyzedHook) (effects : list AnalyzedEffect)
    (callbacks : list AnalyzedCallback) (jsxNodes : list AnalyzedJsxNode)
    : ComponentAnalysis :=
  {| source := "export default function App() {}";
     fileName := Some "App.tsx";
     componentName := Some "App";
     hooks := hooks;
     effects := effects;
     callbacks := callbacks;
     jsxNodes := jsxNodes;
     meta := {| defaultExport := Some "App"; namedExports := [] |};
     errors := [] |}.

Definition sampleMapping
    (hooks : list AnalyzedHook) (effects : list AnalyzedEffect)
    (callbacks : list AnalyzedCallback)
    (jsxNodes : list Mapping.AnalyzedJsxNode) : Mapping.MappingResult :=
  {| Mapping.source := "export default function App() {}";
     Mapping.fileName := Some "App.tsx";
     Mapping.componentName := Some "App";
     Mapping.hooks := hooks;
     Mapping.effects := effects;
     Mapping.callbacks := callbacks;
     Mapping.jsxNodes := jsxNodes;
     Mapping.meta := {| defaultExport := Some "App"; namedExports := [] |};
     Mapping.errors := [];
     Mapping.calledVariableNames := [] |}.

Definition sampleElement
    (n : Z) (component : string) (depth : Z) (parentId : option string)
    : Mapping.AnalyzedJsxNode :=
  {| Mapping.id := "jsx-" +:+ Js.numToString n;
     Mapping.component := component;
     Mapping.depth := depth;
     Mapping.parentId := parentId;
     Mapping.props := [];
     Mapping.definedAt := None |}.

(** [<div><span><b/></span></div>] *)
Definition nestedMarkup : JSXElement :=
  JSXElem (JSXIdentifier "div") [] None
    [JSXElem (JSXIdentifier "span") [] None
       [JSXElem (JSXIdentifier "b") [] None []]].

(** The three facts the element tree of [nestedMarkup] has, with the
    parent identities of the [Mapping] namespace. *)
Definition nestedFacts : list Mapping.AnalyzedJsxNode :=
  [sampleElement 1 "div" 0 None;
   sampleElement 2 "span" 1 (Some "jsx-1");
   sampleElement 3 "b" 2 (Some "jsx-2")].

(** A fact of [analyzeReactComponent.ts] read at the type of the
    [Mapping] namespace: it has no [parentId]. *)
Definition withoutParent (j : AnalyzedJsxNode) : Mapping.AnalyzedJsxNode :=
  {| Mapping.id := jsx_id j;
     Mapping.component := jsx_component j;
     Mapping.depth := jsx_depth j;
     Mapping.parentId := None;
     Mapping.props := jsx_props j;
     Mapping.definedAt := jsx_definedAt j |}.

(** Four roots and one child of the first root. *)
Definition wideShallowFacts : list Mapping.AnalyzedJsxNode :=
  [sampleElement 1 "a" 0 None; sampleElement 2 "b" 1 (Some "jsx-1");
   sampleElement 3 "c" 0 None; sampleElement 4 "d" 0 None;
   sampleElement 5 "e" 0 None].

(** [const [count, setCount] = useState(0)] followed by
    [useEffect(() => { setCount(count + 1) }, [count, count])]. *)
Definition countHooks : list AnalyzedHook :=
  match visitVariableDeclarator ∅ "useState"
          (ArrayPattern [Some "count"; Some "setCount"]) None
          {| st_hooks := []; st_globalStateNames := [] |} with
  | Some st => st_hooks st
  | None => []
  end.

Definition repeatedDependencyEffect : AnalyzedEffect :=
  analyzeEffectCall
    [ArrowFunctionExpression
       (OtherNode
          [CallExpression (Identifier "setCount")
             [OtherNode [Identifier "count"]]]);
     ArrayExpression [Identifier "count"; Identifier "count"]]
    None "effect-1" useEffect [].

Definition repeatedDependencyAnalysis : ComponentAnalysis :=
  sampleAnalysis countHooks [repeatedDependencyEffect] [] [].




(** One ref, one state hook, a root element and its child. *)
Definition refStateMapping : Mapping.MappingResult :=
  sampleMapping
    [sampleHook 1 "boxRef" useRef; sampleHook 2 "count" useState] [] []
    [sampleElement 1 "div" 0 None; sampleElement 2 "span" 1 (Some "jsx-1")].

(** Three refs and two state hooks. *)
Definition threeRefsTwoStates : ComponentAnalysis :=
  sampleAnalysis
    [sampleHook 1 "aRef" useRef; sampleHook 2 "bRef" useRef;
     sampleHook 3 "cRef" useRef; sampleHook 4 "x" useState;
     sampleHook 5 "y" useState] [] [] [].

(** One state hook and no element. *)
Definition oneStateHook : ComponentAnalysis :=
  sampleAnalysis [sampleHook 1 "count" useState] [] [] [].

(** ** Vocabulary of the further statements *)

Global Instance HookKind_eq_dec : EqDecision HookKind.
Proof. solve_decision. Defined.

Global Instance StateScope_eq_dec : EqDecision StateScope.
Proof. solve_decision. Defined.

(** Identity and label of the nodes of one kind, in layout order. *)
Definition columnOf (k : GraphNodeKind) (g : GraphLayout) : list (string * string) :=
  map (fun n => (node_id n, node_label n)) (nodesOfKind k g).

(** The refs, the state hooks, and the effects followed by the
    callbacks, as the identity and label their nodes get. *)
Definition refColumn (hooks : list AnalyzedHook) : list (string * string) :=
  map (fun h => ("independent-" +:+ hook_id h, hook_name h))
      (filter (fun h => hook_hookKind h = useRef) hooks).

Definition stateColumn (hooks : list AnalyzedHook) : list (string * string) :=
  map (fun h =>
         ("state-" +:+ hook_id h,
          if decide (hook_scope h = global)
          then hook_name h +:+ " (global)" else hook_name h))
      (filter (fun h => hook_hookKind h ∈ [useState; zustand; react_query]) hooks).

Definition effectColumn
    (effects : list AnalyzedEffect) (callbacks : list AnalyzedCallback)
    : list (string * string) :=
  map (fun e => ("effect-" +:+ eff_id e, HookKind_str (eff_hookKind e))) effects
  ++ map (fun cb => ("effect-" +:+ cb_id cb, default "callback" (cb_name cb)))
         callbacks.

(** Every node of kind [k] sits in the column at [x], the node at index
    [i] at [y] 80 plus [i] times [gap], in a box of 120 by 32. *)
Definition columnGeometry
    (g : GraphLayout) (k : GraphNodeKind) (x gap : Z) : Prop :=
  ∀ (i : nat) n,
    nodesOfKind k g !! i = Some n →
    node_x n = x ∧ node_y n = 80 + Z.of_nat i * gap
    ∧ node_width n = 120 ∧ node_height n = 32.

(** The items of depth [d], in their order. *)
Definition bandOf (d : Z) (items : list JsxLayoutItem) : list JsxLayoutItem :=
  filter (fun item => jli_depth item = d) items.

(** The depths that occur, each once, in the order of their first
    occurrence. *)
Definition depthKeys (items : list JsxLayoutItem) : list Z :=
  fold_left
    (fun ks item =>
       if decide (jli_depth item ∈ ks) then ks else ks ++ [jli_depth item])
    items [].

(** How many of the first [k] facts have depth [d]. *)
Definition depthRank
    (facts : list Mapping.AnalyzedJsxNode) (k : nat) (d : Z) : nat :=
  length (filter (fun j => Mapping.depth j = d) (take k facts)).





(** Both end points of [e] are taken from nodes of the layout: the start
    point is the middle of the right side of the source node, the end
    point the middle of the left side of the destination node. *)
Definition anchoredEdge (g : GraphLayout) (e : GraphEdge) : Prop :=
  ∃ a b,
    a ∈ nodes g ∧ b ∈ nodes g
    ∧ nodeId (edge_from e) = node_id a
    ∧ ep_x (edge_from e) = node_x a + 60
    ∧ ep_y (edge_from e) = node_y a
    ∧ nodeId (edge_to e) = node_id b
    ∧ ep_x (edge_to e) = node_x b - 60
    ∧ ep_y (edge_to e) = node_y b.

(** Kind and label of an edge as its identity announces them. *)
Definition edgeKindByIdentity (e : GraphEdge) : Prop :=
  edge_kind e ≠ EExternal
  ∧ (edge_kind e = EFlow
     ↔ Js.startsWith (edge_id e) "flow-" = true
       ∨ Js.startsWith (edge_id e) "jsx-tree-" = true)
  ∧ (edge_kind e = EStateDependency
     ↔ Js.startsWith (edge_id e) "dep-" = true
       ∨ Js.startsWith (edge_id e) "jsx-prop-" = true)
  ∧ (edge_kind e = EStateMutation
     ↔ Js.startsWith (edge_id e) "mut-" = true
       ∨ Js.startsWith (edge_id e) "cb-mut-" = true)
  ∧ (edge_label e = None ↔ edge_kind e = EFlow).






(** The identities [prefix1], [prefix2], ... in this order. *)
Definition numbered (prefix : string) (ids : list string) : Prop :=
  ∀ (i : nat) id,
    ids !! i = Some id → id = prefix +:+ Js.numToString (Z.of_nat i + 1).

(** How often the tree walk records an element on nesting level
    [level] (0 for a root) and the elements below it: once on the levels
    0 and 1, and twice as often on each further level. *)
Fixpoint factCount (level : nat) (e : JSXElement) : nat :=
  match e with
  | JSXElem _ _ _ children =>
      2 ^ pred level
      + list_sum (map (factCount (S level)) children)
  end.

Definition jsxName (e : JSXElement) : JSXName :=
  match e with JSXElem name _ _ _ => name end.

(** The member expression [base.p1.p2...] as the parser nests it. *)
Definition memberChain (base : string) (properties : list string) : JSXName :=
  fold_left JSXMemberExpression properties (JSXIdentifier base).

(** ** The module and the body walk ([analyzeReactComponent.ts]) *)

(** A node that [bodyPath.traverse] enters and for which it has a
    visitor: a declarator with its binding, its initialiser and the
    location of the initialiser, or a call with its callee, its
    arguments, its location and, when its parent is a declarator, the
    binding of that declarator. *)
Inductive BodyNode : Type :=
| EnteredDeclarator (id : Pattern) (init : option Expression)
                    (initLoc : option Loc)
| EnteredCall (callee : Expression) (arguments : list Expression)
              (loc : option Loc) (parentId : option Pattern).

(** A block statement that is the body of a function: the nodes its
    traversal enters, in entering order, and the elements below it whose
    parent is not an element. *)
Record BlockStatement : Type := {
  entered : list BodyNode;
  outermostElements : list JSXElement
}.

(** The body of a function: a block, an expression that is itself an
    element, or another expression, given by the elements below it whose
    parent is not an element. *)
Inductive FunctionBody : Type :=
| BlockBody (block : BlockStatement)
| ElementBody (element : JSXElement)
| ExpressionBody (outermost : list JSXElement).

Inductive Initialiser : Type :=
| InitArrowFunction (body : FunctionBody)
| InitFunctionExpression (block : BlockStatement)
| InitOther.

Inductive Declaration : Type :=
| FunctionDeclaration (id : option string) (block : BlockStatement)
| VariableDeclaration (declarations : list (Pattern * Initialiser))
| OtherDeclaration.

Inductive DefaultExport : Type :=
| DefaultIdentifier (name : string)
| DefaultFunctionDeclaration (id : option string) (block : BlockStatement)
| DefaultOther.

(** The statements of [ast.program.body].  An export specifier is
    [Some name] when it is an [ExportSpecifier] whose exported name is
    the identifier [name].  Only a declaration that carries the name of
    the primary component is inspected; the module lists its own
    declarations, and a declaration of that name nested in a function
    or exported from a namespace is outside this model. *)
Inductive ModuleItem : Type :=
| ImportDeclaration (src : string) (specifiers : list string)
| ExportDefaultDeclaration (declaration : DefaultExport)
| ExportNamedDeclaration (declaration : option Declaration)
                         (specifiers : list (option string))
| ModuleDeclaration (declaration : Declaration)
| OtherStatement.

(** One step of the traversal of [collectExportedComponents]. *)
Definition visitExport (info : ExportInfo) (item : ModuleItem) : ExportInfo :=
  match item with
  | ExportDefaultDeclaration decl =>
      match decl with
      | DefaultIdentifier name =>
          {| defaultExport := Some name; namedExports := namedExports info |}
      | DefaultFunctionDeclaration (Some name) _ =>
          {| defaultExport := Some name; namedExports := namedExports info |}
      | _ => info
      end
  | ExportNamedDeclaration decl specifiers =>
      let named :=
        match decl with
        | Some (FunctionDeclaration (Some name) _) =>
            namedExports info ++ [name]
        | _ => namedExports info
        end in
      {| defaultExport := defaultExport info;
         namedExports := named ++ omap (fun spec => spec) specifiers |}
  | _ => info
  end.

Definition collectExportedComponents (ast : list ModuleItem) : ExportInfo :=
  fold_left visitExport ast {| defaultExport := None; namedExports := [] |}.

(** [map[spec.local.name] = src]; assigning a string to [__proto__]
    stores nothing. *)
Definition setImport
    (src : string) (map : gmap string string) (localName : string)
    : gmap string string :=
  if (localName =? "__proto__")%string then map else <[localName := src]> map.

Definition collectImportMap (ast : list ModuleItem) : gmap string string :=
  fold_left
    (fun map node =>
       match node with
       | ImportDeclaration src specifiers =>
           fold_left (setImport src) specifiers map
       | _ => map
       end)
    ast ∅.

(** The arrays and the set that the visitors of [analyzeComponentBody]
    write to. *)
Record WalkState : Type := {
  ws_hooks : HookState;
  ws_effects : list AnalyzedEffect;
  ws_callbacks : list AnalyzedCallback;
  ws_jsxNodes : list AnalyzedJsxNode
}.

Definition identifierName (e : Expression) : option string :=
  match e with
  | Identifier name => Some name
  | _ => None
  end.

(** The callee of an initialiser that is a call of an identifier. *)
Definition calledIdentifier (init : option Expression) : option string :=
  match init with
  | Some (CallExpression callee _) => identifierName callee
  | _ => None
  end.

Definition patternName (id : Pattern) : option string :=
  match id with
  | PIdentifier name => Some name
  | _ => None
  end.

Definition isEffectKind (hookKind : HookKind) : bool :=
  (HookKind_eqb hookKind useEffect || HookKind_eqb hookKind useLayoutEffect)%bool.

(** The [CallExpression] visitor of [inspectFunctionBody], for a call of
    the identifier [localName] that [classifyHookKind] has classified. *)
Definition visitCall
    (localName : string) (hookKind : HookKind)
    (arguments : list Expression) (loc : option Loc)
    (parentId : option Pattern) (st : WalkState) : WalkState :=
  let effects :=
    if isEffectKind hookKind then
      let effectId :=
        "effect-" +:+ Js.numToString (Z.of_nat (length (ws_effects st)) + 1) in
      ws_effects st
        ++ [analyzeEffectCall arguments loc effectId hookKind
              (st_globalStateNames (ws_hooks st))]
    else ws_effects st in
  let callbacks :=
    if HookKind_eqb hookKind useCallback then
      let callbackId :=
        "callback-"
        +:+ Js.numToString (Z.of_nat (length (ws_callbacks st)) + 1) in
      ws_callbacks st
        ++ [analyzeUseCallbackCall arguments loc
              (parentId ≫= patternName) callbackId]
    else ws_callbacks st in
  {| ws_hooks := ws_hooks st;
     ws_effects := effects;
     ws_callbacks := callbacks;
     ws_jsxNodes := ws_jsxNodes st |}.

(** The two visitors of [bodyPath.traverse].  Each reads
    [importMap[localName]] and classifies the callee; with an inherited
    value the call visitor throws ([None]) as the declarator visitor
    does. *)
Definition visitBodyNode
    (importMap : gmap string string) (st : WalkState) (node : BodyNode)
    : option WalkState :=
  match node with
  | EnteredDeclarator id init initLoc =>
      match calledIdentifier init with
      | Some localName =>
          match visitVariableDeclarator importMap localName id initLoc
                  (ws_hooks st) with
          | Some hooks =>
              Some {| ws_hooks := hooks;
                      ws_effects := ws_effects st;
                      ws_callbacks := ws_callbacks st;
                      ws_jsxNodes := ws_jsxNodes st |}
          | None => None
          end
      | None => Some st
      end
  | EnteredCall callee arguments loc parentId =>
      match identifierName callee with
      | Some localName =>
          match importLookup importMap localName with
          | InheritedValue => None
          | _ =>
              let hookKind :=
                classifyHookKind localName (importMap !! localName) in
              Some (visitCall localName hookKind arguments loc parentId st)
          end
      | None => Some st
      end
  end.

(** [bodyPath.traverse]: the nodes in entering order, until a visitor
    throws. *)
Fixpoint traverseBody
    (importMap : gmap string string) (nodes : list BodyNode) (st : WalkState)
    : option WalkState :=
  match nodes with
  | [] => Some st
  | node :: rest =>
      match visitBodyNode importMap st node with
      | Some st => traverseBody importMap rest st
      | None => None
      end
  end.

(** The elements [rootPath.traverse] enters, in document order, each
    with the answer of [path.parentPath.isJSXElement()]. *)
Definition withDescendants (root : JSXElement) : list (JSXElement * bool) :=
  (root, false) :: map (fun path => (path, true)) (enteredBelow root).

Definition enteredElements (rootPath : FunctionBody) : list (JSXElement * bool) :=
  match rootPath with
  | BlockBody block => flat_map withDescendants (outermostElements block)
  | ElementBody element => map (fun path => (path, true)) (enteredBelow element)
  | ExpressionBody outermost => flat_map withDescendants outermost
  end.

(** [analyzeJsxTree] with its guard, on the body of a function. *)
Definition analyzeJsxTreeAt
    (rootPath : FunctionBody) (result : list AnalyzedJsxNode)
    : list AnalyzedJsxNode :=
  fold_left
    (fun result (entry : JSXElement * bool) =>
       let (path, parentIsElement) := entry in
       if parentIsElement then result else traverseJsx path 0 result)
    (enteredElements rootPath) result.

Definition inspectFunctionBody
    (importMap : gmap string string) (block : BlockStatement) (st : WalkState)
    : option WalkState :=
  let st := {| ws_hooks := ws_hooks st;
               ws_effects := ws_effects st;
               ws_callbacks := ws_callbacks st;
               ws_jsxNodes := analyzeJsxTreeAt (BlockBody block) (ws_jsxNodes st) |} in
  traverseBody importMap (entered block) st.

(** [isPrimaryComponent], on the name a declaration binds. *)
Definition isPrimaryComponent
    (primaryComponentName : option string) (name : option string) : bool :=
  match primaryComponentName, name with
  | Some primary, Some name => (Js.truthy primary && (name =? primary)%string)%bool
  | _, _ => false
  end.

(** What the two visitors of [traverse(ast, ...)] do with the body they
    have found. *)
Definition inspectBody
    (importMap : gmap string string) (body : FunctionBody) (st : WalkState)
    : option WalkState :=
  match body with
  | BlockBody block => inspectFunctionBody importMap block st
  | _ =>
      Some {| ws_hooks := ws_hooks st;
              ws_effects := ws_effects st;
              ws_callbacks := ws_callbacks st;
              ws_jsxNodes := analyzeJsxTreeAt body (ws_jsxNodes st) |}
  end.

(** The [VariableDeclarator] visitor of [traverse(ast, ...)]. *)
Definition visitComponentDeclarator
    (importMap : gmap string string) (primaryComponentName : option string)
    (st : WalkState) (declarator : Pattern * Initialiser) : option WalkState :=
  match declarator with
  | (id, init) =>
      if isPrimaryComponent primaryComponentName (patternName id) then
        match init with
        | InitArrowFunction body => inspectBody importMap body st
        | InitFunctionExpression block => inspectFunctionBody importMap block st
        | InitOther => Some st
        end
      else Some st
  end.

Fixpoint visitComponentDeclarators
    (importMap : gmap string string) (primaryComponentName : option string)
    (declarations : list (Pattern * Initialiser)) (st : WalkState)
    : option WalkState :=
  match declarations with
  | [] => Some st
  | declarator :: rest =>
      match visitComponentDeclarator importMap primaryComponentName
              st declarator with
      | Some st =>
          visitComponentDeclarators importMap primaryComponentName rest st
      | None => None
      end
  end.

(** The [FunctionDeclaration] visitor of [traverse(ast, ...)]. *)
Definition visitFunctionDeclaration
    (importMap : gmap string string) (primaryComponentName : option string)
    (id : option string) (block : BlockStatement) (st : WalkState)
    : option WalkState :=
  if isPrimaryComponent primaryComponentName id
  then inspectFunctionBody importMap block st
  else Some st.

Definition visitDeclaration
    (importMap : gmap string string) (primaryComponentName : option string)
    (declaration : Declaration) (st : WalkState) : option WalkState :=
  match declaration with
  | FunctionDeclaration id block =>
      visitFunctionDeclaration importMap primaryComponentName id block st
  | VariableDeclaration declarations =>
      visitComponentDeclarators importMap primaryComponentName declarations st
  | OtherDeclaration => Some st
  end.

Definition visitModuleItem
    (importMap : gmap string string) (primaryComponentName : option string)
    (st : WalkState) (item : ModuleItem) : option WalkState :=
  match item with
  | ExportDefaultDeclaration (DefaultFunctionDeclaration id block) =>
      visitFunctionDeclaration importMap primaryComponentName id block st
  | ExportNamedDeclaration (Some declaration) _ =>
      visitDeclaration importMap primaryComponentName declaration st
  | ModuleDeclaration declaration =>
      visitDeclaration importMap primaryComponentName declaration st
  | _ => Some st
  end.

Fixpoint traverseModule
    (importMap : gmap string string) (primaryComponentName : option string)
    (ast : list ModuleItem) (st : WalkState) : option WalkState :=
  match ast with
  | [] => Some st
  | item :: rest =>
      match visitModuleItem importMap primaryComponentName st item with
      | Some st => traverseModule importMap primaryComponentName rest st
      | None => None
      end
  end.

Definition emptyWalk : WalkState :=
  {| ws_hooks := {| st_hooks := []; st_globalStateNames := [] |};
     ws_effects := [];
     ws_callbacks := [];
     ws_jsxNodes := [] |}.

Definition analyzeComponentBody
    (ast : list ModuleItem) (primaryComponentName : option string)
    (importMap : gmap string string) : option WalkState :=
  traverseModule importMap primaryComponentName ast emptyWalk.

(** The entry function, on the tree the parser has returned; [None] when
    a visitor throws. *)
Definition analyzeReactComponent
    (ast : list ModuleItem) (src : string) (file : option string)
    : option ComponentAnalysis :=
  let importMap := collectImportMap ast in
  let exportInfo := collectExportedComponents ast in
  let primaryComponentName := pickPrimaryComponent exportInfo file in
  match analyzeComponentBody ast primaryComponentName importMap with
  | Some st =>
      Some {| source := src;
              fileName := file;
              componentName := primaryComponentName;
              hooks := st_hooks (ws_hooks st);
              effects := ws_effects st;
              callbacks := ws_callbacks st;
              jsxNodes := ws_jsxNodes st;
              meta := {| defaultExport := defaultExport exportInfo;
                         namedExports := namedExports exportInfo |};
              errors := [] |}
  | None => None
  end.

(** *** Vocabulary of the statements about the collected names *)

(** The names of [xs], each once, in the order of their first
    occurrence: the first name, then the first occurrences of the other
    names among the rest. *)
Fixpoint firstOccurrences (xs : list string) : list string :=
  match xs with
  | [] => []
  | x :: rest => x :: filter (fun y => y ≠ x) (firstOccurrences rest)
  end.

(** The nodes that the traversal of the callback argument enters. *)
Definition enteredInCallback (arguments : list Expression) : list Expression :=
  match callbackBody (arguments !! 0%nat) with
  | Some bodyPathNode => traversed bodyPathNode
  | None => []
  end.

Definition jsxAttributes (e : JSXElement) : list JSXAttributeItem :=
  match e with JSXElem _ attributes _ _ => attributes end.

(** *** Vocabulary of the statements about the walk *)

(** An export declaration from which [collectExportedComponents] takes
    no name. *)
Definition recordsNoExport (item : ModuleItem) : bool :=
  match item with
  | ExportDefaultDeclaration (DefaultIdentifier _) => false
  | ExportDefaultDeclaration (DefaultFunctionDeclaration (Some _) _) => false
  | ExportNamedDeclaration (Some (FunctionDeclaration (Some _) _)) _ => false
  | ExportNamedDeclaration _ specifiers =>
      forallb (fun spec : option string =>
                 match spec with Some _ => false | None => true end)
              specifiers
  | _ => true
  end.

(** A callee that names an inherited property and that no import has
    stored in the map. *)
Definition inheritedCallee
    (importMap : gmap string string) (callee : option string) : bool :=
  match callee with
  | Some localName =>
      bool_decide (localName ∈ objectPrototypeNames)
      && bool_decide (importMap !! localName = None)
  | None => false
  end.

(** The bare identifier that a node of the walk calls, when it calls
    one: as the initialiser of a declarator, or as a call. *)
Definition bareCallee (node : BodyNode) : option string :=
  match node with
  | EnteredDeclarator _ init _ => calledIdentifier init
  | EnteredCall callee _ _ _ => identifierName callee
  end.

Definition abortsWalk (importMap : gmap string string) (node : BodyNode) : bool :=
  match node with
  | EnteredDeclarator _ init _ => inheritedCallee importMap (calledIdentifier init)
  | EnteredCall callee _ _ _ => inheritedCallee importMap (identifierName callee)
  end.

(** The blocks that [inspectFunctionBody] is called on, in order. *)
Definition blockOfBody (body : FunctionBody) : list BlockStatement :=
  match body with
  | BlockBody block => [block]
  | _ => []
  end.

Definition inspectedBlocksOfDeclaration
    (primaryComponentName : option string) (declaration : Declaration)
    : list BlockStatement :=
  match declaration with
  | FunctionDeclaration id block =>
      if isPrimaryComponent primaryComponentName id then [block] else []
  | VariableDeclaration declarations =>
      flat_map
        (fun declarator : Pattern * Initialiser =>
           if isPrimaryComponent primaryComponentName
                (patternName declarator.1)
           then match declarator.2 with
                | InitArrowFunction body => blockOfBody body
                | InitFunctionExpression block => [block]
                | InitOther => []
                end
           else [])
        declarations
  | OtherDeclaration => []
  end.

Definition inspectedBlocks
    (primaryComponentName : option string) (ast : list ModuleItem)
    : list BlockStatement :=
  flat_map
    (fun item =>
       match item with
       | ExportDefaultDeclaration (DefaultFunctionDeclaration id block) =>
           if isPrimaryComponent primaryComponentName id then [block] else []
       | ExportNamedDeclaration (Some declaration) _ =>
           inspectedBlocksOfDeclaration primaryComponentName declaration
       | ModuleDeclaration declaration =>
           inspectedBlocksOfDeclaration primaryComponentName declaration
       | _ => []
       end)
    ast.

(** The names that the declarators among [nodes] bind to a call that is
    classified as global state. *)
Definition globalNamesOf
    (importMap : gmap string string) (nodes : list BodyNode) : list string :=
  flat_map
    (fun node =>
       match node with
       | EnteredDeclarator id init _ =>
           match calledIdentifier init with
           | Some localName =>
               if StateScope_eqb
                    (scopeOfKind
                       (classifyHookKind localName (importMap !! localName)))
                    global
               then boundNames id
               else []
           | None => []
           end
       | EnteredCall _ _ _ _ => []
       end)
    nodes.

(** The sources of the import declarations that bind [localName], in
    the order of the declarations. *)
Definition importSourcesOf (localName : string) (ast : list ModuleItem)
    : list string :=
  flat_map
    (fun item =>
       match item with
       | ImportDeclaration src specifiers =>
           if bool_decide (localName ∈ specifiers) then [src] else []
       | _ => []
       end)
    ast.

(** The four fact lists carry the identities [hook-1], [hook-2], ...,
    [effect-1], ..., [callback-1], ... and [jsx-1], ... *)
Definition walkNumbered (st : WalkState) : Prop :=
  numbered "hook-" (map hook_id (st_hooks (ws_hooks st)))
  ∧ numbered "effect-" (map eff_id (ws_effects st))
  ∧ numbered "callback-" (map cb_id (ws_callbacks st))
  ∧ numbered "jsx-" (map jsx_id (ws_jsxNodes st)).

(** [const name = () => body; export default name] *)
Definition arrowComponent (name : string) (body : FunctionBody)
    : list ModuleItem :=
  [ ModuleDeclaration
      (VariableDeclaration [(PIdentifier name, InitArrowFunction body)]);
    ExportDefaultDeclaration (DefaultIdentifier name) ].

(** [imports], then [export default function App() { callee(); }] *)
Definition callingComponent (imports : list ModuleItem) (callee : string)
    : list ModuleItem :=
  imports
  ++ [ExportDefaultDeclaration
        (DefaultFunctionDeclaration (Some "App")
           {| entered := [EnteredCall (Identifier callee) [] None None];
              outermostElements := [] |})].

(** [{ return element; }] *)
Definition returnBlock (element : JSXElement) : BlockStatement :=
  {| entered := []; outermostElements := [element] |}.

(** [const [count, setCount] = useState(0)] as the traversal enters it:
    the declarator, then its initialiser. *)
Definition countDeclaration : list BodyNode :=
  [ EnteredDeclarator (ArrayPattern [Some "count"; Some "setCount"])
      (Some (CallExpression (Identifier "useState") [OtherNode []])) None;
    EnteredCall (Identifier "useState") [OtherNode []] None
      (Some (ArrayPattern [Some "count"; Some "setCount"])) ].

(** [export const Counter = () => { const [count, setCount] =
    useState(0); return <div/>; }] *)
Definition constExportedCounter : list ModuleItem :=
  [ ImportDeclaration "react" ["useState"];
    ExportNamedDeclaration
      (Some (VariableDeclaration
               [(PIdentifier "Counter",
                 InitArrowFunction
                   (BlockBody
                      {| entered := countDeclaration;
                         outermostElements :=
                           [JSXElem (JSXIdentifier "div") [] None []] |}))]))
      [] ].

(** [const user = useUserStore()] with the store imported from a
    [zustand] module, then [useEffect(() => {}, [user])]. *)
Definition storeDeclaration : BodyNode :=
  EnteredDeclarator (PIdentifier "user")
    (Some (CallExpression (Identifier "useUserStore") [])) None.

Definition storeImports : gmap string string :=
  <["useUserStore" := "zustand/store"]> ∅.

(** ** Primary component selection: proofs *)

Lemma truthy_nonempty (s : string) : s ≠ EmptyString → Js.truthy s = true.
Proof. destruct s; [congruence | reflexivity]. Qed.

Lemma find_eqb_elem (base : string) (names : list string) :
  base ∈ names → find (fun name => (name =? base)%string) names = Some base.
Proof.
  induction names as [|n names IH]; intros Hin.
  - by apply elem_of_nil in Hin.
  - simpl. destruct (String.eqb_spec n base) as [->|Hne]; [done|].
    apply elem_of_cons in Hin as [->|Hin]; [done | auto].
Qed.

Lemma find_eqb_not_elem (base : string) (names : list string) :
  base ∉ names → find (fun name => (name =? base)%string) names = None.
Proof.
  induction names as [|n names IH]; intros Hnin; [done|].
  simpl. destruct (String.eqb_spec n base) as [->|Hne].
  - exfalso. apply Hnin. left.
  - apply IH. intros Hin. apply Hnin. by right.
Qed.

Lemma allChars_app (p : ascii → bool) (s t : string) :
  Js.allChars p (s +:+ t) = (Js.allChars p s && Js.allChars p t)%bool.
Proof.
  induction s as [|c s IH]; simpl; [done|].
  rewrite IH. by rewrite andb_assoc.
Qed.

(** A final extension is cut off, whatever precedes it. *)
Lemma stripExtension_ext (base ext : string) :
  ext ≠ EmptyString → Js.allChars extChar ext = true →
  stripExtension (base +:+ "." +:+ ext) = base.
Proof.
  intros Hne Hext. induction base as [|c base IH].
  - destruct ext as [|e ext]; [done|]. simpl in *. by rewrite Hext.
  - assert (Hall : Js.allChars extChar (base +:+ "." +:+ ext) = false).
    { rewrite allChars_app. simpl. apply andb_false_r. }
    simpl in *. by rewrite Hall, andb_false_r, IH.
Qed.

Lemma isExtension_allChars (ext : string) :
  (∀ c, c ∈ list_ascii_of_string ext → c ≠ "/"%char ∧ c ≠ "."%char)
  ↔ Js.allChars extChar ext = true.
Proof.
  induction ext as [|a ext IH]; simpl.
  - split; [done|]. intros _ c Hc. by apply elem_of_nil in Hc.
  - rewrite andb_true_iff, <- IH. unfold extChar.
    rewrite negb_true_iff, orb_false_iff, !Ascii.eqb_neq. split.
    + intros H. split; [apply H; left|]. intros c Hc. apply H. by right.
    + intros [Ha H] c Hc. apply elem_of_cons in Hc as [->|Hc]; auto.
Qed.

(** A name that ends in no extension is kept. *)
Lemma stripExtension_keeps (f : string) :
  (∀ base ext,
     ext ≠ EmptyString → Js.allChars extChar ext = true →
     f ≠ base +:+ "." +:+ ext) →
  stripExtension f = f.
Proof.
  induction f as [|c rest IH]; intros Hnone; simpl; [done|].
  destruct (Ascii.eqb c "." && negb (rest =? EmptyString)%string
            && Js.allChars extChar rest)%bool eqn:Hcut.
  - exfalso. apply andb_prop in Hcut as [Hcut Hall].
    apply andb_prop in Hcut as [Hdot Hne].
    apply Ascii.eqb_eq in Hdot as ->.
    apply (Hnone EmptyString rest); [|done..].
    intros ->. done.
  - f_equal. apply IH. intros base ext Hne Hall ->.
    by apply (Hnone (String c base) ext).
Qed.

(** What [fileName.replace] leaves is the file name without its last
    extension. *)
Lemma stripExtension_withoutExtension (f stem : string) :
  withoutExtension f stem → stripExtension f = stem.
Proof.
  intros [(ext & [Hne Hchars] & ->)|[-> Hnone]].
  - apply stripExtension_ext; [done|]. by apply isExtension_allChars.
  - apply stripExtension_keeps. intros base ext Hne Hall.
    apply Hnone. split; [done|]. by apply isExtension_allChars.
Qed.

(** C4, as stated, fails: for the file [src/Card.tsx], whose base name
    is [Card], and the named exports [Header] and [Card], the selector
    returns [Header]. *)
Lemma directory_part_defeats_base_name :
  ¬ picksByBaseName
      {| defaultExport := None; namedExports := ["Header"; "Card"] |}
      (Some "src/Card.tsx").
Proof.
  intros Hclaim.
  assert (Hpick : pickPrimaryComponent
                    {| defaultExport := None;
                       namedExports := ["Header"; "Card"] |}
                    (Some "src/Card.tsx") = Some "Card").
  { apply (Hclaim eq_refl) with "src/Card.tsx".
    - simpl. lia.
    - reflexivity.
    - left. exists "tsx". split; [|reflexivity]. split; [discriminate|].
      intros c Hc. simpl in Hc.
      repeat (apply elem_of_cons in Hc as [->|Hc]; [split; discriminate|]).
      by apply elem_of_nil in Hc.
    - simpl. apply elem_of_cons. right. apply elem_of_cons. by left. }
  vm_compute in Hpick. discriminate Hpick.
Qed.

(** C4, amended: the primary component selector returns the default
    export when there is one; else the sole named export when there is
    exactly one; else, with a file name, the named export that equals
    the supplied file name without its last extension, the part of the
    name before that extension being kept whole, directories included,
    when there is such an export; else the first named export; else
    nothing.  A file name whose part before the extension holds a slash
    therefore selects the first named export whenever no export name
    holds a slash. *)
Theorem pickPrimaryComponent_preference
    (exportInfo : ExportInfo) (fileName : option string) :
  validExports exportInfo →
  let named := namedExports exportInfo in
  let picked := pickPrimaryComponent exportInfo fileName in
  (∀ d, defaultExport exportInfo = Some d → picked = Some d)
  ∧ (defaultExport exportInfo = None →
     ∀ sole, named = [sole] → picked = Some sole)
  ∧ (defaultExport exportInfo = None → length named ≠ 1%nat →
     ∀ f stem, fileName = Some f → withoutExtension f stem → stem ∈ named →
               picked = Some stem)
  ∧ (defaultExport exportInfo = None → length named ≠ 1%nat →
     (fileName = None
      ∨ ∃ f stem, fileName = Some f ∧ withoutExtension f stem ∧ stem ∉ named) →
     picked = head named)
  ∧ (defaultExport exportInfo = None → length named ≠ 1%nat →
     ∀ f stem, fileName = Some f → withoutExtension f stem →
               Js.includes stem "/" = true →
               Forall (fun n => Js.includes n "/" = false) named →
               picked = head named).
Proof.
  intros [Hdef Hnamed] named picked. subst named picked.
  assert (Hmiss : defaultExport exportInfo = None →
                  length (namedExports exportInfo) ≠ 1%nat →
                  (fileName = None
                   ∨ ∃ f stem, fileName = Some f ∧ withoutExtension f stem
                               ∧ stem ∉ namedExports exportInfo) →
                  pickPrimaryComponent exportInfo fileName
                  = head (namedExports exportInfo)).
  { intros Hd Hlen Hfile. unfold pickPrimaryComponent. rewrite Hd. simpl.
    apply Nat.eqb_neq in Hlen. rewrite Hlen.
    rewrite head_lookup.
    destruct Hfile as [->|(f & stem & -> & Hstem & Hnin)]; [done|].
    destruct (Js.truthy f); [|done].
    rewrite (stripExtension_withoutExtension f stem Hstem).
    by rewrite (find_eqb_not_elem _ _ Hnin). }
  split_and!.
  - intros d Hd. unfold pickPrimaryComponent. rewrite Hd. simpl.
    by rewrite truthy_nonempty; [|eauto].
  - intros Hd sole Hsole. unfold pickPrimaryComponent.
    rewrite Hd, Hsole. reflexivity.
  - intros Hd Hlen f stem Hf Hstem Hin. unfold pickPrimaryComponent.
    rewrite Hd. simpl.
    apply Nat.eqb_neq in Hlen. rewrite Hlen. subst fileName.
    assert (Hbase : stem ≠ EmptyString).
    { rewrite Forall_forall in Hnamed. by apply Hnamed. }
    pose proof (stripExtension_withoutExtension f stem Hstem) as Hstrip.
    destruct (Js.truthy f) eqn:Hf.
    + rewrite Hstrip, (find_eqb_elem _ _ Hin). simpl.
      by rewrite truthy_nonempty.
    + destruct f; [|discriminate]. simpl in Hstrip. congruence.
  - exact Hmiss.
  - intros Hd Hlen f stem Hf Hstem Hslash Hnames.
    apply (Hmiss Hd Hlen). right. exists f, stem. split_and!; try done.
    intros Hin. rewrite Forall_forall in Hnames.
    rewrite (Hnames stem Hin) in Hslash. discriminate.
Qed.

Lemma pickPrimaryComponent_preference_witness :
  let info := {| defaultExport := None; namedExports := ["Header"; "Card"] |} in
  validExports info
  ∧ pickPrimaryComponent info (Some "Card.tsx") = Some "Card"
  ∧ pickPrimaryComponent info (Some "Card.test.tsx") = Some "Header"
  ∧ pickPrimaryComponent info (Some "src/Card.tsx") = Some "Header".
Proof.
  set (info := {| defaultExport := None; namedExports := ["Header"; "Card"] |}).
  assert (Hvalid : validExports info).
  { split; [intros d Hd; discriminate|].
    repeat constructor; discriminate. }
  assert (Hext : isExtension "tsx").
  { split; [discriminate|]. intros c Hc. simpl in Hc.
    repeat (apply elem_of_cons in Hc as [->|Hc]; [split; discriminate|]).
    by apply elem_of_nil in Hc. }
  assert (Hlen : length (namedExports info) ≠ 1%nat) by (simpl; lia).
  split; [exact Hvalid|].
  destruct (pickPrimaryComponent_preference info (Some "Card.tsx") Hvalid)
    as (_ & _ & Hmatch & _).
  destruct (pickPrimaryComponent_preference info (Some "Card.test.tsx") Hvalid)
    as (_ & _ & _ & Hfirst & _).
  destruct (pickPrimaryComponent_preference info (Some "src/Card.tsx") Hvalid)
    as (_ & _ & _ & _ & Hslash).
  split_and!.
  - apply (Hmatch eq_refl Hlen "Card.tsx" "Card" eq_refl).
    + left. by exists "tsx".
    + simpl. apply elem_of_cons. right. apply elem_of_cons. by left.
  - apply (Hfirst eq_refl Hlen).
    right. exists "Card.test.tsx", "Card.test". split; [reflexivity|].
    split; [left; by exists "tsx"|]. simpl. intros Hin.
    repeat (apply elem_of_cons in Hin as [Hin|Hin]; [discriminate|]).
    by apply elem_of_nil in Hin.
  - apply (Hslash eq_refl Hlen "src/Card.tsx" "src/Card" eq_refl).
    + left. by exists "tsx".
    + reflexivity.
    + repeat constructor.
Defined.

(** ** Hook classification: proofs *)

Lemma classifyHookKind_not_builtin (calleeName : string) (src : option string) :
  calleeName ∉ builtinHookNames →
  classifyHookKind calleeName src =
    if (Js.startsWith calleeName "use"
        && Js.endsWith calleeName "Store"
        && match src with
           | Some s => Js.truthy s && Js.includes s "zustand"
           | None => false
           end)%bool
    then zustand
    else
      match src with
      | Some s =>
          if (Js.truthy s
              && (Js.includes s "reactQuery"
                  || Js.includes s "@tanstack/react-query"))%bool
          then
            if Js.includes (Js.toLowerCase calleeName) "mutation"
            then react_query
            else if Js.includes (Js.toLowerCase calleeName) "query"
                 then react_query else custom
          else custom
      | None => custom
      end.
Proof.
  intros Hnot. unfold classifyHookKind.
  repeat match goal with
  | |- context [(calleeName =? ?lit)%string] =>
      destruct (String.eqb_spec calleeName lit) as [Heq|_];
      [exfalso; apply Hnot; rewrite Heq; unfold builtinHookNames;
       repeat (first [by left | right]) |]
  end.
  reflexivity.
Qed.

Lemma includes_truthy (s p : string) :
  p ≠ EmptyString → Js.includes s p = true → Js.truthy s = true.
Proof.
  intros Hp Hinc. destruct s; [|reflexivity].
  destruct p; [congruence | discriminate].
Qed.

Lemma externalStoreCall_test (calleeName : string) (src : option string) :
  (Js.startsWith calleeName "use"
   && Js.endsWith calleeName "Store"
   && match src with
      | Some s => Js.truthy s && Js.includes s "zustand"
      | None => false
      end)%bool = true
  ↔ externalStoreCall calleeName src.
Proof.
  unfold externalStoreCall. split.
  - intros H. apply andb_prop in H as [H Hsrc]. apply andb_prop in H as [Hp Hs].
    destruct src as [s|]; [|discriminate].
    apply andb_prop in Hsrc as [_ Hinc]. eauto.
  - intros (Hp & Hs & s & -> & Hinc).
    rewrite Hp, Hs, Hinc. simpl.
    by rewrite (includes_truthy s "zustand").
Qed.

Local Abbreviation queryBranch calleeName src :=
  (match src with
   | Some s =>
       if (Js.truthy s
           && (Js.includes s "reactQuery"
               || Js.includes s "@tanstack/react-query"))%bool
       then
         if Js.includes (Js.toLowerCase calleeName) "mutation"
         then react_query
         else if Js.includes (Js.toLowerCase calleeName) "query"
              then react_query else custom
       else custom
   | None => custom
   end).

Lemma serverQueryCall_yes (calleeName : string) (src : option string) :
  serverQueryCall calleeName src → queryBranch calleeName src = react_query.
Proof.
  intros ((s & -> & Hpkg) & Hname).
  assert (Js.truthy s = true) as ->.
  { destruct Hpkg as [H|H]; eapply includes_truthy; try exact H; done. }
  assert ((Js.includes s "reactQuery"
           || Js.includes s "@tanstack/react-query")%bool = true) as ->.
  { apply orb_true_iff. tauto. }
  simpl. destruct Hname as [->| ->]; [done|].
  by destruct (Js.includes _ "mutation").
Qed.

Lemma serverQueryCall_no (calleeName : string) (src : option string) :
  ¬ serverQueryCall calleeName src → queryBranch calleeName src = custom.
Proof.
  intros Hnot. unfold serverQueryCall in Hnot.
  destruct src as [s|]; [|done].
  destruct (Js.truthy s && _)%bool eqn:Hpkg; [|done].
  apply andb_prop in Hpkg as [_ Hpkg]. apply orb_true_iff in Hpkg.
  destruct (Js.includes _ "mutation") eqn:Hm.
  { exfalso. apply Hnot. eauto. }
  destruct (Js.includes _ "query") eqn:Hq; [|done].
  exfalso. apply Hnot. eauto.
Qed.

Lemma scopeOfKind_global (k : HookKind) :
  scopeOfKind k = global ↔ k = zustand ∨ k = react_query.
Proof.
  destruct k; unfold scopeOfKind; simpl; split; intros H;
    try discriminate; try tauto; destruct H; discriminate.
Qed.

Lemma scopeOfKind_local (k : HookKind) :
  scopeOfKind k = local ↔ ¬ (k = zustand ∨ k = react_query).
Proof.
  destruct k; unfold scopeOfKind; simpl; split; intros H;
    try discriminate; try tauto; try (intros [?|?]; discriminate);
    exfalso; apply H; tauto.
Qed.

(** The hooks a declarator adds: one per bound name, in order, all of
    the same kind and scope. *)
Lemma fold_pushHook_hooks
    (k : HookKind) (sc : StateScope) (loc : option Loc) (src : option string)
    (names : list string) (st : HookState) :
  ∃ new,
    st_hooks (fold_left (pushHook k sc loc src) names st) = st_hooks st ++ new
    ∧ map hook_name new = names
    ∧ Forall (fun h => hook_hookKind h = k ∧ hook_scope h = sc) new.
Proof.
  revert st. induction names as [|name names IH]; intros st.
  - exists []. simpl. by rewrite app_nil_r.
  - simpl. destruct (IH (pushHook k sc loc src st name)) as (new & Heq & Hn & Hall).
    rewrite Heq. simpl. rewrite <- app_assoc. simpl.
    eexists (_ :: new). split; [reflexivity|]. simpl.
    split; [by rewrite Hn|]. by constructor.
Qed.

(** The declarator visitor records hooks unless the import map reads
    the callee as an inherited value; then it throws. *)
Lemma visitVariableDeclarator_Some
    (importMap : gmap string string) (localName : string) (id : Pattern)
    (loc : option Loc) (st : HookState) :
  importLookup importMap localName ≠ InheritedValue →
  visitVariableDeclarator importMap localName id loc st
  = Some (fold_left
            (pushHook (classifyHookKind localName (importMap !! localName))
               (scopeOfKind
                  (classifyHookKind localName (importMap !! localName)))
               loc (importMap !! localName))
            (boundNames id) st).
Proof.
  intros Hlook. unfold visitVariableDeclarator.
  by destruct (importLookup importMap localName).
Qed.

Lemma visitVariableDeclarator_None
    (importMap : gmap string string) (localName : string) (id : Pattern)
    (loc : option Loc) (st : HookState) :
  visitVariableDeclarator importMap localName id loc st = None
  ↔ importLookup importMap localName = InheritedValue.
Proof.
  unfold visitVariableDeclarator.
  by destruct (importLookup importMap localName).
Qed.

(** C5: the hook classifier matches the builtin names exactly and first;
    failing that a [use...Store] name imported from the external-store
    package is an external-store hook; failing that a call imported from
    a data-fetching package whose lower-cased name contains [mutation]
    or [query] is a server-query hook; anything else is unclassified.
    The hooks recorded for a declarator have scope global when their
    kind is external-store or server-query, and scope local otherwise;
    the declarator visitor records them for every callee that the
    import map does not read as an inherited value, and throws without
    recording a hook for a callee that it does. *)
Theorem classifyHookKind_categories
    (calleeName : string) (importSource : option string) :
  let kind := classifyHookKind calleeName importSource in
  (calleeName ∈ builtinHookNames → HookKind_str kind = calleeName)
  ∧ (calleeName ∉ builtinHookNames →
     externalStoreCall calleeName importSource → kind = zustand)
  ∧ (calleeName ∉ builtinHookNames →
     ¬ externalStoreCall calleeName importSource →
     serverQueryCall calleeName importSource → kind = react_query)
  ∧ (calleeName ∉ builtinHookNames →
     ¬ externalStoreCall calleeName importSource →
     ¬ serverQueryCall calleeName importSource → kind = custom)
  ∧ (∀ (importMap : gmap string string) id loc st,
       importLookup importMap calleeName ≠ InheritedValue →
       ∃ st' new,
         visitVariableDeclarator importMap calleeName id loc st = Some st'
         ∧ st_hooks st' = st_hooks st ++ new
         ∧ map hook_name new = boundNames id
         ∧ Forall (fun h =>
                     hook_hookKind h
                     = classifyHookKind calleeName (importMap !! calleeName)
                     ∧ (hook_scope h = global
                        ↔ hook_hookKind h = zustand
                          ∨ hook_hookKind h = react_query)
                     ∧ (hook_scope h = local
                        ↔ ¬ (hook_hookKind h = zustand
                             ∨ hook_hookKind h = react_query))) new)
  ∧ (∀ (importMap : gmap string string) id loc st,
       importLookup importMap calleeName = InheritedValue →
       visitVariableDeclarator importMap calleeName id loc st = None).
Proof.
  intros kind. subst kind. split_and!.
  - unfold builtinHookNames. intros Hin.
    repeat (apply elem_of_cons in Hin as [->|Hin]; [reflexivity|]).
    by apply elem_of_nil in Hin.
  - intros Hnb Hext. rewrite (classifyHookKind_not_builtin _ _ Hnb).
    apply externalStoreCall_test in Hext. by rewrite Hext.
  - intros Hnb Hext Hsq. rewrite (classifyHookKind_not_builtin _ _ Hnb).
    destruct (_ && _ && _)%bool eqn:Htest.
    { exfalso. by apply Hext, externalStoreCall_test. }
    by apply serverQueryCall_yes.
  - intros Hnb Hext Hsq. rewrite (classifyHookKind_not_builtin _ _ Hnb).
    destruct (_ && _ && _)%bool eqn:Htest.
    { exfalso. by apply Hext, externalStoreCall_test. }
    by apply serverQueryCall_no.
  - intros importMap id loc st Hlook.
    rewrite (visitVariableDeclarator_Some _ _ _ _ _ Hlook).
    destruct (fold_pushHook_hooks
                (classifyHookKind calleeName (importMap !! calleeName))
                (scopeOfKind (classifyHookKind calleeName (importMap !! calleeName)))
                loc (importMap !! calleeName) (boundNames id) st)
      as (new & Heq & Hnames & Hall).
    eexists _, new. split; [reflexivity|].
    split; [exact Heq|]. split; [exact Hnames|].
    eapply Forall_impl; [exact Hall|].
    intros h [Hk Hs]. split; [exact Hk|].
    rewrite Hs, Hk. split; [apply scopeOfKind_global | apply scopeOfKind_local].
  - intros importMap id loc st Hlook. by apply visitVariableDeclarator_None.
Qed.

(** Membership goals over explicit lists of string literals. *)
Ltac not_in_literals :=
  let Hin := fresh "Hin" in
  intros Hin;
  repeat (apply elem_of_cons in Hin as [Hin|Hin]; [discriminate|]);
  by apply elem_of_nil in Hin.

Lemma classifyHookKind_categories_witness :
  (("useBearStore" ∉ builtinHookNames)
   ∧ externalStoreCall "useBearStore" (Some "zustand")
   ∧ classifyHookKind "useBearStore" (Some "zustand") = zustand)
  ∧ (("useUserQuery" ∉ builtinHookNames)
     ∧ ¬ externalStoreCall "useUserQuery" (Some "@tanstack/react-query")
     ∧ serverQueryCall "useUserQuery" (Some "@tanstack/react-query")
     ∧ classifyHookKind "useUserQuery" (Some "@tanstack/react-query")
       = react_query)
  ∧ (("useRef" ∈ builtinHookNames)
     ∧ HookKind_str (classifyHookKind "useRef" None) = "useRef")
  ∧ (∃ st' new,
       visitVariableDeclarator storeImports "useUserStore"
         (PIdentifier "user") None
         {| st_hooks := []; st_globalStateNames := [] |} = Some st'
       ∧ st_hooks st' = new
       ∧ map hook_name new = ["user"]
       ∧ Forall (fun h => hook_scope h = global) new)
  ∧ visitVariableDeclarator storeImports "toString"
      (PIdentifier "text") None
      {| st_hooks := []; st_globalStateNames := [] |} = None.
Proof.
  assert (H1 : "useBearStore" ∉ builtinHookNames) by not_in_literals.
  assert (H2 : externalStoreCall "useBearStore" (Some "zustand")).
  { repeat split. exists "zustand". by split. }
  assert (H3 : "useUserQuery" ∉ builtinHookNames) by not_in_literals.
  assert (H4 : ¬ externalStoreCall "useUserQuery" (Some "@tanstack/react-query")).
  { intros (_ & Hsuffix & _). discriminate. }
  assert (H5 : serverQueryCall "useUserQuery" (Some "@tanstack/react-query")).
  { split; [exists "@tanstack/react-query"; split; [done | by right] | by right]. }
  assert (H6 : "useRef" ∈ builtinHookNames).
  { unfold builtinHookNames. apply elem_of_cons. right. apply elem_of_cons. by left. }
  split; [|split; [|split; [|split]]].
  - split; [exact H1|]. split; [exact H2|].
    exact (proj1 (proj2 (classifyHookKind_categories _ _)) H1 H2).
  - split; [exact H3|]. split; [exact H4|]. split; [exact H5|].
    exact (proj1 (proj2 (proj2 (classifyHookKind_categories _ _))) H3 H4 H5).
  - split; [exact H6|].
    exact (proj1 (classifyHookKind_categories "useRef" None) H6).
  - destruct (classifyHookKind_categories "useUserStore" (Some "zustand/store"))
      as (_ & _ & _ & _ & Hrecorded & _).
    destruct (Hrecorded storeImports (PIdentifier "user") None
                {| st_hooks := []; st_globalStateNames := [] |})
      as (st' & new & Hvisit & Hhooks & Hnames & Hall).
    { intros Hlook. vm_compute in Hlook. discriminate Hlook. }
    exists st', new. split; [exact Hvisit|]. split; [exact Hhooks|].
    split; [exact Hnames|].
    eapply Forall_impl; [exact Hall|].
    intros h (Hkind & Hglobal & _). apply Hglobal. left.
    rewrite Hkind. reflexivity.
  - destruct (classifyHookKind_categories "toString" None)
      as (_ & _ & _ & _ & _ & Hthrows).
    apply Hthrows. reflexivity.
Defined.

(** ** Lists: membership, first match, filtering *)

Section ListFacts.
Context {A B : Type}.

Lemma elem_of_flat_map (f : A → list B) (l : list A) (y : B) :
  y ∈ flat_map f l ↔ ∃ x, x ∈ l ∧ y ∈ f x.
Proof.
  rewrite list_elem_of_In, in_flat_map. split.
  - intros (x & Hx & Hy). exists x. by rewrite !list_elem_of_In.
  - intros (x & Hx & Hy). exists x. by rewrite <- !list_elem_of_In.
Qed.

Lemma find_Some_elem (p : A → bool) (l : list A) (x : A) :
  find p l = Some x → x ∈ l ∧ p x = true.
Proof. intros H. apply find_some in H. by rewrite list_elem_of_In. Qed.




Lemma filter_all (P : A → Prop) `{!∀ x, Decision (P x)} (l : list A) :
  Forall P l → filter P l = l.
Proof.
  induction 1 as [|x l Hx _ IH]; [done|].
  rewrite filter_cons_True by done. by rewrite IH.
Qed.

Lemma filter_none (P : A → Prop) `{!∀ x, Decision (P x)} (l : list A) :
  Forall (fun x => ¬ P x) l → filter P l = [].
Proof.
  induction 1 as [|x l Hx _ IH]; [done|].
  by rewrite filter_cons_False.
Qed.

End ListFacts.

Lemma startsWith_app (p s : string) : Js.startsWith (p +:+ s) p = true.
Proof.
  unfold Js.startsWith. induction p as [|c p IH]; simpl.
  - by destruct s.
  - by destruct (ascii_dec c c).
Qed.

(** ** Column layout *)

Lemma elem_of_layoutColumnNodes
    (items : list LayoutItem) (kind : GraphNodeKind) (x startY gapY : Z)
    (n : GraphNode) :
  n ∈ layoutColumnNodes items kind x startY gapY
  ↔ ∃ (i : nat) item,
      items !! i = Some item
      ∧ n = {| node_id := GraphNodeKind_str kind +:+ "-" +:+ item_id item;
               node_label := item_label item;
               node_kind := kind;
               node_x := x;
               node_y := startY + Z.of_nat i * gapY;
               node_width := 120;
               node_height := 32;
               node_meta := item_meta item |}.
Proof.
  unfold layoutColumnNodes. rewrite elem_of_lookup_imap.
  split; intros (i & item & H1 & H2); exists i, item; done.
Qed.

Lemma layoutColumnNodes_kind
    (items : list LayoutItem) (kind : GraphNodeKind) (x startY gapY : Z) :
  Forall (fun n => node_kind n = kind)
         (layoutColumnNodes items kind x startY gapY).
Proof.
  apply Forall_forall. intros n Hn.
  apply elem_of_layoutColumnNodes in Hn as (i & item & _ & ->). done.
Qed.

Lemma layoutColumnNodes_lookup
    (items : list LayoutItem) (kind : GraphNodeKind) (x startY gapY : Z)
    (i : nat) (n : GraphNode) :
  layoutColumnNodes items kind x startY gapY !! i = Some n →
  node_y n = startY + Z.of_nat i * gapY ∧ node_kind n = kind.
Proof.
  unfold layoutColumnNodes. rewrite list_lookup_imap_Some.
  by intros (item & _ & ->).
Qed.

(** ** Sequential connection *)



Lemma elem_of_connectSequential
    (fromNodes toNodes : list GraphNode) (label : option string) (e : GraphEdge) :
  e ∈ connectSequential fromNodes toNodes label →
  ∃ from to, from ∈ fromNodes ∧ to ∈ toNodes ∧ e = flowEdge from to label.
Proof.
  unfold connectSequential. rewrite list_elem_of_join.
  intros (l & He & Hl).
  apply elem_of_lookup_imap in Hl as (i & from & -> & Hfrom).
  destruct (toNodes !! i) as [to|] eqn:Hi.
  - apply list_elem_of_singleton in He as ->.
    exists from, to. split_and!; [|  |done].
    + by eapply list_elem_of_lookup_2.
    + by eapply list_elem_of_lookup_2.
  - destruct (last toNodes) as [to|] eqn:Hlast; [|by apply elem_of_nil in He].
    apply list_elem_of_singleton in He as ->.
    exists from, to. split_and!; [| |done].
    + by eapply list_elem_of_lookup_2.
    + rewrite last_lookup in Hlast. by eapply list_elem_of_lookup_2.
Qed.

(** ** The edge loops, one by one *)

Lemma elem_of_flowEdges (ind st : list GraphNode) (e : GraphEdge) :
  e ∈ flowEdges ind st →
  ∃ from to, from ∈ ind ∧ to ∈ st ∧ e = flowEdge from to None.
Proof.
  unfold flowEdges. destruct (_ && _)%bool.
  - apply elem_of_connectSequential.
  - intros H. by apply elem_of_nil in H.
Qed.

Lemma elem_of_setterEdges
    (tag : string) (st : list GraphNode) (effectNode : GraphNode)
    (setters : list string) (e : GraphEdge) :
  e ∈ setterEdges tag st effectNode setters
  ↔ ∃ setter stateNode,
      setter ∈ setters
      ∧ findByLabelPrefix st (stateNameOf setter) = Some stateNode
      ∧ e = mutEdge tag effectNode stateNode setter.
Proof.
  unfold setterEdges. rewrite elem_of_flat_map. split.
  - intros (setter & Hin & He).
    destruct (findByLabelPrefix st (stateNameOf setter)) as [sn|] eqn:Hf;
      [|by apply elem_of_nil in He].
    apply list_elem_of_singleton in He. eauto.
  - intros (setter & sn & Hin & Hf & ->). exists setter.
    rewrite Hf. split; [done | by apply list_elem_of_singleton].
Qed.

Lemma elem_of_effectEdges
    (st eff : list GraphNode) (effects : list AnalyzedEffect) (e : GraphEdge) :
  e ∈ effectEdges st eff effects
  ↔ ∃ effect effectNode,
      effect ∈ effects
      ∧ findEffectNode eff (eff_id effect) = Some effectNode
      ∧ ((∃ dep stateNode,
            dep ∈ eff_dependencies effect
            ∧ findByLabelPrefix st (dep_name dep) = Some stateNode
            ∧ e = depEdge stateNode effectNode (dep_name dep))
         ∨ e ∈ setterEdges "mut-" st effectNode (eff_setters effect)).
Proof.
  unfold effectEdges. rewrite elem_of_flat_map. split.
  - intros (effect & Hin & He).
    destruct (findEffectNode eff (eff_id effect)) as [en|] eqn:Hen;
      [|by apply elem_of_nil in He].
    exists effect, en. split; [done|]. split; [done|].
    apply elem_of_app in He as [He|He]; [left | by right].
    apply elem_of_flat_map in He as (dep & Hdep & He).
    destruct (findByLabelPrefix st (dep_name dep)) as [sn|] eqn:Hf;
      [|by apply elem_of_nil in He].
    apply list_elem_of_singleton in He. eauto.
  - intros (effect & en & Hin & Hen & He). exists effect.
    rewrite Hen. split; [done|]. apply elem_of_app.
    destruct He as [(dep & sn & Hdep & Hf & ->)|He]; [left | by right].
    apply elem_of_flat_map. exists dep. rewrite Hf.
    split; [done | by apply list_elem_of_singleton].
Qed.

Lemma elem_of_callbackEdges
    (st eff : list GraphNode) (callbacks : list AnalyzedCallback) (e : GraphEdge) :
  e ∈ callbackEdges st eff callbacks
  ↔ ∃ cb cbNode,
      cb ∈ callbacks
      ∧ findEffectNode eff (cb_id cb) = Some cbNode
      ∧ e ∈ setterEdges "cb-mut-" st cbNode (cb_setters cb).
Proof.
  unfold callbackEdges. rewrite elem_of_flat_map. split.
  - intros (cb & Hin & He).
    destruct (findEffectNode eff (cb_id cb)) as [cn|] eqn:Hcn;
      [eauto | by apply elem_of_nil in He].
  - intros (cb & cn & Hin & Hcn & He). exists cb. by rewrite Hcn.
Qed.

Lemma elem_of_jsxPropEdges
    (ind st jsxN : list GraphNode) (e : GraphEdge) :
  e ∈ jsxPropEdges ind st jsxN →
  ∃ fromNode jsxNode name,
    (fromNode ∈ st ∨ fromNode ∈ ind) ∧ jsxNode ∈ jsxN
    ∧ e = jsxPropEdge fromNode jsxNode name.
Proof.
  unfold jsxPropEdges. rewrite elem_of_flat_map.
  intros (jsxNode & Hj & He).
  apply elem_of_flat_map in He as (name & _ & He).
  destruct (findByLabelPrefix st name) as [sn|] eqn:Hf.
  - apply list_elem_of_singleton in He.
    apply find_Some_elem in Hf as [Hsn _]. eauto 8.
  - destruct (find _ ind) as [rn|] eqn:Hr; [|by apply elem_of_nil in He].
    apply list_elem_of_singleton in He.
    apply find_Some_elem in Hr as [Hrn _]. eauto 8.
Qed.

Lemma findEffectNode_Some (eff : list GraphNode) (id : string) (n : GraphNode) :
  findEffectNode eff id = Some n → n ∈ eff ∧ node_id n = "effect-" +:+ id.
Proof.
  intros H. apply find_Some_elem in H as [Hin Hid].
  split; [done|]. by apply String.eqb_eq in Hid.
Qed.

(** ** Assembled layouts *)

Section AssembledLayout.

Variables (hooks : list AnalyzedHook) (effects : list AnalyzedEffect)
          (callbacks : list AnalyzedCallback)
          (jsxN : list GraphNode) (treeE : list GraphEdge)
          (g : GraphLayout).
Hypothesis Hg : Assembled hooks effects callbacks jsxN treeE g.

Let ind := independentNodesOf hooks.
Let st := stateNodesOf hooks.
Let eff := effectNodesOf effects callbacks.

Lemma assembled_nodes : nodes g = ind ++ st ++ eff ++ jsxN.
Proof. apply Hg. Qed.

Lemma assembled_edges :
  edges g
  = flowEdges ind st ++ effectEdges st eff effects
    ++ callbackEdges st eff callbacks ++ jsxPropEdges ind st jsxN ++ treeE.
Proof. apply Hg. Qed.

Lemma assembled_jsx_kind : Forall (fun n => node_kind n = NJsx) jsxN.
Proof.
  destruct Hg as (_ & _ & H & _). eapply Forall_impl; [exact H|]. by intros n [? _].
Qed.

Lemma nodesOfKind_assembled (k : GraphNodeKind) :
  nodesOfKind k g
  = match k with
    | NIndependent => ind
    | NState => st
    | NEffect => eff
    | NJsx => jsxN
    | _ => []
    end.
Proof.
  unfold nodesOfKind. rewrite assembled_nodes, !filter_app.
  pose proof (layoutColumnNodes_kind (independentItems hooks) NIndependent
                (independent buildColumnX) 80 50) as Hi.
  pose proof (layoutColumnNodes_kind (stateItems hooks) NState
                (state buildColumnX) 80 40) as Hs.
  pose proof (layoutColumnNodes_kind (effectItems effects callbacks) NEffect
                (effect buildColumnX) 80 40) as He.
  pose proof assembled_jsx_kind as Hj.
  fold (independentNodesOf hooks) in Hi. fold (stateNodesOf hooks) in Hs.
  fold (effectNodesOf effects callbacks) in He.
  fold ind in Hi. fold st in Hs. fold eff in He.
  destruct k;
    repeat match goal with
    | H : Forall (fun n => node_kind n = ?k') ?l
      |- context [filter (fun n => node_kind n = ?k) ?l] =>
        first
          [ rewrite (filter_all (fun n => node_kind n = k) l) by exact H
          | rewrite (filter_none (fun n => node_kind n = k) l)
              by (eapply Forall_impl; [exact H|];
                  intros ? ->; discriminate) ];
        clear H
    end;
    by rewrite ?app_nil_r.
Qed.

(** Every edge of the layout comes from one of the five loops. *)
Lemma assembled_edge_origin (e : GraphEdge) :
  e ∈ edges g → EdgeOrigin ind st eff jsxN e.
Proof.
  rewrite assembled_edges, !elem_of_app.
  intros [H|[H|[H|[H|H]]]].
  - apply elem_of_flowEdges in H as (from & to & Hf & Ht & ->).
    by constructor.
  - apply elem_of_effectEdges in H as (effect & en & _ & Hen & H).
    apply findEffectNode_Some in Hen as [Hen _].
    destruct H as [(dep & sn & _ & Hf & ->)|H].
    + by constructor.
    + apply elem_of_setterEdges in H as (setter & sn & _ & Hf & ->).
      by constructor.
  - apply elem_of_callbackEdges in H as (cb & cn & _ & Hcn & H).
    apply findEffectNode_Some in Hcn as [Hcn _].
    apply elem_of_setterEdges in H as (setter & sn & _ & Hf & ->).
    by constructor.
  - apply elem_of_jsxPropEdges in H as (fn & jn & name & Hfn & Hjn & ->).
    by constructor.
  - destruct Hg as (_ & _ & _ & Htree).
    rewrite Forall_forall in Htree.
    destruct (Htree e H) as (p & c & Hp & Hc & ->). by constructor.
Qed.

(** No edge names a node that the layout does not list. *)
Lemma assembled_no_dangling (e : GraphEdge) :
  e ∈ edges g →
  nodeId (edge_from e) ∈ map node_id (nodes g)
  ∧ nodeId (edge_to e) ∈ map node_id (nodes g).
Proof.
  intros He. apply assembled_edge_origin in He.
  assert (Hin : ∀ n, n ∈ ind ∨ n ∈ st ∨ n ∈ eff ∨ n ∈ jsxN →
                     node_id n ∈ map node_id (nodes g)).
  { intros n Hn. apply list_elem_of_fmap_2'  with n; [|done].
    rewrite assembled_nodes, !elem_of_app. tauto. }
  destruct He as [f t Hf Ht|sn en name Hsn Hen|tag en sn setter Hen Hsn
                 |fn jn name Hfn Hjn|p c Hp Hc]; simpl.
  - split; apply Hin; tauto.
  - apply find_Some_elem in Hsn as [Hsn _]. split; apply Hin; tauto.
  - apply find_Some_elem in Hsn as [Hsn _]. split; apply Hin; tauto.
  - split; apply Hin; tauto.
  - split; apply Hin; tauto.
Qed.

Lemma independent_node_id (n : GraphNode) :
  n ∈ ind → ∃ x, node_id n = "independent-" +:+ x.
Proof.
  intros Hn. apply elem_of_layoutColumnNodes in Hn as (i & item & _ & ->).
  by exists (item_id item).
Qed.

(** The flow edges that leave the independent column are the edges of
    the sequential connection, and no others. *)
Lemma columnFlowEdges_assembled : columnFlowEdges g = flowEdges ind st.
Proof.
  unfold columnFlowEdges.
  rewrite (nodesOfKind_assembled NIndependent), assembled_edges, !filter_app.
  rewrite filter_all.
  2:{ apply Forall_forall. intros e He.
      apply elem_of_flowEdges in He as (from & to & Hf & _ & ->).
      split; [done|]. simpl. by apply list_elem_of_fmap_2' with from. }
  rewrite !filter_none; [by rewrite !app_nil_r|..].
  - destruct Hg as (_ & _ & Hjsx & Htree).
    rewrite Forall_forall in Hjsx.
    eapply Forall_impl; [exact Htree|].
    intros e (p & c & Hp & _ & ->) [_ Hin]. simpl in Hin.
    apply list_elem_of_fmap in Hin as (n & Hid & Hn).
    apply independent_node_id in Hn as (x & Hx).
    destruct (Hjsx p Hp) as [_ Hprefix].
    rewrite Hid, Hx in Hprefix. discriminate.
  - apply Forall_forall. intros e He [Hk _].
    apply elem_of_jsxPropEdges in He as (? & ? & ? & _ & _ & ->). discriminate.
  - apply Forall_forall. intros e He [Hk _].
    apply elem_of_callbackEdges in He as (? & ? & _ & _ & He).
    apply elem_of_setterEdges in He as (? & ? & _ & _ & ->). discriminate.
  - apply Forall_forall. intros e He [Hk _].
    apply elem_of_effectEdges in He as (? & ? & _ & _ & [He|He]).
    + destruct He as (? & ? & _ & _ & ->). discriminate.
    + apply elem_of_setterEdges in He as (? & ? & _ & _ & ->). discriminate.
Qed.









End AssembledLayout.

(** ** Depth-grouped layout of the element nodes *)

Lemma elem_of_groupPush
    (item x : JsxLayoutItem) (groups : list (Z * list JsxLayoutItem)) :
  (∃ d arr, (d, arr) ∈ groupPush item groups ∧ x ∈ arr)
  ↔ x = item ∨ ∃ d arr, (d, arr) ∈ groups ∧ x ∈ arr.
Proof.
  induction groups as [|[d0 arr0] groups IH]; simpl.
  - split.
    + intros (d & arr & Hin & Hx).
      apply list_elem_of_singleton in Hin as [= -> ->].
      apply list_elem_of_singleton in Hx. by left.
    + intros [->|(d & arr & Hin & _)]; [|by apply elem_of_nil in Hin].
      exists (jli_depth item), [item].
      split; by apply list_elem_of_singleton.
  - destruct (d0 =? jli_depth item) eqn:Hd.
    + split.
      * intros (d & arr & Hin & Hx).
        apply elem_of_cons in Hin as [[= -> ->]|Hin].
        -- apply elem_of_app in Hx as [Hx|Hx].
           ++ right. exists d0, arr0. split; [left | done].
           ++ apply list_elem_of_singleton in Hx. by left.
        -- right. exists d, arr. split; [by right | done].
      * intros [->|(d & arr & Hin & Hx)].
        -- exists d0, (arr0 ++ [item]). split; [left|].
           apply elem_of_app. right. by apply list_elem_of_singleton.
        -- apply elem_of_cons in Hin as [[= -> ->]|Hin].
           ++ exists d0, (arr0 ++ [item]). split; [left|].
              apply elem_of_app. by left.
           ++ exists d, arr. split; [by right | done].
    + split.
      * intros (d & arr & Hin & Hx).
        apply elem_of_cons in Hin as [[= -> ->]|Hin].
        -- right. exists d0, arr0. split; [left | done].
        -- destruct (proj1 IH) as [->|(d' & arr' & Hin' & Hx')]; [eauto| by left|].
           right. exists d', arr'. split; [by right | done].
      * intros [->|(d & arr & Hin & Hx)].
        -- destruct (proj2 IH) as (d' & arr' & Hin' & Hx'); [by left|].
           exists d', arr'. split; [by right | done].
        -- apply elem_of_cons in Hin as [[= -> ->]|Hin].
           ++ exists d0, arr0. split; [left | done].
           ++ destruct (proj2 IH) as (d' & arr' & Hin' & Hx'); [right; eauto|].
              exists d', arr'. split; [by right | done].
Qed.

Lemma elem_of_groupByDepth (items : list JsxLayoutItem) (x : JsxLayoutItem) :
  (∃ d arr, (d, arr) ∈ groupByDepth items ∧ x ∈ arr) ↔ x ∈ items.
Proof.
  unfold groupByDepth.
  assert (Hgen : ∀ acc,
             (∃ d arr,
                (d, arr) ∈ fold_left (fun m item => groupPush item m) items acc
                ∧ x ∈ arr)
             ↔ x ∈ items ∨ ∃ d arr, (d, arr) ∈ acc ∧ x ∈ arr).
  { induction items as [|item items IH]; intros acc; simpl.
    - split; [by right|]. intros [H|H]; [by apply elem_of_nil in H | done].
    - rewrite IH, elem_of_groupPush, elem_of_cons. tauto. }
  rewrite Hgen. split; [|by left].
  intros [H|(d & arr & H & _)]; [done | by apply elem_of_nil in H].
Qed.

Lemma elem_of_insertEntry
    (e x : Z * list JsxLayoutItem) (sorted : list (Z * list JsxLayoutItem)) :
  x ∈ insertEntry e sorted ↔ x = e ∨ x ∈ sorted.
Proof.
  induction sorted as [|h t IH]; simpl.
  - rewrite list_elem_of_singleton. split; [by left|].
    intros [H|H]; [done | by apply elem_of_nil in H].
  - destruct (fst e <=? fst h).
    + by rewrite elem_of_cons.
    + rewrite !elem_of_cons, IH. tauto.
Qed.

Lemma elem_of_sortEntries
    (entries : list (Z * list JsxLayoutItem)) (x : Z * list JsxLayoutItem) :
  x ∈ sortEntries entries ↔ x ∈ entries.
Proof.
  unfold sortEntries. induction entries as [|e entries IH]; simpl; [done|].
  by rewrite elem_of_insertEntry, IH, elem_of_cons.
Qed.

Lemma elem_of_layoutJsxByDepth
    (colX : ColX) (items : list JsxLayoutItem) (n : GraphNode) :
  n ∈ layoutJsxByDepth colX items
  ↔ ∃ d arr (index : nat) item,
      (d, arr) ∈ groupByDepth items
      ∧ arr !! index = Some item
      ∧ n = {| node_id := "jsx-" +:+ jli_id item;
               node_label := jli_label item;
               node_kind := NJsx;
               node_x := jsx colX;
               node_y := 80 + d * 80 + Z.of_nat index * 32;
               node_width := 120;
               node_height := 32;
               node_meta := jli_meta item |}.
Proof.
  unfold layoutJsxByDepth. rewrite elem_of_flat_map. split.
  - intros ([d arr] & Hentry & Hn). rewrite elem_of_sortEntries in Hentry.
    unfold depthBandNodes in Hn.
    apply elem_of_lookup_imap in Hn as (index & item & -> & Hitem).
    exists d, arr, index, item. split_and!; [done | done | reflexivity].
  - intros (d & arr & index & item & Hentry & Hitem & ->).
    exists (d, arr). split; [by rewrite elem_of_sortEntries|].
    unfold depthBandNodes. apply elem_of_lookup_imap.
    exists index, item. split; [reflexivity | done].
Qed.

(** The element nodes are the element facts, one node each. *)
Lemma layoutJsxByDepth_from_item
    (colX : ColX) (items : list JsxLayoutItem) (n : GraphNode) :
  n ∈ layoutJsxByDepth colX items →
  ∃ item, item ∈ items
          ∧ node_id n = "jsx-" +:+ jli_id item ∧ node_kind n = NJsx.
Proof.
  rewrite elem_of_layoutJsxByDepth.
  intros (d & arr & index & item & Hentry & Hitem & ->).
  exists item. split; [|done].
  apply elem_of_groupByDepth. exists d, arr. split; [done|].
  by eapply list_elem_of_lookup_2.
Qed.

Lemma layoutJsxByDepth_of_item
    (colX : ColX) (items : list JsxLayoutItem) (item : JsxLayoutItem) :
  item ∈ items →
  ∃ n, n ∈ layoutJsxByDepth colX items
       ∧ node_id n = "jsx-" +:+ jli_id item.
Proof.
  intros Hitem. apply elem_of_groupByDepth in Hitem as (d & arr & Hentry & Hin).
  apply list_elem_of_lookup in Hin as [index Hindex].
  exists {| node_id := "jsx-" +:+ jli_id item;
            node_label := jli_label item;
            node_kind := NJsx;
            node_x := jsx colX;
            node_y := 80 + d * 80 + Z.of_nat index * 32;
            node_width := 120;
            node_height := 32;
            node_meta := jli_meta item |}.
  split; [|done].
  apply elem_of_layoutJsxByDepth. by exists d, arr, index, item.
Qed.

(** ** The map from logical identities to element nodes *)

Lemma buildJsxNodeMap_lookup_Some
    (jsxN : list GraphNode) (k : string) (n : GraphNode) :
  buildJsxNodeMap jsxN !! k = Some n →
  n ∈ jsxN ∧ logicalIdOf (node_id n) = k.
Proof.
  unfold buildJsxNodeMap.
  assert (Hgen : ∀ (acc : gmap string GraphNode),
             fold_left (fun m node => <[logicalIdOf (node_id node) := node]> m)
                       jsxN acc !! k = Some n →
             (n ∈ jsxN ∧ logicalIdOf (node_id n) = k) ∨ acc !! k = Some n).
  { induction jsxN as [|a l IH]; intros acc; simpl; [by right|].
    intros H. apply IH in H as [[Hin Hk]|H].
    - left. split; [by right | done].
    - destruct (decide (logicalIdOf (node_id a) = k)) as [Heq|Hne].
      + rewrite <- Heq, lookup_insert_eq in H. injection H as <-.
        left. split; [left | done].
      + rewrite lookup_insert_ne in H by done. by right. }
  intros H. apply Hgen in H as [H|H]; [done|].
  by rewrite lookup_empty in H.
Qed.

Lemma buildJsxNodeMap_lookup_is_Some
    (jsxN : list GraphNode) (k : string) (n : GraphNode) :
  n ∈ jsxN → logicalIdOf (node_id n) = k →
  is_Some (buildJsxNodeMap jsxN !! k).
Proof.
  unfold buildJsxNodeMap.
  assert (Hgen : ∀ (acc : gmap string GraphNode),
             (∃ m, m ∈ jsxN ∧ logicalIdOf (node_id m) = k) ∨ is_Some (acc !! k) →
             is_Some
               (fold_left (fun m node => <[logicalIdOf (node_id node) := node]> m)
                          jsxN acc !! k)).
  { induction jsxN as [|a l IH]; intros acc; simpl.
    - intros [(m & Hm & _)|H]; [by apply elem_of_nil in Hm | done].
    - intros [(m & Hm & Hk)|H]; apply IH.
      + apply elem_of_cons in Hm as [->|Hm]; [|left; eauto].
        right. rewrite Hk, lookup_insert_eq. eauto.
      + right. destruct (decide (logicalIdOf (node_id a) = k)) as [Heq|Hne].
        * rewrite Heq, lookup_insert_eq. eauto.
        * by rewrite lookup_insert_ne. }
  intros Hn Hk. apply Hgen. left. eauto.
Qed.

Lemma elem_of_jsxTreeEdges
    (jsxNodeMap : gmap string GraphNode)
    (facts : list Mapping.AnalyzedJsxNode) (e : GraphEdge) :
  e ∈ jsxTreeEdges jsxNodeMap facts
  ↔ ∃ j p parentNode childNode,
      j ∈ facts ∧ Mapping.parentId j = Some p ∧ p ≠ EmptyString
      ∧ jsxNodeMap !! p = Some parentNode
      ∧ jsxNodeMap !! Mapping.id j = Some childNode
      ∧ e = jsxTreeEdge parentNode childNode.
Proof.
  unfold jsxTreeEdges. rewrite elem_of_flat_map. split.
  - intros (j & Hj & He).
    destruct (Mapping.parentId j) as [p|] eqn:Hp; simpl in He;
      [|by apply elem_of_nil in He].
    destruct (Js.truthy p) eqn:Htruthy; [|by apply elem_of_nil in He].
    destruct (jsxNodeMap !! p) as [pn|] eqn:Hpn; [|by apply elem_of_nil in He].
    destruct (jsxNodeMap !! Mapping.id j) as [cn|] eqn:Hcn;
      [|by apply elem_of_nil in He].
    apply list_elem_of_singleton in He.
    exists j, p, pn, cn. split_and!; try done.
    intros ->. discriminate.
  - intros (j & p & pn & cn & Hj & Hp & Hne & Hpn & Hcn & ->).
    exists j. split; [done|].
    rewrite Hp. simpl. rewrite (truthy_nonempty p Hne), Hpn, Hcn.
    by apply list_elem_of_singleton.
Qed.

(** ** The two assemblers are assembled layouts *)

Lemma buildGraphFromAnalysis_assembled (analysis : ComponentAnalysis) :
  Assembled (hooks analysis) (effects analysis) (callbacks analysis)
            (flatJsxNodesOf (jsxNodes analysis)) []
            (buildGraphFromAnalysis (Some analysis)).
Proof.
  split_and!.
  - reflexivity.
  - simpl. by rewrite app_nil_r.
  - apply Forall_forall. intros n Hn.
    apply elem_of_layoutColumnNodes in Hn as (i & item & _ & ->).
    split; [reflexivity | apply (startsWith_app "jsx-")].
  - constructor.
Qed.

Lemma buildGraphFromMappingResult_assembled (mappingResult : Mapping.MappingResult) :
  Assembled (Mapping.hooks mappingResult) (Mapping.effects mappingResult)
            (Mapping.callbacks mappingResult)
            (depthJsxNodesOf (Mapping.jsxNodes mappingResult))
            (jsxTreeEdges
               (buildJsxNodeMap (depthJsxNodesOf (Mapping.jsxNodes mappingResult)))
               (Mapping.jsxNodes mappingResult))
            (buildGraphFromMappingResult (Some mappingResult)).
Proof.
  split_and!.
  - reflexivity.
  - reflexivity.
  - apply Forall_forall. intros n Hn.
    apply layoutJsxByDepth_from_item in Hn as (item & _ & Hid & Hk).
    split; [done|]. rewrite Hid. apply startsWith_app.
  - apply Forall_forall. intros e He.
    apply elem_of_jsxTreeEdges
      in He as (j & p & pn & cn & _ & _ & _ & Hpn & Hcn & ->).
    apply buildJsxNodeMap_lookup_Some in Hpn as [Hpn _].
    apply buildJsxNodeMap_lookup_Some in Hcn as [Hcn _].
    eauto.
Qed.

Lemma emptyLayout_assembled : Assembled [] [] [] [] [] emptyLayout.
Proof. split_and!; [reflexivity | reflexivity | constructor | constructor]. Qed.

(** ** The claims about graph assembly *)

(** C9: without an analysis both assemblers return the layout with no
    node, no edge, the five fixed column positions, a width of 1160 (the
    last column plus 200) and the fallback height 800. *)
Theorem absent_analysis_empty_layout :
  let fixed :=
    {| nodes := [];
       edges := [];
       width := 1160;
       height := 800;
       colX := {| independent := 80; state := 300; variable := 520;
                  effect := 740; jsx := 960 |} |} in
  buildGraphFromAnalysis None = fixed
  ∧ buildGraphFromMappingResult None = fixed.
Proof. split; reflexivity. Qed.

Lemma buildGraphFromAnalysis_some_assembled (analysis : option ComponentAnalysis) :
  ∃ hooks effects callbacks jsxN treeE,
    Assembled hooks effects callbacks jsxN treeE (buildGraphFromAnalysis analysis).
Proof.
  destruct analysis as [a|].
  - do 5 eexists. apply buildGraphFromAnalysis_assembled.
  - do 5 eexists. apply emptyLayout_assembled.
Qed.

Lemma buildGraphFromMappingResult_some_assembled
    (mappingResult : option Mapping.MappingResult) :
  ∃ hooks effects callbacks jsxN treeE,
    Assembled hooks effects callbacks jsxN treeE
              (buildGraphFromMappingResult mappingResult).
Proof.
  destruct mappingResult as [m|].
  - do 5 eexists. apply buildGraphFromMappingResult_assembled.
  - do 5 eexists. apply emptyLayout_assembled.
Qed.

(** C8: whatever the input, both end points of every edge of the layout
    name a node of the layout's node list. *)
Theorem no_dangling_edges :
  (∀ analysis e,
     e ∈ edges (buildGraphFromAnalysis analysis) →
     nodeId (edge_from e) ∈ map node_id (nodes (buildGraphFromAnalysis analysis))
     ∧ nodeId (edge_to e) ∈ map node_id (nodes (buildGraphFromAnalysis analysis)))
  ∧ (∀ mappingResult e,
       e ∈ edges (buildGraphFromMappingResult mappingResult) →
       nodeId (edge_from e)
         ∈ map node_id (nodes (buildGraphFromMappingResult mappingResult))
       ∧ nodeId (edge_to e)
           ∈ map node_id (nodes (buildGraphFromMappingResult mappingResult))).
Proof.
  split.
  - intros analysis e He.
    destruct (buildGraphFromAnalysis_some_assembled analysis)
      as (h & ef & cb & jn & te & Hg).
    by eapply assembled_no_dangling.
  - intros mappingResult e He.
    destruct (buildGraphFromMappingResult_some_assembled mappingResult)
      as (h & ef & cb & jn & te & Hg).
    by eapply assembled_no_dangling.
Qed.

Lemma no_dangling_edges_witness :
  let g := buildGraphFromMappingResult (Some refStateMapping) in
  let e := jsxTreeEdge
             {| node_id := "jsx-jsx-1"; node_label := "div"; node_kind := NJsx;
                node_x := 960; node_y := 80; node_width := 120;
                node_height := 32; node_meta := Some (MetaJsx 0 []) |}
             {| node_id := "jsx-jsx-2"; node_label := "span"; node_kind := NJsx;
                node_x := 960; node_y := 160; node_width := 120;
                node_height := 32; node_meta := Some (MetaJsx 1 []) |} in
  e ∈ edges g
  ∧ nodeId (edge_from e) ∈ map node_id (nodes g)
  ∧ nodeId (edge_to e) ∈ map node_id (nodes g).
Proof.
  intros g e.
  assert (He : e ∈ edges g).
  { vm_compute. apply elem_of_cons. right. apply elem_of_cons. by left. }
  split; [exact He|].
  exact (proj2 no_dangling_edges (Some refStateMapping) e He).
Defined.






(** C3, as stated, fails where the lowest node is not the last element
    node: with one state hook and no element the only node is at [y] 80
    and the height is 720. *)
Lemma canvas_height_ignores_other_columns :
  ¬ canvasFitsLowestNode (buildGraphFromAnalysis (Some oneStateHook))
  ∧ ¬ canvasFitsLowestNode
        (buildGraphFromMappingResult
           (Some (sampleMapping [sampleHook 1 "count" useState] [] [] []))).
Proof.
  split; intros [_ Hheight].
  - specialize (Hheight
      {| node_id := "state-hook-1"; node_label := "count"; node_kind := NState;
         node_x := 300; node_y := 80; node_width := 120; node_height := 32;
         node_meta := Some (MetaHook useState local) |}).
    assert (Hbad : 720 = 80 + 120); [|lia].
    apply Hheight.
    + apply list_elem_of_singleton. reflexivity.
    + intros n Hn. apply list_elem_of_singleton in Hn as ->. simpl. lia.
  - specialize (Hheight
      {| node_id := "state-hook-1"; node_label := "count"; node_kind := NState;
         node_x := 300; node_y := 80; node_width := 120; node_height := 32;
         node_meta := Some (MetaHook useState local) |}).
    assert (Hbad : 720 = 80 + 120); [|lia].
    apply Hheight.
    + apply list_elem_of_singleton. reflexivity.
    + intros n Hn. apply list_elem_of_singleton in Hn as ->. simpl. lia.
Qed.

Lemma assembled_height_last_element
    (hooks : list AnalyzedHook) (effects : list AnalyzedEffect)
    (callbacks : list AnalyzedCallback)
    (jsxN : list GraphNode) (treeE : list GraphEdge) (g : GraphLayout) :
  Assembled hooks effects callbacks jsxN treeE g →
  height g = lastJsxY jsxN + 120 →
  height g = match last (nodesOfKind NJsx g) with
             | Some n => node_y n + 120
             | None => 720
             end.
Proof.
  intros Hg ->. rewrite (nodesOfKind_assembled _ _ _ _ _ _ Hg NJsx).
  unfold lastJsxY. by destruct (last jsxN).
Qed.

(** C3, amended: for every analysis the width of the layout is the x
    position of the element column plus 200, and the height is the [y]
    of the last element node of the node list plus 120, or 720 when the
    layout has no element node, whatever its other nodes. *)
Theorem canvas_size_from_last_element :
  (∀ analysis,
     let g := buildGraphFromAnalysis (Some analysis) in
     width g = jsx (colX g) + 200
     ∧ height g = match last (nodesOfKind NJsx g) with
                  | Some n => node_y n + 120
                  | None => 720
                  end)
  ∧ (∀ mappingResult,
       let g := buildGraphFromMappingResult (Some mappingResult) in
       width g = jsx (colX g) + 200
       ∧ height g = match last (nodesOfKind NJsx g) with
                    | Some n => node_y n + 120
                    | None => 720
                    end).
Proof.
  split.
  - intros analysis g. split; [reflexivity|].
    eapply assembled_height_last_element;
      [apply buildGraphFromAnalysis_assembled | reflexivity].
  - intros mappingResult g. split; [reflexivity|].
    eapply assembled_height_last_element;
      [apply buildGraphFromMappingResult_assembled | reflexivity].
Qed.

(** C2, as stated, fails: the parent-child edge has the kind and the
    label of the sequential flow edge of the same layout. *)
Lemma structural_edge_shares_flow_kind : ¬ structuralEdgesTagged refStateMapping.
Proof.
  intros Hclaim.
  destruct (Hclaim (sampleElement 2 "span" 1 (Some "jsx-1")) "jsx-1")
    as (e & He & Hfrom & Hto & Htag).
  { apply elem_of_cons. right. apply list_elem_of_singleton. reflexivity. }
  { reflexivity. }
  set (g := buildGraphFromMappingResult (Some refStateMapping)) in *.
  assert (Hflow : ∃ f, f ∈ columnFlowEdges g
                       ∧ edge_kind f = EFlow ∧ edge_label f = None).
  { subst g.
    rewrite (columnFlowEdges_assembled _ _ _ _ _ _
               (buildGraphFromMappingResult_assembled refStateMapping)).
    eexists. split; [vm_compute; left|]. split; reflexivity. }
  destruct Hflow as (f & Hf & Hfk & Hfl).
  assert (Hshape : edge_kind e = EFlow ∧ edge_label e = None).
  { vm_compute in He.
    apply elem_of_cons in He as [->|He].
    { vm_compute in Hfrom. discriminate. }
    apply list_elem_of_singleton in He as ->. split; reflexivity. }
  destruct Hshape as [Hek Hel].
  destruct (Htag f Hf) as [Hk|Hl]; congruence.
Qed.

Lemma logicalIdOf_jsx (x : string) : logicalIdOf ("jsx-" +:+ x) = x.
Proof. reflexivity. Qed.

(** The node the map holds for the identity of an element fact is a node
    of that identity. *)
Lemma jsxNodeMap_of_fact
    (facts : list Mapping.AnalyzedJsxNode) (j : Mapping.AnalyzedJsxNode) :
  j ∈ facts →
  ∃ n, buildJsxNodeMap (depthJsxNodesOf facts) !! Mapping.id j = Some n
       ∧ node_id n = "jsx-" +:+ Mapping.id j.
Proof.
  intros Hj.
  destruct (layoutJsxByDepth_of_item buildColumnX (jsxLayoutItems facts)
              {| jli_id := Mapping.id j;
                 jli_label := Mapping.component j;
                 jli_depth := Mapping.depth j;
                 jli_meta := Some (MetaJsx (Mapping.depth j) (Mapping.props j)) |})
    as (n0 & Hn0 & Hid0).
  { unfold jsxLayoutItems. by apply (list_elem_of_fmap_2' _ _ j). }
  simpl in Hid0.
  destruct (buildJsxNodeMap_lookup_is_Some (depthJsxNodesOf facts)
              (Mapping.id j) n0 Hn0) as [n Hn].
  { by rewrite Hid0. }
  exists n. split; [done|].
  apply buildJsxNodeMap_lookup_Some in Hn as [Hin Hlogical].
  apply layoutJsxByDepth_from_item in Hin as (item & _ & Hid & _).
  rewrite Hid in Hlogical. rewrite logicalIdOf_jsx in Hlogical.
  by rewrite Hid, Hlogical.
Qed.

(** The node the map holds for the identity of an element fact is an
    element node of the layout. *)
Lemma jsxNodeMap_node_in_column
    (facts : list Mapping.AnalyzedJsxNode) (k : string) (n : GraphNode) :
  buildJsxNodeMap (depthJsxNodesOf facts) !! k = Some n →
  node_id n ∈ map node_id (depthJsxNodesOf facts).
Proof.
  intros Hn. apply buildJsxNodeMap_lookup_Some in Hn as [Hin _].
  by apply (list_elem_of_fmap_2' _ _ n).
Qed.

(** C2, amended: for every element fact whose parent identity is not
    empty and is the identity of an element fact of the same analysis,
    the layout has an edge from the parent's node to the fact's node.
    The edge has kind flow and no label, as every sequential flow edge
    has.  Its identity starts with [jsx-tree-] and not with [flow-], and
    both its end points are element nodes; the identity of a sequential
    flow edge starts with [flow-] and not with [jsx-tree-], and its end
    points are an independent node, named [independent-...], and a
    state node, named [state-...].  Every edge of kind flow is of one of
    these two sorts. *)
Theorem structural_edges_named_by_identity
    (mappingResult : Mapping.MappingResult) :
  let g := buildGraphFromMappingResult (Some mappingResult) in
  (∀ j p parent,
     j ∈ Mapping.jsxNodes mappingResult →
     Mapping.parentId j = Some p → p ≠ EmptyString →
     parent ∈ Mapping.jsxNodes mappingResult → Mapping.id parent = p →
     ∃ e, e ∈ edges g
          ∧ nodeId (edge_from e) = "jsx-" +:+ p
          ∧ nodeId (edge_to e) = "jsx-" +:+ Mapping.id j
          ∧ edge_kind e = EFlow
          ∧ edge_label e = None
          ∧ Js.startsWith (edge_id e) "jsx-tree-" = true
          ∧ Js.startsWith (edge_id e) "flow-" = false
          ∧ nodeId (edge_from e) ∈ map node_id (nodesOfKind NJsx g)
          ∧ nodeId (edge_to e) ∈ map node_id (nodesOfKind NJsx g))
  ∧ (∀ f, f ∈ columnFlowEdges g →
          edge_kind f = EFlow ∧ edge_label f = None
          ∧ Js.startsWith (edge_id f) "flow-" = true
          ∧ Js.startsWith (edge_id f) "jsx-tree-" = false
          ∧ nodeId (edge_from f) ∈ map node_id (nodesOfKind NIndependent g)
          ∧ Js.startsWith (nodeId (edge_from f)) "independent-" = true
          ∧ nodeId (edge_to f) ∈ map node_id (nodesOfKind NState g)
          ∧ Js.startsWith (nodeId (edge_to f)) "state-" = true)
  ∧ (∀ e, e ∈ edges g → edge_kind e = EFlow →
          e ∈ columnFlowEdges g
          ∨ (Js.startsWith (edge_id e) "jsx-tree-" = true
             ∧ nodeId (edge_from e) ∈ map node_id (nodesOfKind NJsx g)
             ∧ nodeId (edge_to e) ∈ map node_id (nodesOfKind NJsx g))).
Proof.
  intros g.
  pose proof (buildGraphFromMappingResult_assembled mappingResult) as Hg.
  fold g in Hg. clearbody g.
  assert (Hjsx : nodesOfKind NJsx g
                 = depthJsxNodesOf (Mapping.jsxNodes mappingResult))
    by apply (nodesOfKind_assembled _ _ _ _ _ _ Hg NJsx).
  split_and!.
  - intros j p parent Hj Hp Hne Hparent Hid.
    destruct (jsxNodeMap_of_fact _ _ Hparent) as (pn & Hpn & Hpid).
    destruct (jsxNodeMap_of_fact _ _ Hj) as (cn & Hcn & Hcid).
    rewrite Hid in Hpn, Hpid.
    exists (jsxTreeEdge pn cn). split_and!; try done.
    + rewrite (assembled_edges _ _ _ _ _ _ Hg), !elem_of_app. do 4 right.
      apply elem_of_jsxTreeEdges. exists j, p, pn, cn. done.
    + simpl. apply (startsWith_app "jsx-tree-").
    + rewrite Hjsx. simpl. by eapply jsxNodeMap_node_in_column.
    + rewrite Hjsx. simpl. by eapply jsxNodeMap_node_in_column.
  - intros f Hf.
    rewrite (columnFlowEdges_assembled _ _ _ _ _ _ Hg) in Hf.
    apply elem_of_flowEdges in Hf as (from & to & Hfrom & Hto & ->).
    rewrite (nodesOfKind_assembled _ _ _ _ _ _ Hg NIndependent),
            (nodesOfKind_assembled _ _ _ _ _ _ Hg NState).
    split; [reflexivity|]. split; [reflexivity|].
    split; [apply (startsWith_app "flow-")|]. split; [reflexivity|].
    split; [simpl; by apply (list_elem_of_fmap_2' _ _ from)|].
    split.
    { apply elem_of_layoutColumnNodes in Hfrom as (i & item & _ & ->).
      apply (startsWith_app "independent-"). }
    split; [simpl; by apply (list_elem_of_fmap_2' _ _ to)|].
    apply elem_of_layoutColumnNodes in Hto as (i & item & _ & ->).
    apply (startsWith_app "state-").
  - intros e He Hkind.
    rewrite (columnFlowEdges_assembled _ _ _ _ _ _ Hg).
    rewrite (assembled_edges _ _ _ _ _ _ Hg), !elem_of_app in He.
    destruct He as [H|[H|[H|[H|H]]]].
    + by left.
    + apply elem_of_effectEdges in H as (effect & en & _ & _ & H).
      destruct H as [(dep & sn & _ & _ & ->)|H]; [discriminate|].
      apply elem_of_setterEdges in H as (setter & sn & _ & _ & ->).
      discriminate.
    + apply elem_of_callbackEdges in H as (cb & cn & _ & _ & H).
      apply elem_of_setterEdges in H as (setter & sn & _ & _ & ->).
      discriminate.
    + apply elem_of_jsxPropEdges in H as (fn & jn & name & _ & _ & ->).
      discriminate.
    + right. destruct Hg as (_ & _ & _ & Htree).
      rewrite Forall_forall in Htree.
      destruct (Htree e H) as (pn & cn & Hpn & Hcn & ->).
      rewrite Hjsx. split_and!.
      * simpl. apply (startsWith_app "jsx-tree-").
      * simpl. by apply (list_elem_of_fmap_2' _ _ pn).
      * simpl. by apply (list_elem_of_fmap_2' _ _ cn).
Qed.

Lemma structural_edges_named_by_identity_witness :
  let g := buildGraphFromMappingResult (Some refStateMapping) in
  ∃ e, e ∈ edges g
       ∧ nodeId (edge_from e) = "jsx-jsx-1"
       ∧ nodeId (edge_to e) = "jsx-jsx-2"
       ∧ edge_kind e = EFlow
       ∧ edge_label e = None
       ∧ Js.startsWith (edge_id e) "jsx-tree-" = true
       ∧ Js.startsWith (edge_id e) "flow-" = false
       ∧ nodeId (edge_from e) ∈ map node_id (nodesOfKind NJsx g)
       ∧ nodeId (edge_to e) ∈ map node_id (nodesOfKind NJsx g).
Proof.
  intros g.
  destruct (structural_edges_named_by_identity refStateMapping) as [Hedge _].
  apply (Hedge (sampleElement 2 "span" 1 (Some "jsx-1")) "jsx-1"
               (sampleElement 1 "div" 0 None)).
  - apply elem_of_cons. right. apply list_elem_of_singleton. reflexivity.
  - reflexivity.
  - discriminate.
  - apply elem_of_cons. by left.
  - reflexivity.
Defined.

(** A parent identity that names no element fact gives no edge. *)
Lemma dangling_parent_no_edge :
  edges (buildGraphFromMappingResult
           (Some (sampleMapping [] [] []
                    [sampleElement 2 "span" 1 (Some "jsx-9")]))) = [].
Proof. vm_compute. reflexivity. Qed.

(** With the depth-grouped layout the last element node is the last of
    the deepest band, which need not be the lowest element node. *)
Lemma deepest_band_not_lowest :
  let g := buildGraphFromMappingResult
             (Some (sampleMapping [] [] [] wideShallowFacts)) in
  map (fun n => (node_id n, node_y n)) (nodes g)
  = [("jsx-jsx-1", 80); ("jsx-jsx-3", 112); ("jsx-jsx-4", 144);
     ("jsx-jsx-5", 176); ("jsx-jsx-2", 160)]
  ∧ height g = 280.
Proof. split; vm_compute; reflexivity. Qed.

(** ** The element tree walk *)

Lemma JSXElement_nested_ind (P : JSXElement → Prop) :
  (∀ name attributes loc children,
     Forall P children → P (JSXElem name attributes loc children)) →
  ∀ e, P e.
Proof.
  intros Hstep. fix IH 1. intros [name attributes loc children].
  apply Hstep. induction children as [|c children IHc]; constructor.
  - apply IH.
  - exact IHc.
Qed.

(** The walk below an element runs [traverseJsx], one level deeper, on
    every element the traversal enters. *)
Lemma traverseBelow_enteredBelow (path : JSXElement) :
  ∀ depth result,
    traverseBelow path depth result
    = fold_left (fun result childPath => traverseJsx childPath (depth + 1) result)
                (enteredBelow path) result.
Proof.
  induction path as [name attributes loc children IH] using JSXElement_nested_ind.
  intros depth. simpl.
  induction IH as [|c children Hc _ IHchildren]; intros result; [done|].
  simpl. rewrite fold_left_app, <- IHchildren. f_equal.
  rewrite <- Hc. reflexivity.
Qed.

(** Whatever the three elements are, a root with one child and one
    grandchild gives four facts: the grandchild is entered once from the
    walk of the child and once more from the walk of the root. *)
Lemma three_nested_elements_depths
    (n1 n2 n3 : JSXName) (a1 a2 a3 : list JSXAttributeItem)
    (l1 l2 l3 : option Loc) :
  let markup :=
    JSXElem n1 a1 l1 [JSXElem n2 a2 l2 [JSXElem n3 a3 l3 []]] in
  map (fun j => (jsx_component j, jsx_depth j)) (analyzeJsxTree [markup] [])
  = [(getJsxName n1, 0); (getJsxName n2, 1);
     (getJsxName n3, 2); (getJsxName n3, 1)].
Proof. reflexivity. Qed.

(** C1 at [<div><span><b/></span></div>]: the analysis gives four facts,
    of depths 0, 1, 2 and 1; the layout made from them, by either
    assembler, has four element nodes and no edge. *)
Theorem nested_markup_analysis :
  let facts := analyzeJsxTree [nestedMarkup] [] in
  let g := buildGraphFromAnalysis (Some (sampleAnalysis [] [] [] facts)) in
  let g' :=
    buildGraphFromMappingResult
      (Some (sampleMapping [] [] [] (map withoutParent facts))) in
  map (fun j => (jsx_id j, jsx_component j, jsx_depth j)) facts
  = [("jsx-1", "div", 0); ("jsx-2", "span", 1);
     ("jsx-3", "b", 2); ("jsx-4", "b", 1)]
  ∧ map node_id (nodes g) = ["jsx-jsx-1"; "jsx-jsx-2"; "jsx-jsx-3"; "jsx-jsx-4"]
  ∧ edges g = []
  ∧ map node_id (nodes g') = ["jsx-jsx-1"; "jsx-jsx-2"; "jsx-jsx-4"; "jsx-jsx-3"]
  ∧ edges g' = [].
Proof. split_and!; vm_compute; reflexivity. Qed.

(** Given the three facts with their parent identities, the assembler of
    the [Mapping] namespace does make the two parent-child edges. *)
Lemma nested_facts_tree_edges :
  let g := buildGraphFromMappingResult (Some (sampleMapping [] [] [] nestedFacts)) in
  map (fun n => (node_id n, node_y n)) (nodes g)
  = [("jsx-jsx-1", 80); ("jsx-jsx-2", 160); ("jsx-jsx-3", 240)]
  ∧ map (fun e => (nodeId (edge_from e), nodeId (edge_to e))) (edges g)
    = [("jsx-jsx-1", "jsx-jsx-2"); ("jsx-jsx-2", "jsx-jsx-3")].
Proof. split; vm_compute; reflexivity. Qed.

(** ** Edge identities *)

(** C10 at an effect whose dependency array is [[count, count]]: the
    two dependency facts give two edges of one identity. *)
Theorem repeated_dependency_repeats_edge_identity :
  let g := buildGraphFromAnalysis (Some repeatedDependencyAnalysis) in
  map dep_name (eff_dependencies repeatedDependencyEffect) = ["count"; "count"]
  ∧ map edge_id (edges g)
    = ["dep-state-hook-1-effect-effect-1-count";
       "dep-state-hook-1-effect-effect-1-count";
       "mut-effect-effect-1-state-hook-1-setCount"]
  ∧ ¬ NoDup (map edge_id (edges g)).
Proof.
  intros g.
  assert (Hids : map edge_id (edges g)
                 = ["dep-state-hook-1-effect-effect-1-count";
                    "dep-state-hook-1-effect-effect-1-count";
                    "mut-effect-effect-1-state-hook-1-setCount"])
    by (vm_compute; reflexivity).
  split_and!; [reflexivity | exact Hids |].
  rewrite Hids. intros Hnodup. apply NoDup_cons in Hnodup as [Hnotin _].
  apply Hnotin. left.
Qed.

(** ** Further properties of graph assembly *)

Lemma HookKind_eqb_eq (a b : HookKind) : HookKind_eqb a b = true ↔ a = b.
Proof. destruct a, b; simpl; split; intros H; try done. Qed.

Lemma StateScope_eqb_eq (a b : StateScope) : StateScope_eqb a b = true ↔ a = b.
Proof. destruct a, b; simpl; split; intros H; try done. Qed.

Lemma isStateKind_elem (k : HookKind) :
  isStateKind k = true ↔ k ∈ [useState; zustand; react_query].
Proof.
  destruct k; simpl; split; intros H; try done;
    try (repeat (first [by left | right]));
    exfalso; repeat (apply elem_of_cons in H as [H|H]; [discriminate|]);
    by apply elem_of_nil in H.
Qed.

Lemma layoutColumnNodes_ids_labels
    (items : list LayoutItem) (kind : GraphNodeKind) (x startY gapY : Z) :
  map (fun n => (node_id n, node_label n))
      (layoutColumnNodes items kind x startY gapY)
  = map (fun item =>
           (GraphNodeKind_str kind +:+ "-" +:+ item_id item, item_label item))
        items.
Proof.
  unfold layoutColumnNodes. apply list_eq. intros i.
  rewrite !list_lookup_fmap, list_lookup_imap.
  by destruct (items !! i).
Qed.

Lemma layoutColumnNodes_geometry
    (items : list LayoutItem) (kind : GraphNodeKind) (x startY gapY : Z)
    (i : nat) (n : GraphNode) :
  layoutColumnNodes items kind x startY gapY !! i = Some n →
  node_x n = x ∧ node_y n = startY + Z.of_nat i * gapY
  ∧ node_width n = 120 ∧ node_height n = 32.
Proof.
  unfold layoutColumnNodes. rewrite list_lookup_imap_Some.
  by intros (item & _ & ->).
Qed.

Lemma independentNodesOf_column (hooks : list AnalyzedHook) :
  map (fun n => (node_id n, node_label n)) (independentNodesOf hooks)
  = refColumn hooks.
Proof.
  unfold independentNodesOf, refColumn, independentItems.
  rewrite layoutColumnNodes_ids_labels, map_map. simpl.
  f_equal. apply list_filter_iff. intros h. apply HookKind_eqb_eq.
Qed.

Lemma stateNodesOf_column (hooks : list AnalyzedHook) :
  map (fun n => (node_id n, node_label n)) (stateNodesOf hooks)
  = stateColumn hooks.
Proof.
  unfold stateNodesOf, stateColumn, stateItems.
  rewrite layoutColumnNodes_ids_labels, map_map. simpl.
  rewrite (list_filter_iff _ (fun h => hook_hookKind h
                                       ∈ [useState; zustand; react_query])).
  2:{ intros h. apply isStateKind_elem. }
  apply map_ext. intros h. f_equal.
  destruct (hook_scope h); reflexivity.
Qed.

Lemma effectNodesOf_column
    (effects : list AnalyzedEffect) (callbacks : list AnalyzedCallback) :
  map (fun n => (node_id n, node_label n)) (effectNodesOf effects callbacks)
  = effectColumn effects callbacks.
Proof.
  unfold effectNodesOf, effectColumn, effectItems.
  by rewrite layoutColumnNodes_ids_labels, map_app, !map_map.
Qed.

Lemma assembled_columns
    (hooks : list AnalyzedHook) (effects : list AnalyzedEffect)
    (callbacks : list AnalyzedCallback)
    (jsxN : list GraphNode) (treeE : list GraphEdge) (g : GraphLayout) :
  Assembled hooks effects callbacks jsxN treeE g →
  columnOf NIndependent g = refColumn hooks
  ∧ columnOf NState g = stateColumn hooks
  ∧ columnOf NEffect g = effectColumn effects callbacks
  ∧ columnOf NVariable g = []
  ∧ columnOf NExternal g = [].
Proof.
  intros Hg. unfold columnOf.
  rewrite !(nodesOfKind_assembled _ _ _ _ _ _ Hg).
  split_and!; auto using independentNodesOf_column, stateNodesOf_column,
    effectNodesOf_column.
Qed.

(** X1: in both layouts the independent nodes are the [useRef] hooks,
    the state nodes the [useState], zustand and react-query hooks, the
    effect nodes the effects followed by the callbacks, each column in
    the order of its facts, with the identity prefixed by the kind and
    the label of the fact (a global state hook gets the suffix
    [ (global)], a callback without a name the label [callback]); the
    flat layout lists the element facts in their order; no node has the
    kind variable or external. *)
Theorem columns_follow_facts :
  (∀ analysis,
     let g := buildGraphFromAnalysis (Some analysis) in
     columnOf NIndependent g = refColumn (hooks analysis)
     ∧ columnOf NState g = stateColumn (hooks analysis)
     ∧ columnOf NEffect g
       = effectColumn (effects analysis) (callbacks analysis)
     ∧ columnOf NJsx g
       = map (fun j => ("jsx-" +:+ jsx_id j, jsx_component j))
             (jsxNodes analysis)
     ∧ columnOf NVariable g = [] ∧ columnOf NExternal g = [])
  ∧ (∀ mappingResult,
       let g := buildGraphFromMappingResult (Some mappingResult) in
       columnOf NIndependent g = refColumn (Mapping.hooks mappingResult)
       ∧ columnOf NState g = stateColumn (Mapping.hooks mappingResult)
       ∧ columnOf NEffect g
         = effectColumn (Mapping.effects mappingResult)
                        (Mapping.callbacks mappingResult)
       ∧ columnOf NVariable g = [] ∧ columnOf NExternal g = []).
Proof.
  split.
  - intros analysis g.
    destruct (assembled_columns _ _ _ _ _ _
                (buildGraphFromAnalysis_assembled analysis))
      as (H1 & H2 & H3 & H4 & H5).
    split_and!; try done.
    unfold columnOf.
    rewrite (nodesOfKind_assembled _ _ _ _ _ _
               (buildGraphFromAnalysis_assembled analysis)).
    unfold flatJsxNodesOf. by rewrite layoutColumnNodes_ids_labels, map_map.
  - intros mappingResult g.
    destruct (assembled_columns _ _ _ _ _ _
                (buildGraphFromMappingResult_assembled mappingResult))
      as (H1 & H2 & H3 & H4 & H5).
    done.
Qed.

(** X2: in both layouts the independent, state and effect nodes stand
    in their columns at [x] 80, 300 and 740, the node at index [i] of
    its column at [y] 80 plus [i] times 50, 40 and 40; in the flat
    layout the element nodes stand at [x] 960, [y] 80 plus [i] times
    32; every such node is 120 wide and 32 high. *)
Theorem column_nodes_geometry :
  (∀ analysis,
     let g := buildGraphFromAnalysis (Some analysis) in
     columnGeometry g NIndependent 80 50 ∧ columnGeometry g NState 300 40
     ∧ columnGeometry g NEffect 740 40 ∧ columnGeometry g NJsx 960 32)
  ∧ (∀ mappingResult,
       let g := buildGraphFromMappingResult (Some mappingResult) in
       columnGeometry g NIndependent 80 50 ∧ columnGeometry g NState 300 40
       ∧ columnGeometry g NEffect 740 40).
Proof.
  split.
  - intros analysis g. unfold columnGeometry.
    rewrite !(nodesOfKind_assembled _ _ _ _ _ _
                (buildGraphFromAnalysis_assembled analysis)).
    split_and!; intros i n Hn;
      by apply layoutColumnNodes_geometry in Hn.
  - intros mappingResult g. unfold columnGeometry.
    rewrite !(nodesOfKind_assembled _ _ _ _ _ _
                (buildGraphFromMappingResult_assembled mappingResult)).
    split_and!; intros i n Hn;
      by apply layoutColumnNodes_geometry in Hn.
Qed.

Lemma column_nodes_geometry_witness :
  let g := buildGraphFromAnalysis (Some threeRefsTwoStates) in
  ∃ n, nodesOfKind NIndependent g !! 2%nat = Some n
       ∧ node_x n = 80 ∧ node_y n = 180
       ∧ node_width n = 120 ∧ node_height n = 32.
Proof.
  intros g.
  assert (Hn : ∃ n, nodesOfKind NIndependent g !! 2%nat = Some n).
  { eexists. vm_compute. reflexivity. }
  destruct Hn as [n Hn]. exists n. split; [exact Hn|].
  destruct (proj1 column_nodes_geometry threeRefsTwoStates) as (Hcol & _).
  exact (Hcol 2%nat n Hn).
Defined.

(** ** The depth bands *)

Lemma depthKeys_snoc (items : list JsxLayoutItem) (item : JsxLayoutItem) :
  depthKeys (items ++ [item])
  = if decide (jli_depth item ∈ depthKeys items)
    then depthKeys items else depthKeys items ++ [jli_depth item].
Proof. unfold depthKeys. by rewrite fold_left_app. Qed.

Lemma elem_of_depthKeys (items : list JsxLayoutItem) (d : Z) :
  d ∈ depthKeys items ↔ ∃ item, item ∈ items ∧ jli_depth item = d.
Proof.
  induction items as [|item items IH] using rev_ind.
  - split; [intros H; by apply elem_of_nil in H|].
    intros (item & H & _). by apply elem_of_nil in H.
  - rewrite depthKeys_snoc. split.
    + intros H. destruct (decide _) as [Hin|Hnin].
      * apply IH in H as (it & Hit & Hd). exists it.
        split; [apply elem_of_app; by left | done].
      * apply elem_of_app in H as [H|H].
        -- apply IH in H as (it & Hit & Hd). exists it.
           split; [apply elem_of_app; by left | done].
        -- apply list_elem_of_singleton in H. exists item.
           split; [apply elem_of_app; right; by apply list_elem_of_singleton
                  | done].
    + intros (it & Hit & Hd). apply elem_of_app in Hit as [Hit|Hit].
      * assert (d ∈ depthKeys items) by (apply IH; eauto).
        destruct (decide _); [done | apply elem_of_app; by left].
      * apply list_elem_of_singleton in Hit as ->.
        destruct (decide _) as [Hin|Hnin]; [by rewrite <- Hd|].
        apply elem_of_app. right. by apply list_elem_of_singleton.
Qed.

Lemma depthKeys_NoDup (items : list JsxLayoutItem) : NoDup (depthKeys items).
Proof.
  induction items as [|item items IH] using rev_ind; [constructor|].
  rewrite depthKeys_snoc. destruct (decide _) as [Hin|Hnin]; [done|].
  apply NoDup_app. split_and!; [done| |apply NoDup_singleton].
  intros x Hx Hx'. apply list_elem_of_singleton in Hx' as ->. done.
Qed.

Lemma bandOf_snoc_same (items : list JsxLayoutItem) (item : JsxLayoutItem) :
  bandOf (jli_depth item) (items ++ [item])
  = bandOf (jli_depth item) items ++ [item].
Proof.
  unfold bandOf. rewrite filter_app. f_equal.
  by rewrite filter_cons_True.
Qed.

Lemma bandOf_snoc_other
    (d : Z) (items : list JsxLayoutItem) (item : JsxLayoutItem) :
  d ≠ jli_depth item → bandOf d (items ++ [item]) = bandOf d items.
Proof.
  intros Hne. unfold bandOf. rewrite filter_app.
  rewrite (filter_cons_False _ item) by congruence.
  by rewrite app_nil_r.
Qed.

Lemma groupPush_bands
    (ks : list Z) (items : list JsxLayoutItem) (item : JsxLayoutItem) :
  NoDup ks →
  groupPush item (map (fun d => (d, bandOf d items)) ks)
  = if decide (jli_depth item ∈ ks)
    then map (fun d => (d, bandOf d (items ++ [item]))) ks
    else map (fun d => (d, bandOf d (items ++ [item]))) ks
         ++ [(jli_depth item, [item])].
Proof.
  induction ks as [|k ks IH]; intros Hnd; simpl.
  - reflexivity.
  - apply NoDup_cons in Hnd as [Hk Hnd].
    destruct (Z.eqb_spec k (jli_depth item)) as [->|Hne].
    + rewrite decide_True by left.
      rewrite bandOf_snoc_same. f_equal.
      apply map_ext_in. intros d Hd. apply list_elem_of_In in Hd.
      rewrite bandOf_snoc_other; [done|]. intros ->. done.
    + rewrite IH by done. rewrite (bandOf_snoc_other k) by done.
      destruct (decide (jli_depth item ∈ ks)) as [Hin|Hnin].
      * rewrite decide_True; [done | by right].
      * rewrite decide_False; [done|].
        intros H. apply elem_of_cons in H as [H|H]; [congruence | done].
Qed.

(** The map filled by the grouping loop: in the order in which the
    depths first occur, each depth with the items of that depth. *)
Lemma groupByDepth_bands (items : list JsxLayoutItem) :
  groupByDepth items = map (fun d => (d, bandOf d items)) (depthKeys items).
Proof.
  induction items as [|item items IH] using rev_ind; [done|].
  unfold groupByDepth in *. rewrite fold_left_app. simpl. rewrite IH.
  rewrite groupPush_bands by apply depthKeys_NoDup.
  rewrite depthKeys_snoc.
  destruct (decide _) as [Hin|Hnin]; [done|].
  rewrite map_app. simpl. f_equal. f_equal. f_equal.
  rewrite bandOf_snoc_same.
  assert (bandOf (jli_depth item) items = []) as ->; [|done].
  unfold bandOf. apply filter_none, Forall_forall. intros it Hit Hd.
  apply Hnin, elem_of_depthKeys. eauto.
Qed.

Lemma filter_lookup_rank {A : Type} (P : A → Prop) `{!∀ x, Decision (P x)}
    (l : list A) (k : nat) (x : A) :
  l !! k = Some x → P x →
  filter P l !! length (filter P (take k l)) = Some x.
Proof.
  revert k. induction l as [|a l IH]; intros k Hk Hx; [done|].
  destruct k as [|k]; simpl in *.
  - injection Hk as ->. by rewrite filter_cons_True.
  - destruct (decide (P a)).
    + rewrite !filter_cons_True by done. simpl. by apply IH.
    + rewrite !filter_cons_False by done. by apply IH.
Qed.

Lemma bandOf_jsxLayoutItems (d : Z) (facts : list Mapping.AnalyzedJsxNode) :
  bandOf d (jsxLayoutItems facts)
  = jsxLayoutItems (filter (fun j => Mapping.depth j = d) facts).
Proof.
  unfold bandOf, jsxLayoutItems.
  induction facts as [|j facts IH]; [done|]. simpl.
  destruct (decide (Mapping.depth j = d)) as [Hd|Hd].
  - rewrite !filter_cons_True by done. simpl. by rewrite IH.
  - rewrite !filter_cons_False by done. done.
Qed.

Lemma jsxTotal_groupPush
    (item : JsxLayoutItem) (groups : list (Z * list JsxLayoutItem)) :
  length (flat_map snd (groupPush item groups))
  = S (length (flat_map snd groups)).
Proof.
  induction groups as [|[d arr] groups IH]; simpl; [done|].
  destruct (d =? jli_depth item); simpl.
  - rewrite !length_app. simpl. lia.
  - rewrite !length_app, IH. lia.
Qed.

Lemma jsxTotal_groupByDepth (items : list JsxLayoutItem) :
  length (flat_map snd (groupByDepth items)) = length items.
Proof.
  unfold groupByDepth.
  induction items as [|item items IH] using rev_ind; [done|].
  rewrite fold_left_app. simpl.
  rewrite jsxTotal_groupPush, IH, length_app. simpl. lia.
Qed.

Lemma sortEntries_Permutation (entries : list (Z * list JsxLayoutItem)) :
  sortEntries entries ≡ₚ entries.
Proof.
  unfold sortEntries. induction entries as [|e entries IH]; simpl; [done|].
  rewrite <- IH at 2. clear IH.
  induction (fold_right insertEntry [] entries) as [|h t IHt]; simpl; [done|].
  destruct (fst e <=? fst h); [done|].
  rewrite IHt. apply Permutation_swap.
Qed.

Lemma length_layoutJsxByDepth (colX : ColX) (items : list JsxLayoutItem) :
  length (layoutJsxByDepth colX items) = length items.
Proof.
  unfold layoutJsxByDepth.
  rewrite <- (jsxTotal_groupByDepth items).
  rewrite <- (Permutation_length
                (Permutation_flat_map snd
                   (sortEntries_Permutation (groupByDepth items)))).
  induction (sortEntries (groupByDepth items)) as [|[d arr] l IH]; [done|].
  simpl. rewrite !length_app, IH. unfold depthBandNodes.
  by rewrite length_imap.
Qed.

Lemma insertEntry_sorted
    (e : Z * list JsxLayoutItem) (sorted : list (Z * list JsxLayoutItem)) :
  StronglySorted (fun a b => fst a ≤ fst b) sorted →
  StronglySorted (fun a b => fst a ≤ fst b) (insertEntry e sorted).
Proof.
  induction 1 as [|h t Hsorted IH Hall]; simpl.
  - repeat constructor.
  - destruct (Z.leb_spec (fst e) (fst h)) as [Hle|Hgt].
    + constructor; [by constructor|].
      constructor; [done|].
      eapply Forall_impl; [exact Hall|]. simpl. intros x Hx. lia.
    + constructor; [done|].
      apply Forall_forall. intros x Hx.
      apply elem_of_insertEntry in Hx as [->|Hx]; [lia|].
      rewrite Forall_forall in Hall. by apply Hall.
Qed.

Lemma sortEntries_sorted (entries : list (Z * list JsxLayoutItem)) :
  StronglySorted (fun a b => fst a ≤ fst b) (sortEntries entries).
Proof.
  unfold sortEntries. induction entries as [|e entries IH]; simpl.
  - constructor.
  - by apply insertEntry_sorted.
Qed.

Lemma sorted_NoDup_strict (ds : list Z) :
  StronglySorted Z.le ds → NoDup ds → StronglySorted Z.lt ds.
Proof.
  induction 1 as [|d ds Hsorted IH Hall]; intros Hnd; [constructor|].
  apply NoDup_cons in Hnd as [Hd Hnd].
  constructor; [by apply IH|].
  apply Forall_forall. intros x Hx. rewrite Forall_forall in Hall.
  specialize (Hall x Hx). assert (d ≠ x) by (intros ->; done). lia.
Qed.

(** The sorted entries: the depths in increasing order, each with the
    items of that depth. *)
Lemma sortEntries_groupByDepth (items : list JsxLayoutItem) :
  ∃ ds,
    StronglySorted Z.lt ds
    ∧ (∀ d, d ∈ ds ↔ ∃ item, item ∈ items ∧ jli_depth item = d)
    ∧ sortEntries (groupByDepth items)
      = map (fun d => (d, bandOf d items)) ds.
Proof.
  set (entries := sortEntries (groupByDepth items)).
  assert (Hperm : entries ≡ₚ map (fun d => (d, bandOf d items)) (depthKeys items)).
  { unfold entries. rewrite sortEntries_Permutation. by rewrite groupByDepth_bands. }
  assert (Hkeys : map fst entries ≡ₚ depthKeys items).
  { rewrite Hperm, map_map. simpl. by rewrite map_id. }
  exists (map fst entries). split_and!.
  - apply sorted_NoDup_strict.
    + pose proof (sortEntries_sorted (groupByDepth items)) as Hs.
      fold entries in Hs. clear -Hs.
      induction Hs as [|e l Hs IH Hall]; simpl; constructor; [done|].
      by apply Forall_fmap.
    + rewrite Hkeys. apply depthKeys_NoDup.
  - intros d. rewrite Hkeys. apply elem_of_depthKeys.
  - rewrite map_map. symmetry.
    rewrite <- (map_id entries) at 2.
    apply map_ext_in. intros [d arr] Hin. apply list_elem_of_In in Hin.
    rewrite Hperm in Hin. apply list_elem_of_fmap in Hin as (d' & [= -> ->] & _).
    done.
Qed.

Lemma depthRank_items
    (facts : list Mapping.AnalyzedJsxNode) (k : nat) (d : Z) :
  depthRank facts k d = length (bandOf d (take k (jsxLayoutItems facts))).
Proof.
  unfold depthRank.
  assert (take k (jsxLayoutItems facts) = jsxLayoutItems (take k facts)) as ->.
  { unfold jsxLayoutItems. symmetry. apply fmap_take. }
  rewrite bandOf_jsxLayoutItems. unfold jsxLayoutItems.
  by rewrite length_map.
Qed.

(** The node of the element fact at index [k]. *)
Lemma depthJsxNodesOf_fact
    (facts : list Mapping.AnalyzedJsxNode)
    (k : nat) (j : Mapping.AnalyzedJsxNode) :
  facts !! k = Some j →
  {| node_id := "jsx-" +:+ Mapping.id j;
     node_label := Mapping.component j;
     node_kind := NJsx;
     node_x := 960;
     node_y :=
       80 + Mapping.depth j * 80
       + Z.of_nat (depthRank facts k
                     (Mapping.depth j)) * 32;
     node_width := 120;
     node_height := 32;
     node_meta := Some (MetaJsx (Mapping.depth j) (Mapping.props j)) |}
  ∈ depthJsxNodesOf facts.
Proof.
  intros Hk. unfold depthJsxNodesOf.
  set (item := {| jli_id := Mapping.id j;
                  jli_label := Mapping.component j;
                  jli_depth := Mapping.depth j;
                  jli_meta := Some (MetaJsx (Mapping.depth j) (Mapping.props j)) |}).
  assert (Hitem : jsxLayoutItems facts !! k = Some item).
  { unfold jsxLayoutItems. by rewrite list_lookup_fmap, Hk. }
  apply elem_of_layoutJsxByDepth.
  exists (Mapping.depth j), (bandOf (Mapping.depth j) (jsxLayoutItems facts)),
    (depthRank facts k (Mapping.depth j)), item.
  split_and!.
  - rewrite groupByDepth_bands.
    apply (list_elem_of_fmap_2' _ _ (Mapping.depth j)); [|done].
    apply elem_of_depthKeys. exists item.
    split; [by eapply list_elem_of_lookup_2 | done].
  - rewrite depthRank_items.
    by apply (filter_lookup_rank
                (fun it => jli_depth it = Mapping.depth j)).
  - reflexivity.
Qed.

(** X3: in the depth-grouped layout the element fact at index [k] has a
    node with its identity, label, depth and props, at [x] 960 and at
    [y] 80 plus 80 per level of depth plus 32 per earlier fact of the
    same depth, in a box of 120 by 32. *)
Theorem depth_band_geometry
    (mappingResult : Mapping.MappingResult)
    (k : nat) (j : Mapping.AnalyzedJsxNode) :
  Mapping.jsxNodes mappingResult !! k = Some j →
  {| node_id := "jsx-" +:+ Mapping.id j;
     node_label := Mapping.component j;
     node_kind := NJsx;
     node_x := 960;
     node_y :=
       80 + Mapping.depth j * 80
       + Z.of_nat (depthRank (Mapping.jsxNodes mappingResult) k
                     (Mapping.depth j)) * 32;
     node_width := 120;
     node_height := 32;
     node_meta := Some (MetaJsx (Mapping.depth j) (Mapping.props j)) |}
  ∈ nodesOfKind NJsx (buildGraphFromMappingResult (Some mappingResult)).
Proof.
  intros Hk.
  rewrite (nodesOfKind_assembled _ _ _ _ _ _
             (buildGraphFromMappingResult_assembled mappingResult)).
  by apply depthJsxNodesOf_fact.
Qed.

Lemma depth_band_geometry_witness :
  let g := buildGraphFromMappingResult
             (Some (sampleMapping [] [] [] wideShallowFacts)) in
  ∃ n, n ∈ nodesOfKind NJsx g
       ∧ node_id n = "jsx-jsx-4" ∧ node_y n = 144.
Proof.
  intros g. eexists. split.
  - apply (depth_band_geometry
             (sampleMapping [] [] [] wideShallowFacts) 3%nat
             (sampleElement 4 "d" 0 None)).
    reflexivity.
  - split; reflexivity.
Defined.

(** X4: the depth-grouped layout lists the element nodes band by band,
    the depths in increasing order and, within a depth, the facts in
    their order; it has one element node per fact. *)
Theorem element_column_by_depth (mappingResult : Mapping.MappingResult) :
  let g := buildGraphFromMappingResult (Some mappingResult) in
  let facts := Mapping.jsxNodes mappingResult in
  (∃ ds,
     StronglySorted Z.lt ds
     ∧ (∀ d, d ∈ ds ↔ ∃ j, j ∈ facts ∧ Mapping.depth j = d)
     ∧ columnOf NJsx g
       = flat_map
           (fun d =>
              map (fun j => ("jsx-" +:+ Mapping.id j, Mapping.component j))
                  (filter (fun j => Mapping.depth j = d) facts)) ds)
  ∧ length (nodesOfKind NJsx g) = length facts.
Proof.
  intros g facts. unfold columnOf.
  rewrite (nodesOfKind_assembled _ _ _ _ _ _
             (buildGraphFromMappingResult_assembled mappingResult)).
  unfold depthJsxNodesOf. fold facts. split.
  - destruct (sortEntries_groupByDepth (jsxLayoutItems facts))
      as (ds & Hsorted & Hds & Heq).
    exists ds. split_and!; [done| |].
    + intros d. rewrite Hds. unfold jsxLayoutItems. split.
      * intros (item & Hin & Hd).
        apply list_elem_of_fmap in Hin as (j & -> & Hj). eauto.
      * intros (j & Hj & Hd). eexists. split.
        -- by apply (list_elem_of_fmap_2' _ _ j).
        -- done.
    + unfold layoutJsxByDepth. rewrite Heq. clear.
      induction ds as [|d ds IH]; [done|].
      simpl. rewrite map_app, IH. f_equal.
      rewrite bandOf_jsxLayoutItems. unfold depthBandNodes, jsxLayoutItems.
      apply list_eq. intros i.
      rewrite !list_lookup_fmap, list_lookup_imap, list_lookup_fmap.
      by destruct (filter _ facts !! i).
  - rewrite length_layoutJsxByDepth. unfold jsxLayoutItems. apply length_map.
Qed.

(** ** The edges of an assembled layout, loop by loop *)

Lemma append_inj_r (p x y : string) : p +:+ x = p +:+ y → x = y.
Proof. induction p as [|c p IH]; simpl; [done|]. intros [= H]. auto. Qed.



Section AssembledEdges.

Variables (hooks : list AnalyzedHook) (effects : list AnalyzedEffect)
          (callbacks : list AnalyzedCallback)
          (jsxN : list GraphNode) (treeE : list GraphEdge)
          (g : GraphLayout).
Hypothesis Hg : Assembled hooks effects callbacks jsxN treeE g.

Let ind := independentNodesOf hooks.
Let st := stateNodesOf hooks.
Let eff := effectNodesOf effects callbacks.

Lemma state_node_id (n : GraphNode) : n ∈ st → ∃ x, node_id n = "state-" +:+ x.
Proof.
  intros Hn. apply elem_of_layoutColumnNodes in Hn as (i & item & _ & ->).
  by exists (item_id item).
Qed.

Lemma effect_node_id (n : GraphNode) : n ∈ eff → ∃ x, node_id n = "effect-" +:+ x.
Proof.
  intros Hn. apply elem_of_layoutColumnNodes in Hn as (i & item & _ & ->).
  by exists (item_id item).
Qed.

Lemma jsx_node_id (n : GraphNode) :
  n ∈ jsxN → Js.startsWith (node_id n) "jsx-" = true.
Proof.
  intros Hn. destruct Hg as (_ & _ & Hjsx & _).
  rewrite Forall_forall in Hjsx. by apply Hjsx.
Qed.





Lemma column_node_width (n : GraphNode) :
  n ∈ ind ∨ n ∈ st ∨ n ∈ eff → node_width n = 120.
Proof.
  intros [H|[H|H]];
    by apply elem_of_layoutColumnNodes in H as (i & item & _ & ->).
Qed.

Lemma assembled_anchoredEdge (e : GraphEdge) :
  Forall (fun n => node_width n = 120) jsxN →
  e ∈ edges g → anchoredEdge g e.
Proof.
  intros Hw He. rewrite Forall_forall in Hw.
  assert (Hnode : ∀ n, n ∈ ind ∨ n ∈ st ∨ n ∈ eff ∨ n ∈ jsxN →
                       n ∈ nodes g ∧ node_width n = 120).
  { intros n Hn. split.
    - rewrite (assembled_nodes _ _ _ _ _ _ Hg), !elem_of_app. tauto.
    - destruct Hn as [H|[H|[H|H]]]; [apply column_node_width; tauto..|auto]. }
  assert (Hanchor : ∀ a b label id kind,
             (a ∈ ind ∨ a ∈ st ∨ a ∈ eff ∨ a ∈ jsxN) →
             (b ∈ ind ∨ b ∈ st ∨ b ∈ eff ∨ b ∈ jsxN) →
             anchoredEdge g {| edge_id := id; edge_from := fromPoint a;
                               edge_to := toPoint b; edge_kind := kind;
                               edge_label := label |}).
  { intros a b label id kind Ha Hb.
    destruct (Hnode a Ha) as [Hain Haw]. destruct (Hnode b Hb) as [Hbin Hbw].
    exists a, b. simpl. rewrite Haw, Hbw. done. }
  apply (assembled_edge_origin _ _ _ _ _ _ Hg) in He.
  destruct He as [f t Hf Ht|sn en name Hsn Hen|tag en sn setter Hen Hsn
                 |fn jn name Hfn Hjn|p c Hp Hc].
  - apply Hanchor; tauto.
  - apply find_Some_elem in Hsn as [Hsn _]. apply Hanchor; tauto.
  - apply find_Some_elem in Hsn as [Hsn _]. apply Hanchor; tauto.
  - apply Hanchor; tauto.
  - apply Hanchor; tauto.
Qed.

Lemma assembled_edgeKindByIdentity (e : GraphEdge) :
  e ∈ edges g → edgeKindByIdentity e.
Proof.
  rewrite (assembled_edges _ _ _ _ _ _ Hg), !elem_of_app.
  unfold edgeKindByIdentity.
  intros [H|[H|[H|[H|H]]]].
  - apply elem_of_flowEdges in H as (from & to & _ & _ & ->). simpl.
    split_and!; try done; split; try done; try (intros [?|?]; done).
    intros _. left. apply (startsWith_app "flow-").
  - apply elem_of_effectEdges in H as (effect & en & _ & _ & H).
    destruct H as [(dep & sn & _ & _ & ->)|H].
    + simpl. split_and!; try done; split; try done;
        try (intros [?|?]; done).
      intros _. left. apply (startsWith_app "dep-").
    + apply elem_of_setterEdges in H as (setter & sn & _ & _ & ->). simpl.
      split_and!; try done; split; try done; try (intros [?|?]; done).
      intros _. left. apply (startsWith_app "mut-").
  - apply elem_of_callbackEdges in H as (cb & cn & _ & _ & H).
    apply elem_of_setterEdges in H as (setter & sn & _ & _ & ->). simpl.
    split_and!; try done; split; try done; try (intros [?|?]; done).
    intros _. right. apply (startsWith_app "cb-mut-").
  - apply elem_of_jsxPropEdges in H as (fn & jn & name & _ & _ & ->). simpl.
    split_and!; try done; split; try done; try (intros [?|?]; done).
    intros _. right. apply (startsWith_app "jsx-prop-").
  - destruct Hg as (_ & _ & _ & Htree). rewrite Forall_forall in Htree.
    destruct (Htree e H) as (p & c & _ & _ & ->). simpl.
    split_and!; try done; split; try done; try (intros [?|?]; done).
    intros _. right. apply (startsWith_app "jsx-tree-").
Qed.

End AssembledEdges.

(** ** Further claims about the edges *)







Lemma flatJsxNodesOf_width (facts : list AnalyzedJsxNode) :
  Forall (fun n => node_width n = 120) (flatJsxNodesOf facts).
Proof.
  apply Forall_forall. intros n Hn.
  by apply elem_of_layoutColumnNodes in Hn as (i & item & _ & ->).
Qed.

Lemma depthJsxNodesOf_width (facts : list Mapping.AnalyzedJsxNode) :
  Forall (fun n => node_width n = 120) (depthJsxNodesOf facts).
Proof.
  apply Forall_forall. intros n Hn.
  by apply elem_of_layoutJsxByDepth in Hn as (d & arr & i & item & _ & _ & ->).
Qed.

Lemma assembled_mutation_runs_left
    (hooks : list AnalyzedHook) (effects : list AnalyzedEffect)
    (callbacks : list AnalyzedCallback)
    (jsxN : list GraphNode) (treeE : list GraphEdge) (g : GraphLayout)
    (e : GraphEdge) :
  Assembled hooks effects callbacks jsxN treeE g →
  e ∈ edges g → edge_kind e = EStateMutation →
  ep_x (edge_from e) = 800 ∧ ep_x (edge_to e) = 240.
Proof.
  intros Hg He Hk. apply (assembled_edge_origin _ _ _ _ _ _ Hg) in He.
  destruct He as [| |tag en sn setter Hen Hsn| |]; try discriminate.
  apply find_Some_elem in Hsn as [Hsn _].
  apply elem_of_layoutColumnNodes in Hen as (i & item & _ & ->).
  apply elem_of_layoutColumnNodes in Hsn as (i' & item' & _ & ->).
  split; reflexivity.
Qed.

(** X7: every edge of a layout starts at the middle of the right side
    of a node of that layout, the node it names as its source, and ends
    at the middle of the left side of the node it names as its
    destination; this holds whatever the order of the two columns, so a
    state-mutation edge starts at [x] 800 and ends at [x] 240. *)
Theorem edges_anchored_on_nodes :
  (∀ analysis e,
     e ∈ edges (buildGraphFromAnalysis (Some analysis)) →
     anchoredEdge (buildGraphFromAnalysis (Some analysis)) e
     ∧ (edge_kind e = EStateMutation →
        ep_x (edge_from e) = 800 ∧ ep_x (edge_to e) = 240))
  ∧ (∀ mappingResult e,
       e ∈ edges (buildGraphFromMappingResult (Some mappingResult)) →
       anchoredEdge (buildGraphFromMappingResult (Some mappingResult)) e
       ∧ (edge_kind e = EStateMutation →
          ep_x (edge_from e) = 800 ∧ ep_x (edge_to e) = 240)).
Proof.
  split.
  - intros analysis e He.
    pose proof (buildGraphFromAnalysis_assembled analysis) as Hg. split.
    + eapply assembled_anchoredEdge; [exact Hg | apply flatJsxNodesOf_width | done].
    + by eapply assembled_mutation_runs_left.
  - intros mappingResult e He.
    pose proof (buildGraphFromMappingResult_assembled mappingResult) as Hg.
    split.
    + eapply assembled_anchoredEdge; [exact Hg | apply depthJsxNodesOf_width | done].
    + by eapply assembled_mutation_runs_left.
Qed.

Lemma edges_anchored_on_nodes_witness :
  let g := buildGraphFromAnalysis (Some repeatedDependencyAnalysis) in
  ∃ e, e ∈ edges g ∧ edge_kind e = EStateMutation
       ∧ anchoredEdge g e
       ∧ ep_x (edge_from e) = 800 ∧ ep_x (edge_to e) = 240.
Proof.
  intros g.
  assert (He : ∃ e, e ∈ edges g ∧ edge_kind e = EStateMutation).
  { eexists. split.
    - vm_compute. do 2 (apply elem_of_cons; right). apply elem_of_cons. by left.
    - reflexivity. }
  destruct He as (e & He & Hk). exists e.
  destruct (proj1 edges_anchored_on_nodes repeatedDependencyAnalysis e He)
    as [Hanchor Hleft].
  destruct (Hleft Hk). done.
Defined.

(** X9: the kind of every edge can be read from its identity: [flow-]
    and [jsx-tree-] are flow edges, [dep-] and [jsx-prop-] are
    state-dependency edges, [mut-] and [cb-mut-] state-mutation edges;
    no edge has the kind external; the flow edges, and only they, have
    no label. *)
Theorem edge_kind_read_from_identity :
  (∀ analysis e,
     e ∈ edges (buildGraphFromAnalysis (Some analysis)) → edgeKindByIdentity e)
  ∧ (∀ mappingResult e,
       e ∈ edges (buildGraphFromMappingResult (Some mappingResult)) →
       edgeKindByIdentity e).
Proof.
  split.
  - intros analysis e He.
    eapply assembled_edgeKindByIdentity;
      [apply buildGraphFromAnalysis_assembled | done].
  - intros mappingResult e He.
    eapply assembled_edgeKindByIdentity;
      [apply buildGraphFromMappingResult_assembled | done].
Qed.

Lemma edge_kind_read_from_identity_witness :
  let g := buildGraphFromMappingResult (Some refStateMapping) in
  ∃ e, e ∈ edges g ∧ edge_kind e = EFlow ∧ edge_label e = None
       ∧ Js.startsWith (edge_id e) "jsx-tree-" = true
       ∧ edgeKindByIdentity e.
Proof.
  intros g.
  assert (He : ∃ e, e ∈ edges g ∧ edge_kind e = EFlow ∧ edge_label e = None
                    ∧ Js.startsWith (edge_id e) "jsx-tree-" = true).
  { eexists. split.
    - vm_compute. apply elem_of_cons; right. apply elem_of_cons. by left.
    - split_and!; reflexivity. }
  destruct He as (e & He & Hrest). exists e. split; [done|].
  destruct Hrest as (? & ? & ?). split_and!; try done.
  exact (proj2 edge_kind_read_from_identity refStateMapping e He).
Defined.

(** ** Node identities *)

Lemma prefixed_NoDup (p : string) (ids : list string) :
  NoDup ids → NoDup (map (fun id => p +:+ id) ids).
Proof.
  assert (Hinj : Inj eq eq (fun id => p +:+ id)).
  { intros x y. apply append_inj_r. }
  apply (NoDup_fmap_2 (fun id => p +:+ id)).
Qed.

Lemma layoutColumnNodes_ids
    (items : list LayoutItem) (kind : GraphNodeKind) (x startY gapY : Z) :
  map node_id (layoutColumnNodes items kind x startY gapY)
  = map (fun id => GraphNodeKind_str kind +:+ "-" +:+ id) (map item_id items).
Proof.
  unfold layoutColumnNodes. apply list_eq. intros i.
  rewrite !list_lookup_fmap, list_lookup_imap.
  by destruct (items !! i).
Qed.

Lemma filtered_ids_NoDup {A : Type} (f : A → string) (P : A → Prop)
    `{!∀ x, Decision (P x)} (l : list A) :
  NoDup (map f l) → NoDup (map f (filter P l)).
Proof.
  intros Hnd. eapply sublist_NoDup; [exact Hnd|].
  apply (fmap_sublist f). apply sublist_filter.
Qed.

Lemma assembled_node_ids_NoDup
    (hooks : list AnalyzedHook) (effects : list AnalyzedEffect)
    (callbacks : list AnalyzedCallback)
    (jsxN : list GraphNode) (treeE : list GraphEdge) (g : GraphLayout) :
  Assembled hooks effects callbacks jsxN treeE g →
  NoDup (map hook_id hooks) →
  NoDup (map eff_id effects ++ map cb_id callbacks) →
  NoDup (map node_id jsxN) →
  NoDup (map node_id (nodes g)).
Proof.
  intros Hg Hhooks Heffects Hjsx.
  rewrite (assembled_nodes _ _ _ _ _ _ Hg), !map_app.
  assert (Hind : ∀ x, x ∈ map node_id (independentNodesOf hooks) →
                      ∃ y, x = "independent-" +:+ y).
  { intros x Hx. apply list_elem_of_fmap in Hx as (n & -> & Hn).
    by apply (independent_node_id hooks). }
  assert (Hst : ∀ x, x ∈ map node_id (stateNodesOf hooks) →
                     ∃ y, x = "state-" +:+ y).
  { intros x Hx. apply list_elem_of_fmap in Hx as (n & -> & Hn).
    by apply (state_node_id hooks). }
  assert (Heff : ∀ x, x ∈ map node_id (effectNodesOf effects callbacks) →
                      ∃ y, x = "effect-" +:+ y).
  { intros x Hx. apply list_elem_of_fmap in Hx as (n & -> & Hn).
    by apply (effect_node_id effects callbacks). }
  assert (Hj : ∀ x, x ∈ map node_id jsxN → Js.startsWith x "jsx-" = true).
  { intros x Hx. apply list_elem_of_fmap in Hx as (n & -> & Hn).
    by apply (jsx_node_id _ _ _ _ _ _ Hg). }
  apply NoDup_app. split_and!.
  - unfold independentNodesOf, independentItems.
    rewrite layoutColumnNodes_ids. apply (prefixed_NoDup "independent-").
    rewrite map_map. simpl. by apply filtered_ids_NoDup.
  - intros x Hx Hx'. apply Hind in Hx as [y ->].
    rewrite !elem_of_app in Hx'. destruct Hx' as [H|[H|H]].
    + apply Hst in H as [z H]. discriminate.
    + apply Heff in H as [z H]. discriminate.
    + apply Hj in H. discriminate.
  - apply NoDup_app. split_and!.
    + unfold stateNodesOf, stateItems.
      rewrite layoutColumnNodes_ids. apply (prefixed_NoDup "state-").
      rewrite map_map. simpl. by apply filtered_ids_NoDup.
    + intros x Hx Hx'. apply Hst in Hx as [y ->].
      rewrite !elem_of_app in Hx'. destruct Hx' as [H|H].
      * apply Heff in H as [z H]. discriminate.
      * apply Hj in H. discriminate.
    + apply NoDup_app. split_and!.
      * unfold effectNodesOf, effectItems.
        rewrite layoutColumnNodes_ids. apply (prefixed_NoDup "effect-").
        by rewrite map_app, !map_map.
      * intros x Hx Hx'. apply Heff in Hx as [y ->].
        apply Hj in Hx'. discriminate.
      * done.
Qed.

Lemma flatJsxNodesOf_ids_NoDup (facts : list AnalyzedJsxNode) :
  NoDup (map jsx_id facts) → NoDup (map node_id (flatJsxNodesOf facts)).
Proof.
  intros H. unfold flatJsxNodesOf.
  rewrite layoutColumnNodes_ids. apply (prefixed_NoDup "jsx-").
  by rewrite map_map.
Qed.

Lemma depthJsxNodesOf_ids_NoDup (facts : list Mapping.AnalyzedJsxNode) :
  NoDup (map Mapping.id facts) → NoDup (map node_id (depthJsxNodesOf facts)).
Proof.
  intros H.
  assert (Hperm : map (fun id => "jsx-" +:+ id) (map Mapping.id facts)
                  ≡ₚ map node_id (depthJsxNodesOf facts)).
  { apply submseteq_length_Permutation.
    - apply NoDup_submseteq; [by apply prefixed_NoDup|].
      intros x Hx. rewrite map_map in Hx.
      apply list_elem_of_fmap in Hx as (j & -> & Hj).
      destruct (layoutJsxByDepth_of_item buildColumnX (jsxLayoutItems facts)
                  {| jli_id := Mapping.id j;
                     jli_label := Mapping.component j;
                     jli_depth := Mapping.depth j;
                     jli_meta := Some (MetaJsx (Mapping.depth j)
                                               (Mapping.props j)) |})
        as (n & Hn & Hid).
      { unfold jsxLayoutItems. by apply (list_elem_of_fmap_2' _ _ j). }
      simpl in Hid. rewrite <- Hid.
      by apply (list_elem_of_fmap_2' _ _ n).
    - unfold depthJsxNodesOf.
      rewrite !length_map, length_layoutJsxByDepth.
      unfold jsxLayoutItems. by rewrite length_map. }
  rewrite <- Hperm. by apply prefixed_NoDup.
Qed.

(** X8: when the hook identities are pairwise distinct, the effect and
    callback identities are pairwise distinct together, and the element
    identities are pairwise distinct, the node identities of the layout
    are pairwise distinct. *)
Theorem node_identities_unique :
  (∀ analysis,
     NoDup (map hook_id (hooks analysis)) →
     NoDup (map eff_id (effects analysis) ++ map cb_id (callbacks analysis)) →
     NoDup (map jsx_id (jsxNodes analysis)) →
     NoDup (map node_id (nodes (buildGraphFromAnalysis (Some analysis)))))
  ∧ (∀ mappingResult,
       NoDup (map hook_id (Mapping.hooks mappingResult)) →
       NoDup (map eff_id (Mapping.effects mappingResult)
              ++ map cb_id (Mapping.callbacks mappingResult)) →
       NoDup (map Mapping.id (Mapping.jsxNodes mappingResult)) →
       NoDup (map node_id
                (nodes (buildGraphFromMappingResult (Some mappingResult))))).
Proof.
  split.
  - intros analysis Hh He Hj.
    eapply assembled_node_ids_NoDup;
      [apply buildGraphFromAnalysis_assembled | done | done |].
    by apply flatJsxNodesOf_ids_NoDup.
  - intros mappingResult Hh He Hj.
    eapply assembled_node_ids_NoDup;
      [apply buildGraphFromMappingResult_assembled | done | done |].
    by apply depthJsxNodesOf_ids_NoDup.
Qed.

Lemma node_identities_unique_witness :
  NoDup (map node_id
           (nodes (buildGraphFromMappingResult (Some refStateMapping)))).
Proof.
  apply (proj2 node_identities_unique refStateMapping).
  - vm_compute. apply NoDup_cons. split; [not_in_literals|].
    apply NoDup_singleton.
  - constructor.
  - vm_compute. apply NoDup_cons. split; [not_in_literals|].
    apply NoDup_singleton.
Defined.

(** ** Duplicate removal *)

Lemma uniq_snoc (xs : list string) (x : string) :
  Js.uniq (xs ++ [x])
  = if existsb (String.eqb x) (Js.uniq xs)
    then Js.uniq xs else Js.uniq xs ++ [x].
Proof. unfold Js.uniq. by rewrite fold_left_app. Qed.

Lemma existsb_eqb_elem (x : string) (l : list string) :
  existsb (String.eqb x) l = true ↔ x ∈ l.
Proof.
  rewrite existsb_exists. split.
  - intros (y & Hy & Heq). apply String.eqb_eq in Heq as ->.
    by apply list_elem_of_In.
  - intros H. exists x. split; [by apply list_elem_of_In | apply String.eqb_refl].
Qed.

Lemma elem_of_uniq (xs : list string) (x : string) : x ∈ Js.uniq xs ↔ x ∈ xs.
Proof.
  induction xs as [|y xs IH] using rev_ind; [done|].
  rewrite uniq_snoc, elem_of_app, list_elem_of_singleton.
  destruct (existsb _ _) eqn:Hex.
  - apply existsb_eqb_elem in Hex. rewrite IH. split; [tauto|].
    intros [H| ->]; [done | by apply IH].
  - rewrite elem_of_app, list_elem_of_singleton, IH. tauto.
Qed.

Lemma uniq_NoDup (xs : list string) : NoDup (Js.uniq xs).
Proof.
  induction xs as [|y xs IH] using rev_ind; [constructor|].
  rewrite uniq_snoc. destruct (existsb _ _) eqn:Hex; [done|].
  apply NoDup_app. split_and!; [done| |apply NoDup_singleton].
  intros x Hx Hx'. apply list_elem_of_singleton in Hx' as ->.
  apply existsb_eqb_elem in Hx. congruence.
Qed.

Lemma uniq_sublist (xs : list string) : Js.uniq xs `sublist_of` xs.
Proof.
  induction xs as [|y xs IH] using rev_ind; [done|].
  rewrite uniq_snoc. destruct (existsb _ _).
  - by apply sublist_inserts_r.
  - by apply sublist_app.
Qed.

Lemma uniq_id (xs : list string) : NoDup xs → Js.uniq xs = xs.
Proof.
  induction xs as [|y xs IH] using rev_ind; [done|].
  intros Hnd. apply NoDup_app in Hnd as (Hxs & Hdisj & _).
  rewrite uniq_snoc, (IH Hxs).
  destruct (existsb _ _) eqn:Hex; [|done].
  apply existsb_eqb_elem in Hex. exfalso.
  apply (Hdisj y Hex). by apply list_elem_of_singleton.
Qed.

Lemma uniq_cons (x : string) (xs : list string) :
  Js.uniq (x :: xs) = x :: filter (fun y => y ≠ x) (Js.uniq xs).
Proof.
  induction xs as [|y xs IH] using rev_ind; [done|].
  rewrite app_comm_cons, !uniq_snoc, IH.
  destruct (decide (y = x)) as [->|Hne].
  - assert (Hhead : existsb (String.eqb x)
                      (x :: filter (fun y => y ≠ x) (Js.uniq xs)) = true).
    { apply existsb_eqb_elem. by left. }
    rewrite Hhead. destruct (existsb _ (Js.uniq xs)); [done|].
    rewrite filter_app, filter_cons_False by (intros H; by apply H).
    by rewrite filter_nil, app_nil_r.
  - assert (Hsame : existsb (String.eqb y)
                      (x :: filter (fun y => y ≠ x) (Js.uniq xs))
                    = existsb (String.eqb y) (Js.uniq xs)).
    { apply eq_true_iff_eq. rewrite !existsb_eqb_elem, elem_of_cons,
        list_elem_of_filter. tauto. }
    rewrite Hsame. destruct (existsb _ (Js.uniq xs)); [done|].
    rewrite filter_app, filter_cons_True by done.
    by rewrite filter_nil.
Qed.

Lemma uniq_firstOccurrences (xs : list string) :
  Js.uniq xs = firstOccurrences xs.
Proof.
  induction xs as [|x xs IH]; [done|].
  by rewrite uniq_cons, IH.
Qed.

(** X10: the setters and refs of an effect fact, the dependencies and
    setters of a callback fact and the props of an element fact are the
    names that were collected, each once, in the order of their first
    occurrence: the first name collected comes first, followed by the
    first occurrences of the other names among the rest.  So no name
    is held twice, no name is lost, and a collection without
    repetition is kept as it is. *)
Theorem collected_names_without_repetition :
  (∀ xs,
     Js.uniq xs = firstOccurrences xs
     ∧ NoDup (Js.uniq xs)
     ∧ (∀ x, x ∈ Js.uniq xs ↔ x ∈ xs)
     ∧ Js.uniq xs `sublist_of` xs
     ∧ (NoDup xs → Js.uniq xs = xs))
  ∧ (∀ arguments loc effectId hookKind globalStateNames,
       let effect :=
         analyzeEffectCall arguments loc effectId hookKind globalStateNames in
       eff_setters effect
       = firstOccurrences
           (flat_map effectSettersOfCall (enteredInCallback arguments))
       ∧ eff_refs effect
         = firstOccurrences
             (flat_map refsOfMember (enteredInCallback arguments))
       ∧ NoDup (eff_setters effect) ∧ NoDup (eff_refs effect))
  ∧ (∀ arguments loc parentName callbackId,
       let cb := analyzeUseCallbackCall arguments loc parentName callbackId in
       cb_dependencies cb
       = firstOccurrences (callbackDependencies (arguments !! 1%nat))
       ∧ cb_setters cb
         = firstOccurrences
             (flat_map callbackSettersOfCall (enteredInCallback arguments))
       ∧ NoDup (cb_dependencies cb) ∧ NoDup (cb_setters cb))
  ∧ (∀ path depth result,
       jsx_props (jsxFact path depth result)
       = firstOccurrences (propIdentifiers (jsxAttributes path))
       ∧ NoDup (jsx_props (jsxFact path depth result))).
Proof.
  split_and!.
  - intros xs. split_and!; auto using uniq_NoDup, uniq_sublist, uniq_id,
                             uniq_firstOccurrences.
    intros x. apply elem_of_uniq.
  - intros. split_and!; try apply uniq_NoDup;
      apply uniq_firstOccurrences.
  - intros. split_and!; try apply uniq_NoDup;
      apply uniq_firstOccurrences.
  - intros [name attributes loc children] depth result.
    split; [apply uniq_firstOccurrences | apply uniq_NoDup].
Qed.

Lemma collected_names_without_repetition_witness :
  Js.uniq ["setA"; "setB"; "setA"; "setC"; "setB"] = ["setA"; "setB"; "setC"]
  ∧ Js.uniq ["setA"; "setB"] = ["setA"; "setB"].
Proof.
  destruct collected_names_without_repetition as [Huniq _].
  split.
  - destruct (Huniq ["setA"; "setB"; "setA"; "setC"; "setB"]) as (Hfirst & _).
    rewrite Hfirst. reflexivity.
  - destruct (Huniq ["setA"; "setB"]) as (_ & _ & _ & _ & Hid).
    apply Hid. apply NoDup_cons. split; [not_in_literals | apply NoDup_singleton].
Defined.

(** ** Identities assigned in sequence *)

Lemma numToString_inj (a b : Z) : Js.numToString a = Js.numToString b → a = b.
Proof.
  unfold Js.numToString. intros Heq. apply DecimalZ.to_int_inj.
  assert (Hok : ∀ z, Z.to_int z ≠ Decimal.Pos Decimal.Nil
                     ∧ Z.to_int z ≠ Decimal.Neg Decimal.Nil).
  { intros [|p|p]; simpl; split; try discriminate;
      intros [= H]; by apply Unsigned.to_uint_nonnil in H. }
  destruct (Hok a) as [Ha1 Ha2]. destruct (Hok b) as [Hb1 Hb2].
  pose proof (NilZero.isi _ Ha1 Ha2) as Ha.
  pose proof (NilZero.isi _ Hb1 Hb2) as Hb.
  rewrite Heq in Ha. rewrite Ha in Hb. by injection Hb.
Qed.

Lemma numbered_NoDup (prefix : string) (ids : list string) :
  numbered prefix ids → NoDup ids.
Proof.
  intros Hnum. apply NoDup_alt. intros i j id Hi Hj.
  apply Hnum in Hi. apply Hnum in Hj. rewrite Hi in Hj.
  apply append_inj_r, numToString_inj in Hj. lia.
Qed.

Lemma numbered_app (prefix : string) (ids extra : list string) :
  numbered prefix ids →
  (∀ (i : nat) id,
     extra !! i = Some id →
     id = prefix +:+ Js.numToString (Z.of_nat (length ids + i) + 1)) →
  numbered prefix (ids ++ extra).
Proof.
  intros Hids Hextra i id Hi.
  apply lookup_app_Some in Hi as [Hi|[Hlen Hi]]; [by apply Hids|].
  apply Hextra in Hi.
  by replace (length ids + (i - length ids))%nat with i in Hi by lia.
Qed.

(** What a walk adds to the facts found so far. *)
Local Abbreviation extends result result' :=
  (∃ extra,
     result' = result ++ extra
     ∧ ∀ (i : nat) j,
         extra !! i = Some j →
         jsx_id j
         = "jsx-" +:+ Js.numToString (Z.of_nat (length result + i) + 1)).

Lemma extends_refl (result : list AnalyzedJsxNode) : extends result result.
Proof. exists []. split; [by rewrite app_nil_r | done]. Qed.

Lemma extends_trans (r1 r2 r3 : list AnalyzedJsxNode) :
  extends r1 r2 → extends r2 r3 → extends r1 r3.
Proof.
  intros (e1 & -> & H1) (e2 & -> & H2). exists (e1 ++ e2).
  split; [by rewrite app_assoc|].
  intros i j Hi. apply lookup_app_Some in Hi as [Hi|[Hlen Hi]]; [by apply H1|].
  apply H2 in Hi. rewrite Hi, length_app. do 3 f_equal. lia.
Qed.

Lemma extends_push (path : JSXElement) (depth : Z) (result : list AnalyzedJsxNode) :
  extends result (result ++ [jsxFact path depth result]).
Proof.
  eexists. split; [reflexivity|].
  intros [|i] j Hi; [|done]. injection Hi as <-.
  destruct path. simpl. do 3 f_equal. lia.
Qed.

Lemma traverseBelow_extends (path : JSXElement) :
  ∀ depth result, extends result (traverseBelow path depth result).
Proof.
  induction path as [name attributes loc children IH] using JSXElement_nested_ind.
  intros depth. simpl.
  induction IH as [|c children Hc _ IHchildren]; intros result.
  - apply extends_refl.
  - eapply extends_trans; [|apply IHchildren].
    eapply extends_trans; [|apply Hc].
    eapply extends_trans; [|apply Hc].
    apply extends_push.
Qed.

Lemma analyzeJsxTree_extends (roots : list JSXElement) :
  ∀ result, extends result (analyzeJsxTree roots result).
Proof.
  unfold analyzeJsxTree.
  induction roots as [|r roots IH]; intros result; simpl.
  - apply extends_refl.
  - eapply extends_trans; [|apply IH].
    unfold traverseJsx.
    eapply extends_trans; [apply extends_push | apply traverseBelow_extends].
Qed.

Lemma pushHook_numbered
    (k : HookKind) (sc : StateScope) (loc : option Loc) (src : option string)
    (names : list string) (st : HookState) :
  numbered "hook-" (map hook_id (st_hooks st)) →
  numbered "hook-"
    (map hook_id (st_hooks (fold_left (pushHook k sc loc src) names st))).
Proof.
  revert st. induction names as [|name names IH]; intros st Hst; [done|].
  simpl. apply IH. simpl. rewrite map_app. apply numbered_app; [done|].
  intros [|i] id Hi; [|done]. injection Hi as <-. simpl.
  rewrite length_map. do 3 f_equal. lia.
Qed.

(** X11: the identities of the element facts are [jsx-1], [jsx-2], ...
    in the order of the facts, hence pairwise distinct, and a walk
    keeps the facts it was given in front of those it adds; the
    identities of the hook facts are [hook-1], [hook-2], ... in the same
    way, declarator after declarator, for every declarator whose callee
    the import map does not read as an inherited value. *)
Theorem identities_in_sequence :
  (∀ roots,
     numbered "jsx-" (map jsx_id (analyzeJsxTree roots []))
     ∧ NoDup (map jsx_id (analyzeJsxTree roots [])))
  ∧ (∀ roots result,
       numbered "jsx-" (map jsx_id result) →
       (∃ extra, analyzeJsxTree roots result = result ++ extra)
       ∧ numbered "jsx-" (map jsx_id (analyzeJsxTree roots result)))
  ∧ (∀ (importMap : gmap string string) localName id loc st,
       importLookup importMap localName ≠ InheritedValue →
       numbered "hook-" (map hook_id (st_hooks st)) →
       ∃ st',
         visitVariableDeclarator importMap localName id loc st = Some st'
         ∧ numbered "hook-" (map hook_id (st_hooks st'))
         ∧ NoDup (map hook_id (st_hooks st'))).
Proof.
  assert (Hjsx : ∀ roots result,
             numbered "jsx-" (map jsx_id result) →
             (∃ extra, analyzeJsxTree roots result = result ++ extra)
             ∧ numbered "jsx-" (map jsx_id (analyzeJsxTree roots result))).
  { intros roots result Hres.
    destruct (analyzeJsxTree_extends roots result) as (extra & Heq & Hextra).
    split; [eauto|]. rewrite Heq, map_app.
    apply numbered_app; [done|].
    intros i id Hi. rewrite list_lookup_fmap in Hi.
    destruct (extra !! i) as [j|] eqn:Hj; [|done].
    injection Hi as <-. rewrite length_map. by apply Hextra. }
  split_and!.
  - intros roots. destruct (Hjsx roots []) as [_ Hnum]; [done|].
    split; [done | by eapply numbered_NoDup].
  - exact Hjsx.
  - intros importMap localName id loc st Hlook Hst.
    rewrite (visitVariableDeclarator_Some _ _ _ _ _ Hlook).
    eexists. split; [reflexivity|].
    assert (Hnum : numbered "hook-"
                     (map hook_id
                        (st_hooks
                           (fold_left
                              (pushHook
                                 (classifyHookKind localName
                                    (importMap !! localName))
                                 (scopeOfKind
                                    (classifyHookKind localName
                                       (importMap !! localName)))
                                 loc (importMap !! localName))
                              (boundNames id) st))))
      by by apply pushHook_numbered.
    split; [done | by eapply numbered_NoDup].
Qed.

Lemma identities_in_sequence_witness :
  ∃ st,
    visitVariableDeclarator ∅ "useState"
      (ArrayPattern [Some "count"; Some "setCount"]) None
      {| st_hooks := []; st_globalStateNames := [] |} = Some st
    ∧ map hook_id (st_hooks st) = ["hook-1"; "hook-2"]
    ∧ NoDup (map hook_id (st_hooks st)).
Proof.
  destruct identities_in_sequence as (_ & _ & Hhooks).
  destruct (Hhooks ∅ "useState" (ArrayPattern [Some "count"; Some "setCount"])
              None {| st_hooks := []; st_globalStateNames := [] |})
    as (st & Hvisit & _ & Hnd).
  - intros Hlook. vm_compute in Hlook. discriminate Hlook.
  - intros i id Hi. done.
  - exists st. split; [exact Hvisit|]. split; [|exact Hnd].
    vm_compute in Hvisit. injection Hvisit as <-. reflexivity.
Defined.

(** ** How often an element is recorded *)

Lemma list_sum_double {A : Type} (f g : A → nat) (l : list A) :
  Forall (fun x => f x = 2 * g x)%nat l →
  (list_sum (map f l) = 2 * list_sum (map g l))%nat.
Proof. induction 1 as [|x l Hx _ IH]; simpl; lia. Qed.

Lemma factCount_double (e : JSXElement) :
  ∀ k, (factCount (S (S k)) e = 2 * factCount (S k) e)%nat.
Proof.
  induction e as [name attributes loc children IH] using JSXElement_nested_ind.
  intros k. simpl factCount.
  rewrite (list_sum_double (factCount (S (S (S k)))) (factCount (S (S k)))).
  - simpl. lia.
  - eapply Forall_impl; [exact IH|]. intros c Hc. apply Hc.
Qed.

Lemma factCount_one (e : JSXElement) :
  (factCount 1 e
   = 1 + 2 * list_sum (map (factCount 1) (jsxChildren e)))%nat.
Proof.
  destruct e as [name attributes loc children]. simpl factCount.
  rewrite (list_sum_double (factCount 2) (factCount 1)); [simpl; lia|].
  apply Forall_forall. intros c _. apply factCount_double.
Qed.

Lemma length_traverseBelow (path : JSXElement) :
  ∀ depth result,
    length (traverseBelow path depth result)
    = (length result + list_sum (map (factCount 1) (jsxChildren path)))%nat.
Proof.
  induction path as [name attributes loc children IH] using JSXElement_nested_ind.
  intros depth. simpl jsxChildren. simpl traverseBelow.
  induction IH as [|c children Hc _ IHchildren]; intros result.
  - simpl. lia.
  - rewrite IHchildren, !Hc, length_app. simpl length. simpl map.
    simpl list_sum. rewrite (factCount_one c). lia.
Qed.

(** X12: the number of element facts the tree walk records is the sum,
    over all elements of the markup, of 1 for a root and of 2 to the
    [k - 1] for an element on nesting level [k] at least 1: a root and
    its children count once, and from there on every level counts twice
    as often as the level above it.  The markup is one whose elements
    nest directly in one another. *)
Theorem fact_count_doubles_per_level (roots : list JSXElement) :
  length (analyzeJsxTree roots []) = list_sum (map (factCount 0) roots).
Proof.
  unfold analyzeJsxTree.
  assert (Hgen : ∀ result,
             length (fold_left (fun result path => traverseJsx path 0 result)
                               roots result)
             = (length result + list_sum (map (factCount 0) roots))%nat).
  { induction roots as [|r roots IH]; intros result; simpl; [lia|].
    rewrite IH. unfold traverseJsx.
    rewrite length_traverseBelow, length_app. simpl length.
    destruct r as [name attributes loc children]. simpl. lia. }
  by rewrite Hgen.
Qed.

(** ** The module: exports, imports and the inspected bodies *)

Lemma fold_left_guarded (paths : list JSXElement) (result : list AnalyzedJsxNode) :
  fold_left
    (fun result (entry : JSXElement * bool) =>
       let (path, parentIsElement) := entry in
       if parentIsElement then result else traverseJsx path 0 result)
    (map (fun path => (path, true)) paths) result
  = result.
Proof. induction paths as [|p paths IH]; simpl; [done | apply IH]. Qed.

Lemma fold_left_roots (roots : list JSXElement) :
  ∀ result,
    fold_left
      (fun result (entry : JSXElement * bool) =>
         let (path, parentIsElement) := entry in
         if parentIsElement then result else traverseJsx path 0 result)
      (flat_map withDescendants roots) result
    = analyzeJsxTree roots result.
Proof.
  unfold analyzeJsxTree.
  induction roots as [|r roots IH]; intros result; [done|].
  simpl. rewrite fold_left_app, fold_left_guarded. apply IH.
Qed.

(** Below a block or an expression that is not an element, the guard
    lets the outermost elements through and nothing else. *)
Lemma analyzeJsxTreeAt_block (block : BlockStatement) (result : list AnalyzedJsxNode) :
  analyzeJsxTreeAt (BlockBody block) result
  = analyzeJsxTree (outermostElements block) result.
Proof. apply fold_left_roots. Qed.

Lemma analyzeJsxTreeAt_expression
    (outermost : list JSXElement) (result : list AnalyzedJsxNode) :
  analyzeJsxTreeAt (ExpressionBody outermost) result
  = analyzeJsxTree outermost result.
Proof. apply fold_left_roots. Qed.

(** Below an element, every element has an element as its parent. *)
Lemma analyzeJsxTreeAt_element
    (element : JSXElement) (result : list AnalyzedJsxNode) :
  analyzeJsxTreeAt (ElementBody element) result = result.
Proof. apply fold_left_guarded. Qed.

Lemma visitExport_unrecorded (info : ExportInfo) (item : ModuleItem) :
  recordsNoExport item = true → visitExport info item = info.
Proof.
  assert (Hspecs : ∀ specifiers : list (option string),
             forallb (fun spec : option string =>
                        match spec with Some _ => false | None => true end)
                     specifiers = true →
             omap (fun spec => spec) specifiers = []).
  { induction specifiers as [|[s|] specifiers IH]; simpl; auto; done. }
  destruct info as [d n].
  destruct item as [src specs|[name|[id|] block|]|[[[id|] block|ds|]|] specs|d'|];
    simpl; try done; intros H; rewrite (Hspecs _ H); by rewrite app_nil_r.
Qed.

Lemma collectExportedComponents_unrecorded (ast : list ModuleItem) :
  Forall (fun item => recordsNoExport item = true) ast →
  collectExportedComponents ast
  = {| defaultExport := None; namedExports := [] |}.
Proof.
  unfold collectExportedComponents.
  generalize {| defaultExport := None; namedExports := [] |}.
  induction 1 as [|item ast Hitem _ IH]; simpl; [done|].
  by rewrite visitExport_unrecorded.
Qed.

Lemma isPrimaryComponent_null (name : option string) :
  isPrimaryComponent None name = false.
Proof. done. Qed.

Lemma visitComponentDeclarators_null
    (importMap : gmap string string)
    (declarations : list (Pattern * Initialiser)) (st : WalkState) :
  visitComponentDeclarators importMap None declarations st = Some st.
Proof. induction declarations as [|[id init] ds IH]; simpl; [done | apply IH]. Qed.

(** Without a primary component no body is inspected. *)
Lemma traverseModule_null
    (importMap : gmap string string) (ast : list ModuleItem) (st : WalkState) :
  traverseModule importMap None ast st = Some st.
Proof.
  induction ast as [|item ast IH]; simpl; [done|].
  assert (Hitem : visitModuleItem importMap None st item = Some st).
  { destruct item as [src specs|[name|id block|]|[[id block|ds|]|] specs
                      |[id block|ds|]|]; simpl;
      try done; apply visitComponentDeclarators_null. }
  by rewrite Hitem.
Qed.

(** X13: when no export declaration of the module gives a name to the
    export collector, as with [export const App = ...], a default
    export of an expression or of an anonymous function, or no export
    at all, the analysis names no component and holds no fact, whatever
    the bodies contain and whatever the file is called. *)
Theorem unrecorded_exports_empty_analysis
    (ast : list ModuleItem) (src : string) (file : option string) :
  Forall (fun item => recordsNoExport item = true) ast →
  analyzeReactComponent ast src file
  = Some {| source := src;
            fileName := file;
            componentName := None;
            hooks := [];
            effects := [];
            callbacks := [];
            jsxNodes := [];
            meta := {| defaultExport := None; namedExports := [] |};
            errors := [] |}.
Proof.
  intros Hast. unfold analyzeReactComponent, analyzeComponentBody.
  rewrite (collectExportedComponents_unrecorded ast Hast).
  assert (Hpick : pickPrimaryComponent
                    {| defaultExport := None; namedExports := [] |} file = None).
  { unfold pickPrimaryComponent. simpl.
    destruct file as [f|]; [|done]. by destruct (Js.truthy f). }
  rewrite Hpick. by rewrite traverseModule_null.
Qed.

Lemma unrecorded_exports_empty_analysis_witness :
  ∃ analysis,
    analyzeReactComponent constExportedCounter EmptyString (Some "Counter.tsx")
    = Some analysis
    ∧ componentName analysis = None
    ∧ hooks analysis = []
    ∧ jsxNodes analysis = [].
Proof.
  eexists. split.
  - apply (unrecorded_exports_empty_analysis
             constExportedCounter EmptyString (Some "Counter.tsx")).
    repeat constructor.
  - done.
Defined.

Lemma analyzeJsxTree_nonempty (element : JSXElement) :
  analyzeJsxTree [element] [] ≠ [].
Proof.
  intros Heq. apply (f_equal length) in Heq.
  unfold analyzeJsxTree, traverseJsx in Heq. simpl in Heq.
  rewrite length_traverseBelow in Heq. simpl in Heq. lia.
Qed.

Lemma isPrimaryComponent_same (name : string) :
  Js.truthy name = true → isPrimaryComponent (Some name) (Some name) = true.
Proof. intros H. simpl. rewrite H. simpl. apply String.eqb_refl. Qed.

(** X14: for a component written as an arrow function whose body is
    itself an element, [const name = () => <element>; export default
    name], the analysis names the component and records no element fact
    at all; with the same element returned from a block body it records
    the facts of the tree walk, which are never none.  The markup is one
    whose elements nest directly in one another. *)
Theorem element_bodied_arrow_records_no_element
    (name : string) (element : JSXElement)
    (src : string) (file : option string) :
  Js.truthy name = true →
  (∃ analysis,
     analyzeReactComponent (arrowComponent name (ElementBody element)) src file
     = Some analysis
     ∧ componentName analysis = Some name
     ∧ jsxNodes analysis = [])
  ∧ (∃ analysis,
       analyzeReactComponent
         (arrowComponent name (BlockBody (returnBlock element))) src file
       = Some analysis
       ∧ componentName analysis = Some name
       ∧ jsxNodes analysis = analyzeJsxTree [element] []
       ∧ jsxNodes analysis ≠ []).
Proof.
  intros Hname.
  assert (Hpick : ∀ body,
             pickPrimaryComponent
               (collectExportedComponents (arrowComponent name body)) file
             = Some name).
  { intros body. unfold pickPrimaryComponent. simpl. by rewrite Hname. }
  split.
  - eexists. unfold analyzeReactComponent, analyzeComponentBody.
    rewrite Hpick.
    cbn [arrowComponent traverseModule visitModuleItem visitDeclaration
         visitComponentDeclarators visitComponentDeclarator patternName].
    rewrite (isPrimaryComponent_same name Hname).
    cbn [inspectBody ws_jsxNodes emptyWalk].
    rewrite analyzeJsxTreeAt_element. split; [reflexivity|]. done.
  - eexists. unfold analyzeReactComponent, analyzeComponentBody.
    rewrite Hpick.
    cbn [arrowComponent traverseModule visitModuleItem visitDeclaration
         visitComponentDeclarators visitComponentDeclarator patternName].
    rewrite (isPrimaryComponent_same name Hname).
    cbn [inspectBody inspectFunctionBody ws_jsxNodes emptyWalk returnBlock
         entered traverseBody].
    rewrite analyzeJsxTreeAt_block. split; [reflexivity|].
    split; [done|]. split; [done|]. apply analyzeJsxTree_nonempty.
Qed.

Lemma element_bodied_arrow_records_no_element_witness :
  ∃ analysis,
    analyzeReactComponent
      (arrowComponent "App" (ElementBody nestedMarkup)) EmptyString None
    = Some analysis
    ∧ componentName analysis = Some "App"
    ∧ jsxNodes analysis = [].
Proof.
  apply (element_bodied_arrow_records_no_element
           "App" nestedMarkup EmptyString None).
  reflexivity.
Defined.

(** ** When the walk throws *)

Lemma importLookup_inherited (importMap : gmap string string) (localName : string) :
  importLookup importMap localName = InheritedValue
  ↔ inheritedCallee importMap (Some localName) = true.
Proof.
  unfold importLookup, inheritedCallee.
  destruct (importMap !! localName) as [src|] eqn:Hlook.
  - rewrite andb_false_r. split; intros; discriminate.
  - rewrite (bool_decide_eq_true_2 (None = None) eq_refl), andb_true_r.
    by destruct (bool_decide _).
Qed.

Lemma visitBodyNode_None
    (importMap : gmap string string) (st : WalkState) (node : BodyNode) :
  visitBodyNode importMap st node = None ↔ abortsWalk importMap node = true.
Proof.
  destruct node as [id init initLoc|callee arguments loc parentId];
    cbn [visitBodyNode abortsWalk].
  - destruct (calledIdentifier init) as [localName|]; [|done].
    rewrite <- importLookup_inherited,
      <- (visitVariableDeclarator_None importMap localName id initLoc
            (ws_hooks st)).
    by destruct (visitVariableDeclarator importMap localName id initLoc
                   (ws_hooks st)).
  - destruct (identifierName callee) as [localName|]; [|done].
    rewrite <- importLookup_inherited.
    by destruct (importLookup importMap localName).
Qed.

(** What the declarator visitor of the walk leaves when it returns. *)
Lemma visitBodyNode_declarator
    (importMap : gmap string string) (st st' : WalkState)
    (id : Pattern) (init : option Expression) (initLoc : option Loc)
    (localName : string) :
  calledIdentifier init = Some localName →
  visitBodyNode importMap st (EnteredDeclarator id init initLoc) = Some st' →
  st' = {| ws_hooks :=
             fold_left
               (pushHook (classifyHookKind localName (importMap !! localName))
                  (scopeOfKind
                     (classifyHookKind localName (importMap !! localName)))
                  initLoc (importMap !! localName))
               (boundNames id) (ws_hooks st);
           ws_effects := ws_effects st;
           ws_callbacks := ws_callbacks st;
           ws_jsxNodes := ws_jsxNodes st |}.
Proof.
  intros Hcallee. cbn [visitBodyNode]. rewrite Hcallee.
  unfold visitVariableDeclarator.
  destruct (importLookup importMap localName); congruence.
Qed.

Lemma traverseBody_None (importMap : gmap string string) (nodes : list BodyNode) :
  ∀ st,
    traverseBody importMap nodes st = None
    ↔ Exists (fun node => abortsWalk importMap node = true) nodes.
Proof.
  induction nodes as [|node nodes IH]; intros st; simpl.
  - split; [done | by intros H%Exists_nil].
  - rewrite Exists_cons, <- (visitBodyNode_None importMap st node).
    destruct (visitBodyNode importMap st node) as [st'|].
    + rewrite IH. split; [tauto | by intros [?|?]].
    + split; [by left | done].
Qed.

Local Abbreviation blockAborts importMap :=
  (fun block : BlockStatement =>
     Exists (fun node => abortsWalk importMap node = true) (entered block)).

Lemma inspectFunctionBody_None
    (importMap : gmap string string) (block : BlockStatement) (st : WalkState) :
  inspectFunctionBody importMap block st = None ↔ blockAborts importMap block.
Proof. apply traverseBody_None. Qed.

Lemma inspectBody_None
    (importMap : gmap string string) (body : FunctionBody) (st : WalkState) :
  inspectBody importMap body st = None
  ↔ Exists (blockAborts importMap) (blockOfBody body).
Proof.
  destruct body as [block|element|outermost]; simpl.
  - rewrite inspectFunctionBody_None, Exists_cons, Exists_nil. tauto.
  - rewrite Exists_nil. done.
  - rewrite Exists_nil. done.
Qed.

Lemma visitFunctionDeclaration_None
    (importMap : gmap string string) (primary : option string)
    (id : option string) (block : BlockStatement) (st : WalkState) :
  visitFunctionDeclaration importMap primary id block st = None
  ↔ Exists (blockAborts importMap)
           (if isPrimaryComponent primary id then [block] else []).
Proof.
  unfold visitFunctionDeclaration.
  destruct (isPrimaryComponent primary id).
  - rewrite inspectFunctionBody_None, Exists_cons, Exists_nil. tauto.
  - rewrite Exists_nil. done.
Qed.

Lemma visitComponentDeclarators_None
    (importMap : gmap string string) (primary : option string)
    (declarations : list (Pattern * Initialiser)) :
  ∀ st,
    visitComponentDeclarators importMap primary declarations st = None
    ↔ Exists (blockAborts importMap)
             (inspectedBlocksOfDeclaration primary
                (VariableDeclaration declarations)).
Proof.
  induction declarations as [|[id init] ds IH]; intros st.
  - simpl. rewrite Exists_nil. done.
  - cbn [visitComponentDeclarators inspectedBlocksOfDeclaration flat_map].
    rewrite Exists_app. unfold visitComponentDeclarator. simpl fst. simpl snd.
    destruct (isPrimaryComponent primary (patternName id)).
    + destruct init as [body|block|].
      * pose proof (inspectBody_None importMap body st) as Hbody.
        destruct (inspectBody importMap body st) as [st'|].
        -- rewrite IH. simpl in *. split; [tauto|].
           intros [H|H]; [|done]. by apply Hbody in H.
        -- split; [intros _; left; by apply Hbody | done].
      * pose proof (inspectFunctionBody_None importMap block st) as Hblock.
        destruct (inspectFunctionBody importMap block st) as [st'|].
        -- rewrite IH. simpl in *. rewrite Exists_cons, Exists_nil.
           split; [tauto|]. intros [[H|[]]|H]; [|done]. by apply Hblock in H.
        -- rewrite Exists_cons. split; [intros _; left; left; by apply Hblock | done].
      * rewrite IH. simpl. rewrite Exists_nil. tauto.
    + rewrite IH. simpl. rewrite Exists_nil. tauto.
Qed.

Lemma visitDeclaration_None
    (importMap : gmap string string) (primary : option string)
    (declaration : Declaration) (st : WalkState) :
  visitDeclaration importMap primary declaration st = None
  ↔ Exists (blockAborts importMap)
           (inspectedBlocksOfDeclaration primary declaration).
Proof.
  destruct declaration as [id block|ds|].
  - apply visitFunctionDeclaration_None.
  - apply visitComponentDeclarators_None.
  - simpl. rewrite Exists_nil. done.
Qed.

Lemma traverseModule_None
    (importMap : gmap string string) (primary : option string)
    (ast : list ModuleItem) :
  ∀ st,
    traverseModule importMap primary ast st = None
    ↔ Exists (blockAborts importMap) (inspectedBlocks primary ast).
Proof.
  induction ast as [|item ast IH]; intros st.
  - simpl. rewrite Exists_nil. done.
  - cbn [traverseModule inspectedBlocks flat_map]. rewrite Exists_app.
    fold (inspectedBlocks primary ast).
    assert (Hitem :
      visitModuleItem importMap primary st item = None
      ↔ Exists (blockAborts importMap)
          match item with
          | ExportDefaultDeclaration (DefaultFunctionDeclaration id block) =>
              if isPrimaryComponent primary id then [block] else []
          | ExportNamedDeclaration (Some declaration) _ =>
              inspectedBlocksOfDeclaration primary declaration
          | ModuleDeclaration declaration =>
              inspectedBlocksOfDeclaration primary declaration
          | _ => []
          end).
    { destruct item as [src specs|[name|id block|]|[d|] specs|d|];
        cbn [visitModuleItem];
        try (rewrite Exists_nil; done);
        try apply visitFunctionDeclaration_None;
        apply visitDeclaration_None. }
    destruct (visitModuleItem importMap primary st item) as [st'|].
    + rewrite IH. split; [tauto|]. intros [H|H]; [|done].
      by apply Hitem in H.
    + split; [intros _; left; by apply Hitem | done].
Qed.

(** ** What the two visitors of the body walk record *)

Lemma classifyHookKind_kind_name
    (calleeName : string) (src : option string) (k : HookKind) :
  k ∈ [useState; useRef; useReducer; useEffect; useLayoutEffect;
       useCallback; useMemo] →
  classifyHookKind calleeName src = k ↔ calleeName = HookKind_str k.
Proof.
  intros Hk. split.
  - intros Hclass.
    destruct (decide (calleeName ∈ builtinHookNames)) as [Hin|Hnot].
    + unfold builtinHookNames in Hin.
      repeat (apply elem_of_cons in Hin as [->|Hin];
              [by rewrite <- Hclass|]).
      by apply elem_of_nil in Hin.
    + rewrite (classifyHookKind_not_builtin _ _ Hnot) in Hclass.
      exfalso. subst k.
      repeat (apply elem_of_cons in Hk as [Hk|Hk];
              [repeat (destruct src as [?|] || destruct (_ : bool));
               discriminate|]).
      by apply elem_of_nil in Hk.
  - intros ->.
    repeat (apply elem_of_cons in Hk as [->|Hk]; [reflexivity|]).
    by apply elem_of_nil in Hk.
Qed.

Lemma isEffectKind_name (localName : string) (src : option string) :
  isEffectKind (classifyHookKind localName src) = true
  ↔ localName = "useEffect" ∨ localName = "useLayoutEffect".
Proof.
  rewrite <- (classifyHookKind_kind_name localName src useEffect),
          <- (classifyHookKind_kind_name localName src useLayoutEffect);
    [|repeat constructor..].
  unfold isEffectKind.
  destruct (classifyHookKind localName src); simpl;
    split; try done; try tauto; intros [?|?]; discriminate.
Qed.

Lemma isCallbackKind_name (localName : string) (src : option string) :
  HookKind_eqb (classifyHookKind localName src) useCallback = true
  ↔ localName = "useCallback".
Proof.
  rewrite <- (classifyHookKind_kind_name localName src useCallback);
    [|repeat constructor].
  destruct (classifyHookKind localName src); simpl; split; done.
Qed.

Lemma visitBodyNode_call
    (importMap : gmap string string) (st st' : WalkState)
    (localName : string) (arguments : list Expression)
    (loc : option Loc) (parentId : option Pattern) :
  visitBodyNode importMap st
    (EnteredCall (Identifier localName) arguments loc parentId) = Some st' →
  st' = visitCall localName
          (classifyHookKind localName (importMap !! localName))
          arguments loc parentId st.
Proof.
  simpl. destruct (importLookup importMap localName); congruence.
Qed.

(** X16: the call visitor of the body walk recognises an effect and a
    memoised callback by the local name of the callee alone, whatever
    the import map holds for it: a call of [useEffect] or
    [useLayoutEffect] adds one effect fact of that kind, a call of
    [useCallback] adds one callback fact, named after the declarator
    it initialises when that binds an identifier, and a call under any
    other name, an alias of an import included, adds neither.  The
    call visitor adds no hook fact and no element fact. *)
Theorem call_visitor_matches_local_names
    (importMap : gmap string string) (st st' : WalkState)
    (localName : string) (arguments : list Expression)
    (loc : option Loc) (parentId : option Pattern) :
  visitBodyNode importMap st
    (EnteredCall (Identifier localName) arguments loc parentId) = Some st' →
  ws_hooks st' = ws_hooks st
  ∧ ws_jsxNodes st' = ws_jsxNodes st
  ∧ (localName = "useEffect" ∨ localName = "useLayoutEffect" →
     ∃ effect,
       ws_effects st' = ws_effects st ++ [effect]
       ∧ HookKind_str (eff_hookKind effect) = localName)
  ∧ (¬ (localName = "useEffect" ∨ localName = "useLayoutEffect") →
     ws_effects st' = ws_effects st)
  ∧ (localName = "useCallback" →
     ∃ callback,
       ws_callbacks st' = ws_callbacks st ++ [callback]
       ∧ cb_name callback = parentId ≫= patternName)
  ∧ (localName ≠ "useCallback" → ws_callbacks st' = ws_callbacks st).
Proof.
  intros Hvisit. apply visitBodyNode_call in Hvisit as ->.
  unfold visitCall. cbn [ws_hooks ws_jsxNodes ws_effects ws_callbacks].
  pose proof (isEffectKind_name localName (importMap !! localName)) as Heff.
  pose proof (isCallbackKind_name localName (importMap !! localName)) as Hcb.
  split_and!; try done.
  - intros Hname. apply Heff in Hname as Hkind. rewrite Hkind.
    eexists. split; [reflexivity|]. simpl.
    by destruct Hname as [-> | ->].
  - intros Hname. destruct (isEffectKind _); [|done].
    exfalso. by apply Hname, Heff.
  - intros Hname. apply Hcb in Hname as Hkind. rewrite Hkind.
    eexists. split; reflexivity.
  - intros Hname. destruct (HookKind_eqb _ _); [|done].
    exfalso. by apply Hname, Hcb.
Qed.

Lemma call_visitor_matches_local_names_witness :
  ∃ callback,
    ws_callbacks
      (visitCall "useCallback" useCallback [] None
         (Some (PIdentifier "onClick")) emptyWalk)
    = [callback]
    ∧ cb_name callback = Some "onClick".
Proof.
  destruct (call_visitor_matches_local_names ∅ emptyWalk
              (visitCall "useCallback" useCallback [] None
                 (Some (PIdentifier "onClick")) emptyWalk)
              "useCallback" [] None (Some (PIdentifier "onClick")))
    as (_ & _ & _ & _ & Hcb & _); [reflexivity|].
  by apply Hcb.
Defined.

(** *** Global dependencies *)

Lemma fold_pushHook_globals
    (k : HookKind) (sc : StateScope) (loc : option Loc) (src : option string)
    (names : list string) :
  ∀ st x,
    x ∈ st_globalStateNames (fold_left (pushHook k sc loc src) names st)
    ↔ x ∈ st_globalStateNames st
      ∨ (StateScope_eqb sc global = true ∧ x ∈ names).
Proof.
  induction names as [|name names IH]; intros st x; simpl.
  - rewrite elem_of_nil. tauto.
  - rewrite IH, elem_of_cons. simpl.
    destruct (StateScope_eqb sc global); [|intuition congruence].
    destruct (existsb _ _) eqn:Hex.
    + apply existsb_eqb_elem in Hex. intuition congruence.
    + rewrite elem_of_app, list_elem_of_singleton. intuition congruence.
Qed.

Lemma visitBodyNode_globals
    (importMap : gmap string string) (st st' : WalkState) (node : BodyNode) :
  visitBodyNode importMap st node = Some st' →
  ∀ x,
    x ∈ st_globalStateNames (ws_hooks st')
    ↔ x ∈ st_globalStateNames (ws_hooks st) ∨ x ∈ globalNamesOf importMap [node].
Proof.
  intros Hvisit x. unfold globalNamesOf. simpl flat_map. rewrite app_nil_r.
  destruct node as [id init initLoc|callee arguments loc parentId].
  - destruct (calledIdentifier init) as [localName|] eqn:Hcallee.
    + rewrite (visitBodyNode_declarator _ _ _ _ _ _ _ Hcallee Hvisit).
      simpl. rewrite fold_pushHook_globals.
      destruct (StateScope_eqb _ _); rewrite ?elem_of_nil; intuition congruence.
    + cbn [visitBodyNode] in Hvisit. rewrite Hcallee in Hvisit.
      injection Hvisit as <-. rewrite elem_of_nil. tauto.
  - simpl in *. rewrite elem_of_nil.
    destruct (identifierName callee) as [localName|].
    + assert (st' = visitCall localName
                      (classifyHookKind localName (importMap !! localName))
                      arguments loc parentId st) as ->
        by (destruct (importLookup importMap localName); congruence).
      simpl. tauto.
    + injection Hvisit as <-. tauto.
Qed.

Lemma globalNamesOf_cons
    (importMap : gmap string string) (node : BodyNode) (nodes : list BodyNode) :
  globalNamesOf importMap (node :: nodes)
  = globalNamesOf importMap [node] ++ globalNamesOf importMap nodes.
Proof. unfold globalNamesOf. simpl. by rewrite app_nil_r. Qed.

Lemma traverseBody_globals (importMap : gmap string string) (nodes : list BodyNode) :
  ∀ st st',
    traverseBody importMap nodes st = Some st' →
    ∀ x,
      x ∈ st_globalStateNames (ws_hooks st')
      ↔ x ∈ st_globalStateNames (ws_hooks st)
        ∨ x ∈ globalNamesOf importMap nodes.
Proof.
  induction nodes as [|node nodes IH]; intros st st' Hwalk x.
  - injection Hwalk as <-. unfold globalNamesOf. simpl.
    rewrite elem_of_nil. tauto.
  - simpl in Hwalk.
    destruct (visitBodyNode importMap st node) as [st1|] eqn:Hnode; [|done].
    rewrite (globalNamesOf_cons importMap node nodes), elem_of_app,
      (IH _ _ Hwalk), (visitBodyNode_globals _ _ _ _ Hnode).
    tauto.
Qed.

Lemma traverseBody_app
    (importMap : gmap string string) (nodes more : list BodyNode) :
  ∀ st,
    traverseBody importMap (nodes ++ more) st
    = traverseBody importMap nodes st ≫= traverseBody importMap more.
Proof.
  induction nodes as [|node nodes IH]; intros st; simpl; [done|].
  destruct (visitBodyNode importMap st node); [apply IH | done].
Qed.

Lemma traverseBody_Some (importMap : gmap string string) (nodes : list BodyNode) :
  Forall (fun node => abortsWalk importMap node = false) nodes →
  ∀ st, is_Some (traverseBody importMap nodes st).
Proof.
  intros Hall st. apply not_eq_None_Some. rewrite traverseBody_None.
  rewrite <- Forall_Exists_neg. eapply Forall_impl; [exact Hall|].
  intros node Hnode. by rewrite Hnode.
Qed.

Lemma omap_cons_eq {A B : Type} (f : A → option B) (x : A) (l : list A) :
  omap f (x :: l)
  = match f x with
    | Some y => y :: omap f l
    | None => omap f l
    end.
Proof. done. Qed.

Lemma effectDependencies_names
    (depsArg : option Expression) (globalStateNames : list string) :
  map dep_name (effectDependencies depsArg globalStateNames)
  = callbackDependencies depsArg.
Proof.
  destruct depsArg as [[]|]; try done.
  unfold effectDependencies, callbackDependencies.
  induction elements as [|el elements IH]; [done|].
  rewrite !omap_cons_eq. destruct el; cbv beta iota; try exact IH.
  cbn [map dep_name]. by rewrite IH.
Qed.

Lemma effectDependencies_global
    (depsArg : option Expression) (globalStateNames : list string) :
  Forall (fun d => dep_isGlobal d = true ↔ dep_name d ∈ globalStateNames)
         (effectDependencies depsArg globalStateNames).
Proof.
  destruct depsArg as [[]|]; try by constructor.
  unfold effectDependencies.
  induction elements as [|el elements IH]; [by constructor|].
  rewrite omap_cons_eq. destruct el; cbv beta iota; try exact IH.
  constructor; [|exact IH]. simpl. apply existsb_eqb_elem.
Qed.

(** X17: in the walk of a body, the effect fact recorded for a call of
    [useEffect] or [useLayoutEffect] lists the identifiers of the
    dependency array in their order, and marks a dependency as global
    exactly when the name was recorded as global before the walk, or a
    declarator entered before the call binds that name to a call
    classified as global state; a binding entered after the call does
    not count.  The walk returns a result whenever no node entered
    before the call makes it throw. *)
Theorem dependency_global_when_declared_before
    (importMap : gmap string string) (st0 : WalkState)
    (before : list BodyNode)
    (localName : string) (arguments : list Expression)
    (loc : option Loc) (parentId : option Pattern) :
  localName = "useEffect" ∨ localName = "useLayoutEffect" →
  Forall (fun node => abortsWalk importMap node = false) before →
  ∃ st effect,
    traverseBody importMap
      (before ++ [EnteredCall (Identifier localName) arguments loc parentId])
      st0 = Some st
    ∧ last (ws_effects st) = Some effect
    ∧ map dep_name (eff_dependencies effect)
      = callbackDependencies (arguments !! 1%nat)
    ∧ Forall (fun d =>
                dep_isGlobal d = true
                ↔ dep_name d ∈ st_globalStateNames (ws_hooks st0)
                  ∨ dep_name d ∈ globalNamesOf importMap before)
             (eff_dependencies effect).
Proof.
  intros Hname Hbefore.
  destruct (traverseBody_Some importMap before Hbefore st0) as [st1 Hst1].
  pose proof (traverseBody_globals importMap before _ _ Hst1) as Hglobals.
  assert (Hlook : importLookup importMap localName ≠ InheritedValue).
  { rewrite importLookup_inherited. unfold inheritedCallee.
    destruct Hname as [-> | ->]; by destruct (bool_decide (_ !! _ = None)). }
  eexists _, _. split_and!.
  - rewrite traverseBody_app, Hst1. simpl.
    destruct (importLookup importMap localName); [reflexivity|done|reflexivity].
  - unfold visitCall. cbn [ws_effects].
    apply (isEffectKind_name localName (importMap !! localName)) in Hname.
    rewrite Hname. apply last_snoc.
  - apply effectDependencies_names.
  - simpl. eapply Forall_impl; [apply effectDependencies_global|].
    intros d Hd. by rewrite Hd, Hglobals.
Qed.

Lemma dependency_global_when_declared_before_witness :
  ∃ st effect,
    traverseBody storeImports
      [storeDeclaration;
       EnteredCall (Identifier "useEffect")
         [ArrowFunctionExpression (OtherNode []);
          ArrayExpression [Identifier "user"; Identifier "count"]]
         None None]
      emptyWalk = Some st
    ∧ last (ws_effects st) = Some effect
    ∧ map dep_name (eff_dependencies effect) = ["user"; "count"]
    ∧ Forall (fun d =>
                dep_isGlobal d = true
                ↔ dep_name d ∈ []
                  ∨ dep_name d ∈ globalNamesOf storeImports [storeDeclaration])
             (eff_dependencies effect).
Proof.
  apply (dependency_global_when_declared_before storeImports emptyWalk
           [storeDeclaration] "useEffect"
           [ArrowFunctionExpression (OtherNode []);
            ArrayExpression [Identifier "user"; Identifier "count"]]
           None None).
  - by left.
  - repeat constructor.
Defined.

(** ** Identities through the whole analysis *)

Lemma numbered_snoc (prefix : string) (ids : list string) :
  numbered prefix ids →
  numbered prefix
    (ids ++ [prefix +:+ Js.numToString (Z.of_nat (length ids) + 1)]).
Proof.
  intros Hids. apply numbered_app; [done|].
  intros [|i] id Hi; [|done]. injection Hi as <-. do 3 f_equal. lia.
Qed.

Lemma analyzeJsxTree_numbered
    (roots : list JSXElement) (result : list AnalyzedJsxNode) :
  numbered "jsx-" (map jsx_id result) →
  numbered "jsx-" (map jsx_id (analyzeJsxTree roots result)).
Proof.
  intros Hres.
  destruct (analyzeJsxTree_extends roots result) as (extra & -> & Hextra).
  rewrite map_app. apply numbered_app; [done|].
  intros i id Hi. rewrite list_lookup_fmap in Hi.
  destruct (extra !! i) as [j|] eqn:Hj; [|done].
  injection Hi as <-. rewrite length_map. by apply Hextra.
Qed.

Lemma analyzeJsxTreeAt_numbered
    (rootPath : FunctionBody) (result : list AnalyzedJsxNode) :
  numbered "jsx-" (map jsx_id result) →
  numbered "jsx-" (map jsx_id (analyzeJsxTreeAt rootPath result)).
Proof.
  destruct rootPath as [block|element|outermost].
  - rewrite analyzeJsxTreeAt_block. apply analyzeJsxTree_numbered.
  - by rewrite analyzeJsxTreeAt_element.
  - rewrite analyzeJsxTreeAt_expression. apply analyzeJsxTree_numbered.
Qed.

Lemma visitCall_numbered
    (localName : string) (hookKind : HookKind) (arguments : list Expression)
    (loc : option Loc) (parentId : option Pattern) (st : WalkState) :
  walkNumbered st →
  walkNumbered (visitCall localName hookKind arguments loc parentId st).
Proof.
  intros (Hh & He & Hc & Hj). unfold visitCall, walkNumbered.
  cbn [ws_hooks ws_effects ws_callbacks ws_jsxNodes]. split_and!; try done.
  - destruct (isEffectKind hookKind); [|done].
    rewrite map_app. cbn [map eff_id analyzeEffectCall].
    rewrite <- (length_map eff_id). by apply numbered_snoc.
  - destruct (HookKind_eqb hookKind useCallback); [|done].
    rewrite map_app. cbn [map cb_id analyzeUseCallbackCall].
    rewrite <- (length_map cb_id). by apply numbered_snoc.
Qed.

Lemma visitBodyNode_numbered
    (importMap : gmap string string) (st st' : WalkState) (node : BodyNode) :
  visitBodyNode importMap st node = Some st' →
  walkNumbered st → walkNumbered st'.
Proof.
  intros Hvisit Hst.
  destruct node as [id init initLoc|callee arguments loc parentId].
  - destruct (calledIdentifier init) as [localName|] eqn:Hcallee.
    + rewrite (visitBodyNode_declarator _ _ _ _ _ _ _ Hcallee Hvisit).
      destruct Hst as (Hh & He & Hc & Hj). split_and!; try done.
      simpl. by apply pushHook_numbered.
    + cbn [visitBodyNode] in Hvisit. rewrite Hcallee in Hvisit. congruence.
  - simpl in *.
    destruct (identifierName callee) as [localName|]; [|congruence].
    assert (st' = visitCall localName
                    (classifyHookKind localName (importMap !! localName))
                    arguments loc parentId st) as ->
      by (destruct (importLookup importMap localName); congruence).
    by apply visitCall_numbered.
Qed.

Lemma traverseBody_numbered
    (importMap : gmap string string) (nodes : list BodyNode) :
  ∀ st st',
    traverseBody importMap nodes st = Some st' →
    walkNumbered st → walkNumbered st'.
Proof.
  induction nodes as [|node nodes IH]; intros st st' Hwalk Hst; simpl in Hwalk.
  - congruence.
  - destruct (visitBodyNode importMap st node) as [st1|] eqn:Hnode; [|done].
    eapply IH; [exact Hwalk|]. by eapply visitBodyNode_numbered.
Qed.

Lemma inspectFunctionBody_numbered
    (importMap : gmap string string) (block : BlockStatement)
    (st st' : WalkState) :
  inspectFunctionBody importMap block st = Some st' →
  walkNumbered st → walkNumbered st'.
Proof.
  unfold inspectFunctionBody. intros Hwalk (Hh & He & Hc & Hj).
  eapply traverseBody_numbered; [exact Hwalk|].
  split_and!; try done. simpl. by apply analyzeJsxTreeAt_numbered.
Qed.

Lemma inspectBody_numbered
    (importMap : gmap string string) (body : FunctionBody)
    (st st' : WalkState) :
  inspectBody importMap body st = Some st' →
  walkNumbered st → walkNumbered st'.
Proof.
  destruct body as [block|element|outermost]; simpl.
  - apply inspectFunctionBody_numbered.
  - intros [= <-] (Hh & He & Hc & Hj). split_and!; try done.
    simpl. by apply analyzeJsxTreeAt_numbered.
  - intros [= <-] (Hh & He & Hc & Hj). split_and!; try done.
    simpl. by apply analyzeJsxTreeAt_numbered.
Qed.

Lemma visitFunctionDeclaration_numbered
    (importMap : gmap string string) (primary : option string)
    (id : option string) (block : BlockStatement) (st st' : WalkState) :
  visitFunctionDeclaration importMap primary id block st = Some st' →
  walkNumbered st → walkNumbered st'.
Proof.
  unfold visitFunctionDeclaration.
  destruct (isPrimaryComponent primary id).
  - apply inspectFunctionBody_numbered.
  - by intros [= <-].
Qed.

Lemma visitComponentDeclarators_numbered
    (importMap : gmap string string) (primary : option string)
    (declarations : list (Pattern * Initialiser)) :
  ∀ st st',
    visitComponentDeclarators importMap primary declarations st = Some st' →
    walkNumbered st → walkNumbered st'.
Proof.
  induction declarations as [|[id init] ds IH]; intros st st' Hwalk Hst;
    simpl in Hwalk.
  - congruence.
  - destruct (isPrimaryComponent primary (patternName id)).
    + destruct init as [body|block|].
      * destruct (inspectBody importMap body st) as [st1|] eqn:Hbody; [|done].
        eapply IH; [exact Hwalk|]. by eapply inspectBody_numbered.
      * destruct (inspectFunctionBody importMap block st) as [st1|] eqn:Hblock;
          [|done].
        eapply IH; [exact Hwalk|]. by eapply inspectFunctionBody_numbered.
      * by eapply IH.
    + by eapply IH.
Qed.

Lemma visitDeclaration_numbered
    (importMap : gmap string string) (primary : option string)
    (declaration : Declaration) (st st' : WalkState) :
  visitDeclaration importMap primary declaration st = Some st' →
  walkNumbered st → walkNumbered st'.
Proof.
  destruct declaration as [id block|ds|]; simpl.
  - apply visitFunctionDeclaration_numbered.
  - apply visitComponentDeclarators_numbered.
  - by intros [= <-].
Qed.

Lemma traverseModule_numbered
    (importMap : gmap string string) (primary : option string)
    (ast : list ModuleItem) :
  ∀ st st',
    traverseModule importMap primary ast st = Some st' →
    walkNumbered st → walkNumbered st'.
Proof.
  induction ast as [|item ast IH]; intros st st' Hwalk Hst; simpl in Hwalk.
  - congruence.
  - destruct (visitModuleItem importMap primary st item) as [st1|] eqn:Hitem;
      [|done].
    eapply IH; [exact Hwalk|].
    destruct item as [src specs|[name|id block|]|[d|] specs|d|];
      simpl in Hitem; try congruence.
    + by eapply visitFunctionDeclaration_numbered.
    + by eapply visitDeclaration_numbered.
    + by eapply visitDeclaration_numbered.
Qed.

Lemma numbered_disjoint (p q : string) (a b : ascii) (ids ids' : list string) :
  a ≠ b →
  numbered (String a p) ids → numbered (String b q) ids' →
  ∀ x, x ∈ ids → x ∉ ids'.
Proof.
  intros Hab Hids Hids' x Hx Hx'.
  apply list_elem_of_lookup in Hx as [i Hi].
  apply list_elem_of_lookup in Hx' as [j Hj].
  apply Hids in Hi. apply Hids' in Hj. rewrite Hi in Hj.
  simpl in Hj. injection Hj as Heq _. by apply Hab.
Qed.

(** X18: in every analysis the entry function returns, the hook facts
    carry the identities [hook-1], [hook-2], ..., the effect facts
    [effect-1], ..., the callback facts [callback-1], ... and the
    element facts [jsx-1], ..., each list in its own order, however
    many declarations of the primary component were inspected; the
    node identities of the layout assembled from it are therefore
    pairwise distinct. *)
Theorem analysis_identities_numbered
    (ast : list ModuleItem) (src : string) (file : option string)
    (analysis : ComponentAnalysis) :
  analyzeReactComponent ast src file = Some analysis →
  numbered "hook-" (map hook_id (hooks analysis))
  ∧ numbered "effect-" (map eff_id (effects analysis))
  ∧ numbered "callback-" (map cb_id (callbacks analysis))
  ∧ numbered "jsx-" (map jsx_id (jsxNodes analysis))
  ∧ NoDup (map node_id (nodes (buildGraphFromAnalysis (Some analysis)))).
Proof.
  unfold analyzeReactComponent, analyzeComponentBody.
  destruct (traverseModule _ _ ast emptyWalk) as [st|] eqn:Hwalk; [|done].
  intros [= <-]. cbn [hooks effects callbacks jsxNodes].
  assert (Hnum : walkNumbered st).
  { eapply traverseModule_numbered; [exact Hwalk|]. by repeat split. }
  destruct Hnum as (Hh & He & Hc & Hj). split_and!; try done.
  eapply assembled_node_ids_NoDup.
  - apply buildGraphFromAnalysis_assembled.
  - by eapply numbered_NoDup.
  - cbn [effects callbacks]. apply NoDup_app. split_and!.
    + by eapply numbered_NoDup.
    + by eapply (numbered_disjoint "ffect-" "allback-" "e" "c").
    + by eapply numbered_NoDup.
  - apply flatJsxNodesOf_ids_NoDup. by eapply numbered_NoDup.
Qed.

Lemma analysis_identities_numbered_witness :
  ∃ analysis,
    analyzeReactComponent
      (arrowComponent "App"
         (BlockBody {| entered := countDeclaration;
                       outermostElements := [nestedMarkup] |}))
      EmptyString None
    = Some analysis
    ∧ NoDup (map node_id (nodes (buildGraphFromAnalysis (Some analysis)))).
Proof.
  destruct (analyzeReactComponent
              (arrowComponent "App"
                 (BlockBody {| entered := countDeclaration;
                               outermostElements := [nestedMarkup] |}))
              EmptyString None) as [analysis|] eqn:Hanalysis.
  - exists analysis. split; [reflexivity|].
    apply (analysis_identities_numbered _ _ _ _ Hanalysis).
  - vm_compute in Hanalysis. discriminate.
Defined.

(** ** The import map *)

Lemma setImport_lookup (src : string) (specifiers : list string) (name : string) :
  name ≠ "__proto__" →
  ∀ map : gmap string string,
    fold_left (setImport src) specifiers map !! name
    = if bool_decide (name ∈ specifiers) then Some src else map !! name.
Proof.
  intros Hname.
  induction specifiers as [|spec specifiers IH]; intros map; simpl; [done|].
  rewrite IH. unfold setImport.
  destruct (decide (name ∈ specifiers)) as [Hin|Hnot].
  - rewrite (bool_decide_eq_true_2 _ Hin).
    by rewrite bool_decide_eq_true_2 by (by right).
  - rewrite (bool_decide_eq_false_2 _ Hnot).
    destruct (String.eqb_spec spec "__proto__") as [->|Hspec].
    + rewrite bool_decide_eq_false_2; [done|].
      intros [?|?]%elem_of_cons; done.
    + destruct (decide (name = spec)) as [->|Hne].
      * rewrite lookup_insert_eq.
        by rewrite bool_decide_eq_true_2 by (by left).
      * rewrite lookup_insert_ne by done.
        rewrite bool_decide_eq_false_2; [done|].
        intros [?|?]%elem_of_cons; done.
Qed.

Lemma setImport_proto (src : string) (specifiers : list string) :
  ∀ map : gmap string string,
    fold_left (setImport src) specifiers map !! "__proto__"
    = map !! "__proto__".
Proof.
  induction specifiers as [|spec specifiers IH]; intros map; simpl; [done|].
  rewrite IH. unfold setImport.
  destruct (String.eqb_spec spec "__proto__") as [->|Hspec]; [done|].
  by rewrite lookup_insert_ne.
Qed.

(** X19: the import map holds, for a local name, the source of the last
    import declaration that binds it, whatever kind of specifier binds
    it, and nothing for a name no import binds; it never holds a source
    for [__proto__].  A name that is bound by no import and is not an
    inherited property name reads as absent. *)
Theorem import_map_last_declaration_wins (ast : list ModuleItem) :
  (∀ name,
     name ≠ "__proto__" →
     collectImportMap ast !! name = last (importSourcesOf name ast))
  ∧ collectImportMap ast !! "__proto__" = None
  ∧ (∀ name,
       importSourcesOf name ast = [] →
       name ∉ objectPrototypeNames →
       importLookup (collectImportMap ast) name = NoImport).
Proof.
  assert (Hlast : ∀ name,
             name ≠ "__proto__" →
             collectImportMap ast !! name = last (importSourcesOf name ast)).
  { intros name Hname. unfold collectImportMap.
    assert (Hgen : ∀ map : gmap string string,
               fold_left
                 (fun map node =>
                    match node with
                    | ImportDeclaration src specifiers =>
                        fold_left (setImport src) specifiers map
                    | _ => map
                    end) ast map !! name
               = match last (importSourcesOf name ast) with
                 | Some src => Some src
                 | None => map !! name
                 end).
    { induction ast as [|item ast IH]; intros map; [done|].
      cbn [fold_left importSourcesOf flat_map].
      fold (importSourcesOf name ast).
      rewrite IH, last_app.
      destruct (last (importSourcesOf name ast)) as [s|]; [done|].
      destruct item as [src specs| | | |]; try done.
      rewrite (setImport_lookup src specs name Hname).
      by destruct (bool_decide (name ∈ specs)). }
    rewrite Hgen. by destruct (last _). }
  split_and!.
  - exact Hlast.
  - unfold collectImportMap.
    assert (Hgen : ∀ map : gmap string string,
               fold_left
                 (fun map node =>
                    match node with
                    | ImportDeclaration src specifiers =>
                        fold_left (setImport src) specifiers map
                    | _ => map
                    end) ast map !! "__proto__"
               = map !! "__proto__").
    { clear Hlast. induction ast as [|item ast IH]; intros map; [done|].
      cbn [fold_left]. rewrite IH.
      destruct item; [apply setImport_proto | reflexivity..]. }
    by rewrite Hgen.
  - intros name Hnone Hnot. unfold importLookup.
    assert (Hname : name ≠ "__proto__").
    { intros ->. apply Hnot. unfold objectPrototypeNames. repeat constructor. }
    rewrite (Hlast name Hname), Hnone. simpl.
    by rewrite bool_decide_eq_false_2.
Qed.

Lemma import_map_last_declaration_wins_witness :
  collectImportMap
    [ImportDeclaration "react" ["useState"; "useEffect"];
     ImportDeclaration "preact/hooks" ["useState"]] !! "useState"
  = Some "preact/hooks".
Proof.
  apply (proj1 (import_map_last_declaration_wins
                  [ImportDeclaration "react" ["useState"; "useEffect"];
                   ImportDeclaration "preact/hooks" ["useState"]])
               "useState").
  discriminate.
Defined.

(** ** Calls of inherited names *)

Lemma collectImportMap_unbound (ast : list ModuleItem) (name : string) :
  importSourcesOf name ast = [] ∨ name = "__proto__" →
  collectImportMap ast !! name = None.
Proof.
  assert (Hgen : ∀ map : gmap string string,
             importSourcesOf name ast = [] ∨ name = "__proto__" →
             fold_left
               (fun map node =>
                  match node with
                  | ImportDeclaration src specifiers =>
                      fold_left (setImport src) specifiers map
                  | _ => map
                  end) ast map !! name
             = map !! name).
  { induction ast as [|item ast IH]; intros map Hname; [done|].
    cbn [fold_left]. rewrite IH.
    - destruct item as [src specs| | | |]; try reflexivity.
      destruct Hname as [Hnone| ->]; [|apply setImport_proto].
      destruct (decide (name = "__proto__")) as [->|Hne];
        [apply setImport_proto|].
      rewrite (setImport_lookup src specs name Hne).
      cbn [importSourcesOf flat_map] in Hnone.
      destruct (bool_decide (name ∈ specs)); [discriminate|done].
    - destruct Hname as [Hnone|Hproto]; [left|by right].
      cbn [importSourcesOf flat_map] in Hnone.
      by apply app_eq_nil in Hnone as [_ Hnone]. }
  intros Hname. unfold collectImportMap. by rewrite (Hgen ∅ Hname).
Qed.

(** X15: on the tree of a module, the analysis throws whenever a block
    body it inspects enters a call of a bare identifier, as the
    initialiser of a declarator or anywhere else, whose name is one of
    the property names every plain object inherits ([toString],
    [valueOf], [constructor], ...) and for which the import map holds
    no source: no import declaration binds the name, or the name is
    [__proto__], which the map never stores.  [importMap[name]] is then
    the inherited value, on which [classifyHookKind] calls
    [includes]. *)
Theorem analysis_throws_on_inherited_names
    (ast : list ModuleItem) (src : string) (file : option string)
    (block : BlockStatement) (node : BodyNode) (localName : string) :
  block ∈ inspectedBlocks
            (pickPrimaryComponent (collectExportedComponents ast) file) ast →
  node ∈ entered block →
  bareCallee node = Some localName →
  localName ∈ objectPrototypeNames →
  importSourcesOf localName ast = [] ∨ localName = "__proto__" →
  analyzeReactComponent ast src file = None.
Proof.
  intros Hblock Hnode Hcallee Hinherited Hunbound.
  unfold analyzeReactComponent, analyzeComponentBody.
  assert (Hnone : traverseModule (collectImportMap ast)
                    (pickPrimaryComponent (collectExportedComponents ast) file)
                    ast emptyWalk = None).
  { apply traverseModule_None. apply Exists_exists. exists block.
    split; [exact Hblock|]. apply Exists_exists. exists node.
    split; [exact Hnode|].
    assert (Haborts : inheritedCallee (collectImportMap ast) (Some localName)
                      = true).
    { unfold inheritedCallee.
      rewrite (bool_decide_eq_true_2 _ Hinherited).
      by rewrite (bool_decide_eq_true_2 _
                    (collectImportMap_unbound ast localName Hunbound)). }
    destruct node as [id init initLoc|callee arguments loc parentId];
      simpl in *; by rewrite Hcallee. }
  by rewrite Hnone.
Qed.

Lemma analysis_throws_on_inherited_names_witness :
  analyzeReactComponent (callingComponent [] "toString") EmptyString None
  = None
  ∧ analyzeReactComponent
      (callingComponent [ImportDeclaration "./proto" ["__proto__"]]
         "__proto__")
      EmptyString (Some "App.tsx")
    = None.
Proof.
  split.
  - apply (analysis_throws_on_inherited_names
             (callingComponent [] "toString") EmptyString None
             {| entered := [EnteredCall (Identifier "toString") [] None None];
                outermostElements := [] |}
             (EnteredCall (Identifier "toString") [] None None) "toString").
    + vm_compute. left.
    + left.
    + reflexivity.
    + unfold objectPrototypeNames. repeat constructor.
    + by left.
  - apply (analysis_throws_on_inherited_names
             (callingComponent [ImportDeclaration "./proto" ["__proto__"]]
                "__proto__")
             EmptyString (Some "App.tsx")
             {| entered := [EnteredCall (Identifier "__proto__") [] None None];
                outermostElements := [] |}
             (EnteredCall (Identifier "__proto__") [] None None) "__proto__").
    + vm_compute. left.
    + left.
    + reflexivity.
    + unfold objectPrototypeNames. repeat constructor.
    + by right.
Defined.

(** ** Element names *)

Lemma memberChain_snoc (base : string) (properties : list string) (p : string) :
  memberChain base (properties ++ [p])
  = JSXMemberExpression (memberChain base properties) p.
Proof. unfold memberChain. by rewrite fold_left_app. Qed.

Lemma memberParts_memberChain (base : string) (properties : list string) :
  properties ≠ [] →
  ∀ parts,
    memberParts (memberChain base properties) parts
    = base :: properties ++ parts.
Proof.
  induction properties as [|p qs IH] using rev_ind; [done|].
  intros _ parts. rewrite memberChain_snoc. simpl.
  destruct qs as [|q qs] using rev_ind.
  - done.
  - clear IHqs. rewrite memberChain_snoc in *.
    rewrite IH by (by destruct qs).
    by rewrite <- !app_assoc.
Qed.

(** X20: the name of an element written as a member expression
    [base.p1. ... .pn] is recorded as the parts joined by dots, in
    source order, however deep the expression is nested. *)
Theorem member_element_name_in_source_order
    (base p : string) (properties : list string) :
  getJsxName (memberChain base (p :: properties))
  = joinDot (base :: p :: properties).
Proof.
  assert (Hparts := memberParts_memberChain base (p :: properties)
                      ltac:(done) []).
  rewrite app_nil_r in Hparts. rewrite <- Hparts.
  destruct (p :: properties) as [|q qs] eqn:Hps using rev_ind; [done|].
  by rewrite memberChain_snoc.
Qed.

(** ** The base name of a file *)

Lemma append_nonempty (base ext : string) : base +:+ "." +:+ ext ≠ EmptyString.
Proof. by destruct base. Qed.

(** X21: the extension pattern splits every file name in at most one
    way: either the name is some base, a dot and a non-empty extension
    without slash or dot, and then exactly the dot and the extension
    are cut off, or the name has no such form and is kept as it is.
    Only the last extension is cut, a dot in a directory part is kept,
    and a name that starts with its only dot is cut down to the empty
    string. *)
Theorem extension_cut_once (s : string) :
  (stripExtension s = s
   ∧ ∀ base ext,
       ext ≠ EmptyString → Js.allChars extChar ext = true →
       s ≠ base +:+ "." +:+ ext)
  ∨ (∃ base ext,
       ext ≠ EmptyString ∧ Js.allChars extChar ext = true
       ∧ s = base +:+ "." +:+ ext
       ∧ stripExtension s = base).
Proof.
  induction s as [|c rest IH].
  - left. split; [done|]. intros base ext _ _ Heq. symmetry in Heq.
    by apply append_nonempty in Heq.
  - simpl.
    destruct (Ascii.eqb c "." && negb (rest =? EmptyString)%string
              && Js.allChars extChar rest)%bool eqn:Hcut.
    + right. apply andb_prop in Hcut as [Hcut Hall].
      apply andb_prop in Hcut as [Hdot Hne].
      apply Ascii.eqb_eq in Hdot as ->.
      exists EmptyString, rest. split_and!; try done.
      intros ->. done.
    + destruct IH as [[Hsame Hnone]|(base & ext & Hne & Hall & -> & Hstrip)].
      * left. split; [by rewrite Hsame|].
        intros [|b base] ext Hne Hall Heq; simpl in Heq.
        -- injection Heq as -> ->.
           change (EmptyString +:+ ext) with ext in Hcut.
           rewrite Hall in Hcut. simpl in Hcut.
           destruct ext; [done | discriminate].
        -- injection Heq as -> ->. by eapply Hnone.
      * right. exists (String c base), ext. split_and!; try done.
        by rewrite Hstrip.
Qed.

Lemma extension_cut_once_witness :
  ∃ base ext,
    ext ≠ EmptyString
    ∧ "App.test.tsx" = base +:+ "." +:+ ext
    ∧ stripExtension "App.test.tsx" = base.
Proof.
  destruct (extension_cut_once "App.test.tsx")
    as [[Hsame _]|(base & ext & Hne & _ & Heq & Hstrip)].
  - vm_compute in Hsame. discriminate.
  - by exists base, ext.
Defined.

(** ** Callbacks written as an expression *)



(** ** Element boxes *)

(** X23: in the flat layout two element nodes are at least one box
    height apart, so their boxes never overlap.  In the depth-grouped
    layout they can: an element is 16 away from the element that comes
    two places earlier in the next depth, which is inside its box, and
    it lies exactly on the element that comes five places earlier in
    the depth two levels down. *)
Theorem element_boxes_overlap_across_bands :
  (∀ analysis (i i' : nat) n n',
     let column := nodesOfKind NJsx (buildGraphFromAnalysis (Some analysis)) in
     column !! i = Some n → column !! i' = Some n' → i ≠ i' →
     node_height n ≤ Z.abs (node_y n - node_y n'))
  ∧ (∀ mappingResult (k k' : nat) j j',
       let facts := Mapping.jsxNodes mappingResult in
       let column :=
         nodesOfKind NJsx (buildGraphFromMappingResult (Some mappingResult)) in
       facts !! k = Some j → facts !! k' = Some j' →
       (Mapping.depth j' = Mapping.depth j + 1
        ∧ depthRank facts k (Mapping.depth j)
          = (depthRank facts k' (Mapping.depth j') + 2)%nat)
       ∨ (Mapping.depth j' = Mapping.depth j + 2
          ∧ depthRank facts k (Mapping.depth j)
            = (depthRank facts k' (Mapping.depth j') + 5)%nat) →
       ∃ n n',
         n ∈ column ∧ n' ∈ column
         ∧ node_id n = "jsx-" +:+ Mapping.id j
         ∧ node_id n' = "jsx-" +:+ Mapping.id j'
         ∧ node_x n = node_x n'
         ∧ Z.abs (node_y n - node_y n') < node_height n).
Proof.
  split.
  - intros analysis i i' n n' column Hi Hi' Hne. subst column.
    rewrite (nodesOfKind_assembled _ _ _ _ _ _
               (buildGraphFromAnalysis_assembled analysis)) in Hi, Hi'.
    apply layoutColumnNodes_geometry in Hi as (_ & Hy & _ & Hh).
    apply layoutColumnNodes_geometry in Hi' as (_ & Hy' & _ & _).
    rewrite Hy, Hy', Hh. lia.
  - intros mappingResult k k' j j' facts column Hk Hk' Hoffset. subst column.
    rewrite (nodesOfKind_assembled _ _ _ _ _ _
               (buildGraphFromMappingResult_assembled mappingResult)).
    eexists _, _. split; [exact (depthJsxNodesOf_fact facts k j Hk)|].
    split; [exact (depthJsxNodesOf_fact facts k' j' Hk')|].
    simpl. split_and!; try done.
    destruct Hoffset as [[-> ->]|[-> ->]]; lia.
Qed.

Lemma element_boxes_overlap_across_bands_witness :
  let column :=
    nodesOfKind NJsx
      (buildGraphFromMappingResult
         (Some (sampleMapping [] [] [] wideShallowFacts))) in
  ∃ n n',
    n ∈ column ∧ n' ∈ column
    ∧ node_id n = "jsx-jsx-4" ∧ node_id n' = "jsx-jsx-2"
    ∧ node_x n = node_x n'
    ∧ Z.abs (node_y n - node_y n') < node_height n.
Proof.
  apply (proj2 element_boxes_overlap_across_bands
           (sampleMapping [] [] [] wideShallowFacts) 3%nat 1%nat
           (sampleElement 4 "d" 0 None)
           (sampleElement 2 "b" 1 (Some "jsx-1"))).
  - reflexivity.
  - reflexivity.
  - left. split; reflexivity.
Defined.
